(** * GNU diff support routines (src/util.c): a shallow embedding

    The development follows util.c function by function.  Bytes are
    [ascii] values, C strings are lists of bytes whose terminating NUL
    is the byte read at (and after) the end of the list, [lin] values
    are integers kept in the range of a signed machine word, and the
    global variables of util.c that a function touches are the fields
    of an explicit state record. *)

From Stdlib Require Import ZArith Lia Bool List Ascii String DecimalString.
From stdpp Require Import base option list gmap.
Import ListNotations.

Local Open Scope Z_scope.

#[local] Set Default Proof Using "Type".

(** ** Line numbers: the type [lin]

    system.h (not part of this development) declares [lin] as a signed
    integer type.  Its width in bits is the parameter [lin_bits]; the
    arithmetic of the embedding wraps around in two's complement. *)

(** Names of the C types: [lin] for line numbers, [line] for the bytes
    of a line, [ptr] for the address of a [struct change]. *)
Abbreviation lin := Z (only parsing).
Abbreviation line := (list ascii) (only parsing).
Abbreviation ptr := positive (only parsing).

Section Util.

Variable lin_bits : Z.

Definition LIN_MIN : Z := - 2 ^ (lin_bits - 1).
Definition LIN_MAX : Z := 2 ^ (lin_bits - 1) - 1.

Definition lin_wrap (z : Z) : lin :=
  (z - LIN_MIN) mod 2 ^ lin_bits + LIN_MIN.

Definition lin_add (a b : lin) : lin := lin_wrap (a + b).
Definition lin_sub (a b : lin) : lin := lin_wrap (a - b).

(** [in_lin z]: the integer [z] is representable in a [lin]. *)
Definition in_lin (z : Z) : Prop := LIN_MIN <= z <= LIN_MAX.

Hypothesis lin_bits_pos : 0 < lin_bits.

Lemma lin_modulus : 2 ^ lin_bits = 2 * 2 ^ (lin_bits - 1).
Proof using lin_bits_pos.
  rewrite <- Z.pow_succ_r by lia. f_equal. lia.
Qed.

Lemma lin_wrap_small z : in_lin z -> lin_wrap z = z.
Proof using lin_bits_pos.
  unfold in_lin, lin_wrap, LIN_MAX, LIN_MIN. intros Hz.
  pose proof lin_modulus as Hm.
  assert (0 < 2 ^ (lin_bits - 1)) by (apply Z.pow_pos_nonneg; lia).
  rewrite Z.mod_small by lia. lia.
Qed.

Lemma lin_wrap_add_l x y : lin_wrap (lin_wrap x + y) = lin_wrap (x + y).
Proof using lin_bits_pos.
  unfold lin_wrap. f_equal.
  assert (0 < 2 ^ lin_bits) by (apply Z.pow_pos_nonneg; lia).
  replace ((x - LIN_MIN) mod 2 ^ lin_bits + LIN_MIN + y - LIN_MIN)
    with ((x - LIN_MIN) mod 2 ^ lin_bits + y) by lia.
  replace (x + y - LIN_MIN) with ((x - LIN_MIN) + y) by lia.
  rewrite Zplus_mod_idemp_l. reflexivity.
Qed.

Lemma lin_wrap_sub_l x y : lin_wrap (lin_wrap x - y) = lin_wrap (x - y).
Proof using lin_bits_pos.
  replace (lin_wrap x - y) with (lin_wrap x + - y) by lia.
  rewrite lin_wrap_add_l. reflexivity.
Qed.

(** ** The output stream and the trace of a run

    [outfile] is a stdio stream.  The embedding keeps the sequence of
    things done to it: every write is an event [Wrote bs] carrying the
    bytes the stream accepted, and every call of [process_signals] is an
    event [Signals].  [room] is the number of bytes the stream still
    accepts before writes start to fail (a closed pipe, a full disk), so
    the short-count and negative results that util.c tests for occur in
    the model. *)

Inductive event : Type :=
  | Wrote (bs : list ascii)
  | Signals.

Fixpoint output_bytes (tr : list event) : list ascii :=
  match tr with
  | [] => []
  | Wrote bs :: tr' => bs ++ output_bytes tr'
  | Signals :: tr' => output_bytes tr'
  end.

(** The values of [enum color_context] (diff.h); util.c only compares
    them with each other. *)
Inductive color_context : Type :=
  | HEADER_CONTEXT | ADD_CONTEXT | DELETE_CONTEXT | RESET_CONTEXT
  | LINE_NUMBER_CONTEXT.

(** [struct bin_str]: a length and a pointer.  The pointer is null, or
    points at a string literal, or points into the palette buffer at
    some offset (where [parse_diff_color] leaves it). *)
Inductive str_ptr : Type :=
  | Null
  | Literal (s : list ascii)
  | InPalette (off : nat).

Record bin_str : Type := mk_bin_str { bs_len : nat; bs_string : str_ptr }.

(** A diagnostic issued through [error]: the exit status it was called
    with, the msgid of its format and the string argument, if any. *)
Record diagnostic : Type :=
  mk_diag { d_status : Z; d_msgid : string; d_arg : option (list ascii) }.

(** The static variables of util.c, with the stream behind [outfile]. *)
Record world : Type := mk_world {
  trace : list event;
  room : nat;
  colors_enabled : bool;
  last_context : color_context;
  color_indicator : list bin_str;
  palette_mem : list ascii;      (* the bytes color_palette was set to *)
  color_palette : bool;          (* color_palette != nullptr *)
  stderr_log : list diagnostic
}.

Definition with_out (tr : list event) (r : nat) (w : world) : world :=
  mk_world tr r (colors_enabled w) (last_context w) (color_indicator w)
           (palette_mem w) (color_palette w) (stderr_log w).

(** [fwrite (s, 1, |s|, outfile)]: the count written, and the stream. *)
Definition fwrite (s : list ascii) (w : world) : nat * world :=
  let n := Nat.min (length s) (room w) in
  (n, with_out (trace w ++ [Wrote (take n s)]) (room w - n) w).

(** [fprintf] of a fully formatted text; [true] when it did not fail. *)
Definition fprintf (s : list ascii) (w : world) : bool * world :=
  let (n, w') := fwrite s w in (Nat.eqb n (length s), w').

(** [putc]; [true] when the result is not negative. *)
Definition putc (c : ascii) (w : world) : bool * world := fprintf [c] w.

(** [process_signals]: the embedding follows the runs in which no signal
    is pending when the function looks, so its loop body is not entered;
    the call itself is recorded. *)
Definition process_signals (w : world) : world :=
  with_out (trace w ++ [Signals]) (room w) w.

Arguments fwrite : simpl never.
Arguments fprintf : simpl never.
Arguments putc : simpl never.
Arguments process_signals : simpl never.

Lemma output_bytes_app tr1 tr2 :
  output_bytes (tr1 ++ tr2) = output_bytes tr1 ++ output_bytes tr2.
Proof.
  induction tr1 as [|[bs|] tr1 IH]; simpl; [reflexivity| |assumption].
  rewrite IH. apply app_assoc.
Qed.

Lemma fwrite_output s w :
  (length s <= room w)%nat ->
  output_bytes (trace (snd (fwrite s w))) = output_bytes (trace w) ++ s
  /\ room (snd (fwrite s w)) = (room w - length s)%nat
  /\ fst (fwrite s w) = length s.
Proof.
  intros Hroom. unfold fwrite. cbn [fst snd trace room with_out].
  rewrite Nat.min_l by exact Hroom.
  rewrite output_bytes_app. simpl. rewrite app_nil_r.
  rewrite firstn_all. auto.
Qed.

Lemma fprintf_output s w :
  (length s <= room w)%nat ->
  output_bytes (trace (snd (fprintf s w))) = output_bytes (trace w) ++ s
  /\ room (snd (fprintf s w)) = (room w - length s)%nat
  /\ fst (fprintf s w) = true.
Proof.
  intros Hroom. destruct (fwrite_output s w Hroom) as (Hw & Hr & Hn).
  unfold fprintf. destruct (fwrite s w) as [n w']. simpl in *.
  subst n. rewrite Nat.eqb_refl. auto.
Qed.

(** ** Line numbers shown to the user *)

(** Modelled from the spec: [struct file_data] is declared in diff.h.
    Section 3 of the specification gives a sequence its table of lines
    and its "prefix lines" offset.  The text of line [i] of a file is
    the bytes from [linbuf[i]] up to [linbuf[i + 1]], its newline
    included when it has one. *)
Record file_data : Type := mk_file_data {
  linbuf : lin -> line;
  prefix_lines : lin
}.

Definition translate_line_number (file : file_data) (i : lin) : lin :=
  lin_add (lin_add i (prefix_lines file)) 1.

Definition translate_range (file : file_data) (a b : lin) : lin * lin :=
  (lin_add (translate_line_number file (lin_sub a 1)) 1,
   lin_sub (translate_line_number file (lin_add b 1)) 1).

(** The digits [printf] produces for a [%d] conversion. *)
Definition decimal (z : Z) : list ascii :=
  list_ascii_of_string (NilZero.string_of_int (Z.to_int z)).

Definition print_number_range (sepchar : ascii) (file : file_data)
    (a b : lin) (w : world) : world :=
  let '(trans_a, trans_b) := translate_range file a b in
  (* Note: we can have B < A in the case of a range of no lines.
     In this case, we should print the line number before the range,
     which is B.  *)
  if trans_a <? trans_b
  then snd (fprintf (decimal trans_a ++ sepchar :: decimal trans_b) w)
  else snd (fprintf (decimal trans_b) w).

Lemma translate_line_number_wrap file i :
  translate_line_number file i = lin_wrap (i + prefix_lines file + 1).
Proof using lin_bits_pos.
  unfold translate_line_number, lin_add. apply lin_wrap_add_l.
Qed.

Lemma translate_range_wrap file a b :
  translate_range file a b =
  (lin_wrap (a + prefix_lines file + 1), lin_wrap (b + prefix_lines file + 1)).
Proof using lin_bits_pos.
  unfold translate_range. rewrite !translate_line_number_wrap.
  unfold lin_add, lin_sub. f_equal.
  - rewrite lin_wrap_add_l.
    replace (lin_wrap (a - 1) + prefix_lines file + 1 + 1)
      with (lin_wrap (a - 1) + (prefix_lines file + 1 + 1)) by lia.
    rewrite lin_wrap_add_l. f_equal. lia.
  - rewrite lin_wrap_sub_l.
    replace (lin_wrap (b + 1) + prefix_lines file + 1 - 1)
      with (lin_wrap (b + 1) + (prefix_lines file + 1 - 1)) by lia.
    rewrite lin_wrap_add_l. f_equal. lia.
Qed.

(** C4.  The displayed number of internal line [i] is
    [i + prefix_lines + 1], and [translate_range] maps an internal range
    [(a, b)] to [(a + prefix_lines + 1, b + prefix_lines + 1)], whenever
    the displayed numbers are representable in a [lin]. *)
Theorem translate_line_number_range_spec (file : file_data) (i a b : lin) :
  in_lin (i + prefix_lines file + 1) ->
  in_lin (a + prefix_lines file + 1) ->
  in_lin (b + prefix_lines file + 1) ->
  translate_line_number file i = i + prefix_lines file + 1
  /\ translate_range file a b =
     (a + prefix_lines file + 1, b + prefix_lines file + 1).
Proof using lin_bits_pos.
  intros Hi Ha Hb. split.
  - rewrite translate_line_number_wrap. apply lin_wrap_small, Hi.
  - rewrite translate_range_wrap.
    rewrite (lin_wrap_small _ Ha), (lin_wrap_small _ Hb). reflexivity.
Qed.

(** C5.  [print_number_range] prints one translated number when the
    range is a single line, and the two translated numbers with
    [sepchar] between them when the range has more than one line. *)
Theorem print_number_range_spec (sepchar : ascii) (file : file_data)
    (a b : lin) (w : world) :
  let first := a + prefix_lines file + 1 in
  let last := b + prefix_lines file + 1 in
  in_lin first -> in_lin last ->
  (length (decimal first) + 1 + length (decimal last) <= room w)%nat ->
  (a = b ->
     output_bytes (trace (print_number_range sepchar file a b w))
     = output_bytes (trace w) ++ decimal first)
  /\ (a < b ->
     output_bytes (trace (print_number_range sepchar file a b w))
     = output_bytes (trace w) ++ decimal first ++ sepchar :: decimal last).
Proof using lin_bits_pos.
  intros first last Ha Hb Hroom.
  unfold print_number_range. rewrite translate_range_wrap.
  fold first last. rewrite (lin_wrap_small _ Ha), (lin_wrap_small _ Hb).
  split; intros Hab.
  - assert (Hlt : (first <? last) = false) by (apply Z.ltb_ge; subst first last; lia).
    rewrite Hlt. replace last with first by (subst first last; lia).
    apply fprintf_output. lia.
  - assert (Hlt : (first <? last) = true) by (apply Z.ltb_lt; subst first last; lia).
    rewrite Hlt. apply fprintf_output.
    rewrite length_app. simpl. lia.
Qed.

(** Whatever room the stream has, a write adds to the output the
    longest prefix of its bytes that the stream accepts. *)
Lemma fwrite_prefix s w :
  output_bytes (trace (snd (fwrite s w)))
  = output_bytes (trace w) ++ take (room w) s
  /\ room (snd (fwrite s w)) = (room w - length s)%nat.
Proof.
  unfold fwrite. cbn [fst snd trace room with_out].
  rewrite output_bytes_app. simpl. rewrite app_nil_r. split; [|lia].
  f_equal. destruct (Nat.le_ge_cases (length s) (room w)).
  - rewrite Nat.min_l by lia. rewrite !take_ge by lia. reflexivity.
  - rewrite Nat.min_r by lia. reflexivity.
Qed.

Lemma fprintf_snd s w : snd (fprintf s w) = snd (fwrite s w).
Proof. unfold fprintf. destruct (fwrite s w). reflexivity. Qed.

Lemma fprintf_prefix s w :
  output_bytes (trace (snd (fprintf s w)))
  = output_bytes (trace w) ++ take (room w) s
  /\ room (snd (fprintf s w)) = (room w - length s)%nat.
Proof. rewrite fprintf_snd. apply fwrite_prefix. Qed.

(** X1.  For a range that is empty or a single line, [b <= a],
    print_number_range prints one number, the displayed number of [b],
    and no [sepchar]: for an empty range this is the line before the
    range.  A stream that stops accepting bytes gets the digits that
    fit. *)
Theorem print_number_range_single_number (sepchar : ascii) (file : file_data)
    (a b : lin) (w : world) :
  in_lin (a + prefix_lines file + 1) ->
  in_lin (b + prefix_lines file + 1) ->
  b <= a ->
  output_bytes (trace (print_number_range sepchar file a b w))
  = output_bytes (trace w)
    ++ take (room w) (decimal (b + prefix_lines file + 1)).
Proof using lin_bits_pos.
  intros Ha Hb Hba. unfold print_number_range. rewrite translate_range_wrap.
  rewrite (lin_wrap_small _ Ha), (lin_wrap_small _ Hb).
  assert (Hlt : (a + prefix_lines file + 1 <? b + prefix_lines file + 1) = false)
    by (apply Z.ltb_ge; lia).
  rewrite Hlt. apply fprintf_prefix.
Qed.

(** ** Edit scripts

    A hunk is the chain of changes met by following [link] from its
    first change up to a null link. *)

(** Modelled from the spec: [struct change] is declared in diff.h,
    which is not among the sources.  Section 3 of the specification
    gives the fields [line0], [line1], [deleted], [inserted] and
    [link]. *)
Record change : Type := mk_change {
  link : option ptr;     (* nullptr is None *)
  inserted : lin;
  deleted : lin;
  line0 : lin;
  line1 : lin
}.

(** Modelled from the spec: [enum changes] is declared in diff.h.
    Section 4.4 of the specification names its four values; they are
    numbered so that [OLD | NEW] is [CHANGED] ("both"). *)
Inductive changes : Type := UNCHANGED | OLD | NEW | CHANGED.

Definition changes_code (c : changes) : Z :=
  match c with UNCHANGED => 0 | OLD => 1 | NEW => 2 | CHANGED => 3 end.

Definition changes_of_code (z : Z) : changes :=
  match z with 1 => OLD | 2 => NEW | 3 => CHANGED | _ => UNCHANGED end.

(** [a | b] on two values of the enumeration. *)
Definition changes_or (a b : changes) : changes :=
  changes_of_code (Z.lor (changes_code a) (changes_code b)).

(** The option variables of diff.h read by util.c.
    [ignore_white_space] holds a value of [enum DIFF_white_space]. *)
Record options : Type := mk_options {
  ignore_blank_lines : bool;
  ignore_white_space : Z;
  ignore_regexp_fastmap : bool;    (* ignore_regexp.fastmap != nullptr *)
  expand_tabs : bool;
  tabsize : Z;
  initial_tab : bool;
  suppress_blank_empty : bool
}.

(** ** Library functions util.c calls

    [mcel_scan (p, lim)] decodes the character at the front of the bytes
    from [p] up to [lim]; its length is at least one byte.
    [re_search string start range] stands for
    [re_search (&ignore_regexp, string, length, start, range, nullptr)]:
    the offset of the first match found, or a negative number. *)

Record mcel_t : Type := mk_mcel {
  mcel_ch : Z;
  mcel_err : bool;
  mcel_len : positive
}.

(** The most bytes [mcel_scan] gives a character (mcel.h). *)
Variable MCEL_LEN_MAX : nat.

(** The two enumerators of [enum DIFF_white_space] (diff.h) that
    analyze_hunk compares [ignore_white_space] with. *)
Variable IGNORE_TRAILING_SPACE : Z.
Variable IGNORE_SPACE_CHANGE : Z.

Variable mcel_scan : list ascii -> mcel_t.
Variable c32isspace : Z -> bool.
Variable c32isprint : Z -> bool.
Variable c32width : Z -> Z.
Variable re_search : list ascii -> Z -> Z -> Z.
Variable gettext : string -> list ascii.

Definition newline : ascii := "010"%char.
Definition NUL : ascii := "000"%char.

(** ** analyze_hunk *)

Section AnalyzeHunk.

Variable opts : options.
Variable file0 file1 : file_data.      (* curr.file[0], curr.file[1] *)

(** [newline - line]: the offset of the line's newline, or of the byte
    after the line when its last byte is not a newline.  Every line of
    the table has at least one byte. *)
Definition line_end (text : line) : nat :=
  match last text with
  | Some c => if Ascii.eqb c newline then (length text - 1)%nat else length text
  | None => 0%nat
  end.

(** The bytes of the line before [newline]. *)
Definition content (text : line) : list ascii := take (line_end text) text.

(** [line[p]].  The byte after a last line that lacks its newline is the
    newline that io.c stores behind the file's data. *)
Definition byte_at (text : line) (p : nat) : ascii :=
  default newline (text !! p).

Definition trivial_length : Z := Z.b2z (ignore_blank_lines opts) - 1.

Definition skip_white_space : bool :=
  ignore_blank_lines opts
  && (IGNORE_TRAILING_SPACE <=? ignore_white_space opts).

Definition skip_leading_white_space : bool :=
  skip_white_space
  && (IGNORE_SPACE_CHANGE <=? ignore_white_space opts).

(** The loop [while ( *p != '\n')] of analyze_hunk, started at offset
    [p]; the result is the offset [p] has after the loop. *)
Fixpoint skip_loop (fuel : nat) (text : line) (p : nat) : nat :=
  match fuel with
  | O => p
  | S fuel' =>
      if Ascii.eqb (byte_at text p) newline then p
      else
        let g := mcel_scan (drop p (content text)) in
        if negb (c32isspace (mcel_ch g))
        then (if negb skip_leading_white_space then 0%nat else p)
        else skip_loop fuel' text (p + Pos.to_nat (mcel_len g))
  end.

(** The offset of [p] when the length test is made. *)
Definition skipped (text : line) : nat :=
  if skip_white_space then skip_loop (S (length text)) text 0 else 0%nat.

(** The body of the two [for] loops: [true] when the line clears the
    flag [trivial]. *)
Definition line_not_trivial (text : line) : bool :=
  let len := line_end text in
  negb (Z.of_nat (line_end text) - Z.of_nat (skipped text) =? trivial_length)
  && (negb (ignore_regexp_fastmap opts)
      || (re_search (content text) 0 (Z.of_nat len) <? 0)).

(** [for (lin i = first; i <= last && trivial; i++)].  The fuel is the
    number of indices from [first] to [last]. *)
Fixpoint scan_lines (fuel : nat) (lb : lin -> line) (i last : lin)
    (trivial : bool) : bool :=
  match fuel with
  | O => trivial
  | S fuel' =>
      if (i <=? last) && trivial
      then scan_lines fuel' lb (lin_add i 1) last
             (if line_not_trivial (lb i) then false else trivial)
      else trivial
  end.

Record hunk_state : Type := mk_hunk_state {
  hs_trivial : bool;
  hs_show_from : lin;
  hs_show_to : lin;
  hs_l0 : lin;
  hs_l1 : lin
}.

(** One turn of the [do ... while] loop, on the change [next]. *)
Definition analyze_change (next : change) (st : hunk_state) : hunk_state :=
  let l0 := lin_sub (lin_add (line0 next) (deleted next)) 1 in
  let l1 := lin_sub (lin_add (line1 next) (inserted next)) 1 in
  let show_from := lin_add (hs_show_from st) (deleted next) in
  let show_to := lin_add (hs_show_to st) (inserted next) in
  let trivial :=
    scan_lines (Z.to_nat (l0 - line0 next + 1)) (linbuf file0)
      (line0 next) l0 (hs_trivial st) in
  let trivial :=
    scan_lines (Z.to_nat (l1 - line1 next + 1)) (linbuf file1)
      (line1 next) l1 trivial in
  mk_hunk_state trivial show_from show_to l0 l1.

Fixpoint analyze_chain (next : change) (rest : list change)
    (st : hunk_state) : hunk_state :=
  let st' := analyze_change next st in
  match rest with
  | [] => st'
  | next' :: rest' => analyze_chain next' rest' st'
  end.

Record hunk_result : Type := mk_hunk_result {
  hr_changes : changes;
  hr_first0 : lin; hr_last0 : lin;
  hr_first1 : lin; hr_last1 : lin
}.

(** [analyze_hunk (hunk, ...)], where [hunk] is the first change of the
    chain and [rest] the changes its links lead to. *)
Definition analyze_hunk (hunk : change) (rest : list change) : hunk_result :=
  let trivial := ignore_blank_lines opts || ignore_regexp_fastmap opts in
  let st := analyze_chain hunk rest (mk_hunk_state trivial 0 0 0 0) in
  mk_hunk_result
    (if hs_trivial st then UNCHANGED
     else changes_or (if hs_show_from st =? 0 then UNCHANGED else OLD)
                     (if hs_show_to st =? 0 then UNCHANGED else NEW))
    (line0 hunk) (hs_l0 st) (line1 hunk) (hs_l1 st).

(** *** What the length test of a line decides *)

(** [white_only s]: the bytes [s] decode, character after character,
    into white space, no character starting at a newline byte and none
    reaching past the end of [s]. *)
Inductive white_only : list ascii -> Prop :=
  | white_nil : white_only []
  | white_cons s :
      s <> [] ->
      head s <> Some newline ->
      c32isspace (mcel_ch (mcel_scan s)) = true ->
      (Pos.to_nat (mcel_len (mcel_scan s)) <= length s)%nat ->
      white_only (drop (Pos.to_nat (mcel_len (mcel_scan s))) s) ->
      white_only s.

(** A blank line: nothing before its newline, or nothing but white
    space when analyze_hunk skips white space. *)
Definition blank_line (text : line) : Prop :=
  if skip_white_space then white_only (content text) else content text = [].

(** A line that leaves [trivial] set. *)
Definition ignorable_line (text : line) : Prop :=
  (ignore_blank_lines opts = true /\ blank_line text)
  \/ (ignore_regexp_fastmap opts = true
      /\ 0 <= re_search (content text) 0 (Z.of_nat (line_end text))).

Lemma line_end_le text : (line_end text <= length text)%nat.
Proof.
  unfold line_end. destruct (last text) as [c|]; [|lia].
  destruct (Ascii.eqb c newline); lia.
Qed.

Lemma line_end_ge text : (length text - 1 <= line_end text)%nat.
Proof.
  unfold line_end. destruct (last text) as [c|] eqn:Hl.
  - destruct (Ascii.eqb c newline); lia.
  - apply last_None in Hl. subst text. simpl. lia.
Qed.

Lemma length_content text : length (content text) = line_end text.
Proof.
  unfold content. apply length_take_le, line_end_le.
Qed.

Lemma byte_at_line_end text : byte_at text (line_end text) = newline.
Proof.
  unfold byte_at, line_end.
  destruct (last text) as [c|] eqn:Hl.
  - destruct (Ascii.eqb c newline) eqn:Hc.
    + apply Ascii.eqb_eq in Hc. subst c.
      rewrite last_lookup in Hl.
      rewrite Nat.sub_1_r, Hl. reflexivity.
    + rewrite lookup_ge_None_2 by lia. reflexivity.
  - apply last_None in Hl. subst text. reflexivity.
Qed.

Lemma byte_at_past text p : (length text <= p)%nat -> byte_at text p = newline.
Proof.
  intros Hp. unfold byte_at. rewrite lookup_ge_None_2 by lia. reflexivity.
Qed.

Lemma byte_at_content text p :
  (p < line_end text)%nat ->
  head (drop p (content text)) = Some (byte_at text p).
Proof.
  intros Hp. pose proof (line_end_le text) as Hle.
  rewrite head_lookup, lookup_drop, Nat.add_0_r.
  unfold content. rewrite lookup_take_lt by exact Hp.
  unfold byte_at.
  destruct (text !! p) as [c|] eqn:Hc; [reflexivity|].
  apply lookup_ge_None in Hc. lia.
Qed.

(** Once [p] is past the newline the loop stops where it is. *)
Lemma skip_loop_past fuel text p :
  (line_end text < p)%nat -> skip_loop fuel text p = p.
Proof.
  intros Hp. destruct fuel as [|fuel]; [reflexivity|]. simpl.
  rewrite byte_at_past; [reflexivity|].
  pose proof (line_end_ge text). lia.
Qed.

Lemma skip_loop_white fuel text :
  forall p,
    (p <= line_end text)%nat ->
    (line_end text - p < fuel)%nat ->
    skip_loop fuel text p = line_end text
    <-> white_only (drop p (content text)).
Proof.
  induction fuel as [|fuel IH]; intros p Hp Hfuel; [lia|].
  simpl. destruct (Nat.eq_dec p (line_end text)) as [->|Hne].
  - rewrite byte_at_line_end. simpl.
    rewrite drop_ge by (rewrite length_content; lia).
    split; [intros _; constructor|reflexivity].
  - assert (Hlt : (p < line_end text)%nat) by lia.
    pose proof (byte_at_content text p Hlt) as Hhd.
    set (s := drop p (content text)) in *.
    assert (Hs : s <> []) by (intros E; rewrite E in Hhd; discriminate).
    assert (Hlen : length s = (line_end text - p)%nat)
      by (unfold s; rewrite length_drop, length_content; reflexivity).
    destruct (Ascii.eqb (byte_at text p) newline) eqn:Hnl.
    + apply Ascii.eqb_eq in Hnl. split; [lia|].
      intros Hw. inversion Hw as [E|s' _ Hh _ _ _ E]; [congruence|].
      rewrite Hhd, Hnl in Hh. congruence.
    + apply Ascii.eqb_neq in Hnl.
      destruct (c32isspace (mcel_ch (mcel_scan s))) eqn:Hsp; simpl.
      * set (n := Pos.to_nat (mcel_len (mcel_scan s))) in *.
        assert (Hn : (0 < n)%nat) by (unfold n; lia).
        destruct (le_lt_dec n (length s)) as [Hfit|Hover].
        -- rewrite IH by lia.
           assert (Hdrop : drop (p + n) (content text) = drop n s)
             by (unfold s; rewrite drop_drop; reflexivity).
           rewrite Hdrop. split.
           ++ intros Hw. apply white_cons; try assumption.
              rewrite Hhd. congruence.
           ++ intros Hw. inversion Hw as [E|s' _ _ _ _ Hrest E]; [congruence|].
              exact Hrest.
        -- rewrite skip_loop_past by lia. split; [lia|].
           intros Hw. inversion Hw as [E|s' _ _ _ Hfit _ E]; [congruence|].
           fold n in Hfit. lia.
      * split.
        -- destruct (negb skip_leading_white_space); lia.
        -- intros Hw. inversion Hw as [E|s' _ _ Hsp' _ _ E]; [congruence|].
           congruence.
Qed.

(** The fuel [skipped] gives the loop is enough: more fuel does not
    change the result. *)
Lemma skip_loop_fuel fuel1 text :
  forall fuel2 p,
    (length text - p < fuel1)%nat -> (length text - p < fuel2)%nat ->
    skip_loop fuel1 text p = skip_loop fuel2 text p.
Proof.
  induction fuel1 as [|fuel1 IH]; intros fuel2 p H1 H2; [lia|].
  destruct fuel2 as [|fuel2]; [lia|]. cbn [skip_loop].
  destruct (Ascii.eqb (byte_at text p) newline) eqn:Hnl; [reflexivity|].
  destruct (negb (c32isspace _)); [reflexivity|].
  assert (Hp : (p < length text)%nat).
  { destruct (le_lt_dec (length text) p) as [Hge|]; [|assumption].
    rewrite (byte_at_past text p Hge), Ascii.eqb_refl in Hnl. discriminate. }
  apply IH; lia.
Qed.

Lemma skipped_blank text :
  skipped text = line_end text <-> blank_line text.
Proof.
  unfold skipped, blank_line. destruct skip_white_space.
  - rewrite skip_loop_white by (pose proof (line_end_le text); lia).
    rewrite drop_0. reflexivity.
  - split.
    + intros E. unfold content. rewrite <- E. reflexivity.
    + intros E. rewrite <- length_content, E. reflexivity.
Qed.

Lemma skip_white_space_needs_blank :
  skip_white_space = true -> ignore_blank_lines opts = true.
Proof.
  unfold skip_white_space. intros H. apply andb_prop in H.
  destruct H as [H _]. exact H.
Qed.

(** The test made on each line leaves [trivial] set exactly for the
    ignorable lines. *)
Lemma line_not_trivial_iff text :
  line_not_trivial text = false <-> ignorable_line text.
Proof.
  unfold line_not_trivial, ignorable_line, trivial_length.
  rewrite andb_false_iff, negb_false_iff, Z.eqb_eq, orb_false_iff,
    negb_false_iff, Z.ltb_ge.
  rewrite <- skipped_blank.
  destruct (ignore_blank_lines opts) eqn:Hb; simpl.
  - split; (intros [H|H]; [left|right; exact H]).
    + split; [reflexivity|lia].
    + lia.
  - assert (Hsk : skipped text = 0%nat).
    { unfold skipped. destruct skip_white_space eqn:Hs; [|reflexivity].
      apply skip_white_space_needs_blank in Hs. congruence. }
    rewrite Hsk. split; (intros [H|H]; [|right; exact H]).
    + lia.
    + destruct H. discriminate.
Qed.

(** *** The lines of a hunk *)

(** The lines [first, first + 1, ...], [count] of them. *)
Definition lines_of (lb : lin -> line) (first count : lin) : list line :=
  lb <$> seqZ first count.

(** The lines a change deletes from file 0 and inserts from file 1. *)
Definition change_lines (c : change) : list line :=
  lines_of (linbuf file0) (line0 c) (deleted c)
  ++ lines_of (linbuf file1) (line1 c) (inserted c).

Definition hunk_lines (cs : list change) : list line :=
  flat_map change_lines cs.

Definition total_deleted (cs : list change) : Z :=
  foldr (fun c n => deleted c + n) 0 cs.

Definition total_inserted (cs : list change) : Z :=
  foldr (fun c n => inserted c + n) 0 cs.

(** Changes as the engine produces them: line indices and counts are
    not negative and stay in the range of [lin]. *)
Definition change_wf (c : change) : Prop :=
  0 <= line0 c /\ 0 <= deleted c /\ line0 c + deleted c <= LIN_MAX
  /\ 0 <= line1 c /\ 0 <= inserted c /\ line1 c + inserted c <= LIN_MAX.

Definition hunk_wf (cs : list change) : Prop :=
  Forall change_wf cs
  /\ total_deleted cs <= LIN_MAX /\ total_inserted cs <= LIN_MAX.

Definition ignorableb (text : line) : bool := negb (line_not_trivial text).

Lemma LIN_MIN_neg : LIN_MIN <= -1.
Proof using lin_bits_pos.
  unfold LIN_MIN.
  assert (0 < 2 ^ (lin_bits - 1)) by (apply Z.pow_pos_nonneg; lia). lia.
Qed.

Lemma lin_add_small a b :
  LIN_MIN <= a + b <= LIN_MAX -> lin_add a b = a + b.
Proof using lin_bits_pos. intros H. apply lin_wrap_small, H. Qed.

Lemma lin_sub_small a b :
  LIN_MIN <= a - b <= LIN_MAX -> lin_sub a b = a - b.
Proof using lin_bits_pos. intros H. apply lin_wrap_small, H. Qed.

(** The loop over the lines [i], ..., [i + n - 1] tests each of them
    until one is not ignorable; any fuel from [n] on is enough. *)
Lemma scan_lines_spec lb n :
  forall fuel i trivial,
    (n <= fuel)%nat ->
    0 <= i -> i + Z.of_nat n <= LIN_MAX ->
    scan_lines fuel lb i (i + Z.of_nat n - 1) trivial
    = trivial && forallb ignorableb (lines_of lb i (Z.of_nat n)).
Proof using lin_bits_pos.
  pose proof LIN_MIN_neg as Hmin.
  induction n as [|n IH]; intros fuel i trivial Hfuel Hi Hmax.
  - cbn [lines_of seqZ forallb]. unfold lines_of. rewrite seqZ_nil by lia.
    cbn [fmap list_fmap forallb]. rewrite andb_true_r.
    destruct fuel as [|fuel]; [reflexivity|]. cbn [scan_lines].
    assert (Hle : (i <=? i + Z.of_nat 0 - 1) = false) by (apply Z.leb_gt; lia).
    rewrite Hle. reflexivity.
  - destruct fuel as [|fuel]; [lia|]. cbn [scan_lines].
    assert (Hle : (i <=? i + Z.of_nat (S n) - 1) = true)
      by (apply Z.leb_le; lia).
    rewrite Hle. destruct trivial; simpl; [|reflexivity].
    rewrite lin_add_small by lia.
    replace (i + Z.of_nat (S n) - 1) with (i + 1 + Z.of_nat n - 1) by lia.
    rewrite IH by lia.
    unfold lines_of. rewrite (seqZ_cons i) by lia.
    replace (Z.pred (Z.of_nat (S n))) with (Z.of_nat n) by lia.
    replace (Z.succ i) with (i + 1) by lia.
    simpl. unfold ignorableb at 2.
    destruct (line_not_trivial (lb i)); reflexivity.
Qed.

Lemma analyze_change_spec c st :
  change_wf c ->
  0 <= hs_show_from st -> hs_show_from st + deleted c <= LIN_MAX ->
  0 <= hs_show_to st -> hs_show_to st + inserted c <= LIN_MAX ->
  analyze_change c st
  = mk_hunk_state
      (hs_trivial st && forallb ignorableb (change_lines c))
      (hs_show_from st + deleted c) (hs_show_to st + inserted c)
      (line0 c + deleted c - 1) (line1 c + inserted c - 1).
Proof using lin_bits_pos.
  pose proof LIN_MIN_neg as Hmin.
  intros (H0 & Hd & Hd' & H1 & Hi & Hi') Hsf Hsf' Hst Hst'.
  unfold analyze_change.
  rewrite !(lin_add_small (line0 c)), !(lin_add_small (line1 c)) by lia.
  rewrite !lin_sub_small by lia.
  rewrite !(lin_add_small (hs_show_from st)),
    !(lin_add_small (hs_show_to st)) by lia.
  f_equal.
  replace (Z.to_nat (line0 c + deleted c - 1 - line0 c + 1))
    with (Z.to_nat (deleted c)) by (f_equal; lia).
  replace (Z.to_nat (line1 c + inserted c - 1 - line1 c + 1))
    with (Z.to_nat (inserted c)) by (f_equal; lia).
  replace (line0 c + deleted c - 1)
    with (line0 c + Z.of_nat (Z.to_nat (deleted c)) - 1) by lia.
  replace (line1 c + inserted c - 1)
    with (line1 c + Z.of_nat (Z.to_nat (inserted c)) - 1) by lia.
  rewrite !scan_lines_spec by lia.
  rewrite !Z2Nat.id by lia.
  unfold change_lines. rewrite forallb_app, andb_assoc. reflexivity.
Qed.

Lemma total_deleted_nonneg cs : Forall change_wf cs -> 0 <= total_deleted cs.
Proof.
  induction 1 as [|c cs Hc _ IH]; simpl; [lia|].
  destruct Hc as (_ & ? & _). lia.
Qed.

Lemma total_inserted_nonneg cs : Forall change_wf cs -> 0 <= total_inserted cs.
Proof.
  induction 1 as [|c cs Hc _ IH]; simpl; [lia|].
  destruct Hc as (_ & _ & _ & _ & ? & _). lia.
Qed.

Lemma analyze_chain_spec rest :
  forall next st,
    Forall change_wf (next :: rest) ->
    0 <= hs_show_from st ->
    hs_show_from st + total_deleted (next :: rest) <= LIN_MAX ->
    0 <= hs_show_to st ->
    hs_show_to st + total_inserted (next :: rest) <= LIN_MAX ->
    let st' := analyze_chain next rest st in
    hs_trivial st'
    = hs_trivial st && forallb ignorableb (hunk_lines (next :: rest))
    /\ hs_show_from st' = hs_show_from st + total_deleted (next :: rest)
    /\ hs_show_to st' = hs_show_to st + total_inserted (next :: rest).
Proof using lin_bits_pos.
  induction rest as [|next' rest IH]; intros next st Hwf Hf Hf' Ht Ht'.
  - inversion Hwf as [|? ? Hc _]; subst.
    cbn [analyze_chain total_deleted total_inserted foldr] in *. cbv zeta.
    rewrite analyze_change_spec by (try assumption; lia).
    cbn [hs_trivial hs_show_from hs_show_to hunk_lines flat_map].
    rewrite app_nil_r. repeat split; lia.
  - inversion Hwf as [|? ? Hc Hrest]; subst.
    pose proof (total_deleted_nonneg _ Hrest) as Hdn.
    pose proof (total_inserted_nonneg _ Hrest) as Hin.
    destruct Hc as (H0 & Hd & Hd' & H1 & Hi & Hi').
    assert (Hc : change_wf next) by (repeat split; assumption).
    cbn [analyze_chain]. cbv zeta.
    change (total_deleted (next :: next' :: rest))
      with (deleted next + total_deleted (next' :: rest)) in *.
    change (total_inserted (next :: next' :: rest))
      with (inserted next + total_inserted (next' :: rest)) in *.
    rewrite analyze_change_spec by (try assumption; lia).
    specialize (IH next'
      (mk_hunk_state
         (hs_trivial st && forallb ignorableb (change_lines next))
         (hs_show_from st + deleted next) (hs_show_to st + inserted next)
         (line0 next + deleted next - 1) (line1 next + inserted next - 1))
      Hrest).
    cbn [hs_trivial hs_show_from hs_show_to] in IH.
    destruct IH as (IHt & IHf & IHi); try lia.
    rewrite IHt, IHf, IHi.
    change (hunk_lines (next :: next' :: rest))
      with (change_lines next ++ hunk_lines (next' :: rest)).
    rewrite forallb_app, andb_assoc. repeat split; lia.
Qed.

Lemma length_hunk_lines cs :
  Forall change_wf cs ->
  Z.of_nat (length (hunk_lines cs)) = total_deleted cs + total_inserted cs.
Proof.
  induction 1 as [|c cs Hc _ IH]; [reflexivity|].
  destruct Hc as (_ & Hd & _ & _ & Hi & _).
  change (hunk_lines (c :: cs)) with (change_lines c ++ hunk_lines cs).
  unfold change_lines, lines_of.
  rewrite !length_app, !length_fmap, !length_seqZ. simpl. lia.
Qed.

Lemma forallb_Forall_ignorable ls :
  forallb ignorableb ls = true <-> Forall ignorable_line ls.
Proof.
  rewrite forallb_forall, List.Forall_forall.
  split; intros H x Hx; specialize (H x Hx).
  - apply line_not_trivial_iff. apply negb_true_iff, H.
  - apply negb_true_iff, line_not_trivial_iff, H.
Qed.

(** Without an ignore rule no line is ignorable. *)
Lemma no_rule_no_ignorable text :
  ignore_blank_lines opts || ignore_regexp_fastmap opts = false ->
  ~ ignorable_line text.
Proof.
  intros Hno. apply orb_false_elim in Hno as [Hb Hr].
  intros [[H _]|[H _]]; congruence.
Qed.

(** The value analyze_hunk returns, in terms of the lines of the hunk. *)
Lemma analyze_hunk_changes hunk rest :
  hunk_wf (hunk :: rest) ->
  hr_changes (analyze_hunk hunk rest)
  = if forallb ignorableb (hunk_lines (hunk :: rest)) then UNCHANGED
    else changes_or
           (if total_deleted (hunk :: rest) =? 0 then UNCHANGED else OLD)
           (if total_inserted (hunk :: rest) =? 0 then UNCHANGED else NEW).
Proof using lin_bits_pos.
  intros (Hwf & Hd & Hi).
  pose proof (total_deleted_nonneg _ Hwf) as Hdn.
  pose proof (total_inserted_nonneg _ Hwf) as Hin.
  unfold analyze_hunk. cbn [hr_changes].
  edestruct (analyze_chain_spec rest hunk) as (Ht & Hf & Hto);
    [exact Hwf|..]; cycle 4.
  - rewrite Ht, Hf, Hto. cbn [hs_trivial hs_show_from hs_show_to].
    rewrite !Z.add_0_l.
    destruct (ignore_blank_lines opts || ignore_regexp_fastmap opts) eqn:Hrule;
      cbn [andb]; [reflexivity|].
    destruct (forallb ignorableb (hunk_lines (hunk :: rest))) eqn:Hall;
      [|reflexivity].
    apply forallb_Forall_ignorable in Hall.
    destruct (hunk_lines (hunk :: rest)) as [|l ls] eqn:Hlines.
    + pose proof (length_hunk_lines _ Hwf) as Hlen.
      rewrite Hlines in Hlen. cbn [length] in Hlen.
      replace (total_deleted (hunk :: rest)) with 0 by lia.
      replace (total_inserted (hunk :: rest)) with 0 by lia.
      reflexivity.
    + inversion Hall as [|? ? Hl _]; subst.
      exfalso. exact (no_rule_no_ignorable l Hrule Hl).
  - cbn [hs_show_from]; lia.
  - cbn [hs_show_from]; lia.
  - cbn [hs_show_to]; lia.
  - cbn [hs_show_to]; lia.
Qed.

(** C1.  analyze_hunk returns UNCHANGED when every line the hunk deletes
    or inserts is ignorable; otherwise it returns OLD when the hunk only
    deletes, NEW when it only inserts and CHANGED when it does both. *)
Theorem analyze_hunk_classifies (hunk : change) (rest : list change) :
  hunk_wf (hunk :: rest) ->
  let cs := hunk :: rest in
  let r := hr_changes (analyze_hunk hunk rest) in
  (Forall ignorable_line (hunk_lines cs) -> r = UNCHANGED)
  /\ (~ Forall ignorable_line (hunk_lines cs) ->
        (0 < total_deleted cs -> total_inserted cs = 0 -> r = OLD)
        /\ (total_deleted cs = 0 -> 0 < total_inserted cs -> r = NEW)
        /\ (0 < total_deleted cs -> 0 < total_inserted cs -> r = CHANGED)).
Proof using lin_bits_pos.
  intros Hwf cs r. subst r. rewrite (analyze_hunk_changes _ _ Hwf).
  fold cs. split.
  - intros Hall. apply forallb_Forall_ignorable in Hall.
    rewrite Hall. reflexivity.
  - intros Hnot.
    destruct (forallb ignorableb (hunk_lines cs)) eqn:Hall.
    + apply forallb_Forall_ignorable in Hall. contradiction.
    + repeat split; intros Hd Hi.
      * rewrite Hi. destruct (Z.eqb_spec (total_deleted cs) 0); [lia|].
        reflexivity.
      * rewrite Hd. destruct (Z.eqb_spec (total_inserted cs) 0); [lia|].
        reflexivity.
      * destruct (Z.eqb_spec (total_deleted cs) 0); [lia|].
        destruct (Z.eqb_spec (total_inserted cs) 0); [lia|].
        reflexivity.
Qed.

(** *** What becomes of an UNCHANGED hunk *)

(** Modelled from the spec: the Diff Verdict of section 3 of the
    specification. *)
Inductive verdict : Type := identical | different | trouble.

(** Modelled from the spec: the callers of analyze_hunk (the renderers
    and the comparison driver) are not among the sources.  Section 4.4
    of the specification: a hunk marked UNCHANGED is dropped from the
    output and from the verdict that the files differ.  A script is the
    list of its hunks, each a first change and the rest of its chain. *)
Definition hunk_shown (h : change * list change) : bool :=
  match hr_changes (analyze_hunk (fst h) (snd h)) with
  | UNCHANGED => false
  | _ => true
  end.

(** Modelled from the spec: the hunks that are left for the output. *)
Definition shown_hunks (script : list (change * list change))
    : list (change * list change) :=
  List.filter hunk_shown script.

(** Modelled from the spec: the files are reported as identical when
    no hunk is left. *)
Definition script_verdict (script : list (change * list change)) : verdict :=
  match shown_hunks script with
  | [] => identical
  | _ :: _ => different
  end.

(** C2.  With ignore-blank-lines, a hunk whose deleted and inserted
    lines are all blank is classified UNCHANGED; it is left out of the
    hunks shown, and the verdict is [identical] when no other hunk of
    the script is shown. *)
Theorem blank_hunk_unchanged (hunk : change) (rest : list change)
    (before after : list (change * list change)) :
  ignore_blank_lines opts = true ->
  hunk_wf (hunk :: rest) ->
  Forall blank_line (hunk_lines (hunk :: rest)) ->
  hr_changes (analyze_hunk hunk rest) = UNCHANGED
  /\ shown_hunks (before ++ (hunk, rest) :: after)
     = shown_hunks before ++ shown_hunks after
  /\ (shown_hunks before = [] -> shown_hunks after = [] ->
      script_verdict (before ++ (hunk, rest) :: after) = identical).
Proof using lin_bits_pos.
  intros Hb Hwf Hblank.
  assert (Hu : hr_changes (analyze_hunk hunk rest) = UNCHANGED).
  { rewrite (analyze_hunk_changes _ _ Hwf).
    assert (Hall : forallb ignorableb (hunk_lines (hunk :: rest)) = true).
    { apply forallb_Forall_ignorable.
      eapply List.Forall_impl; [|exact Hblank].
      intros l Hl. left. split; assumption. }
    rewrite Hall. reflexivity. }
  assert (Hs : shown_hunks (before ++ (hunk, rest) :: after)
               = shown_hunks before ++ shown_hunks after).
  { unfold shown_hunks. rewrite List.filter_app. cbn [List.filter].
    unfold hunk_shown at 2. cbn [fst snd]. rewrite Hu. reflexivity. }
  repeat split; [exact Hu|exact Hs|].
  intros H1 H2. unfold script_verdict. rewrite Hs, H1, H2. reflexivity.
Qed.

(** C3 (as the code has it).  Under ignore-matching-regexp a line is
    ignorable exactly when [re_search] finds a match in the whole text
    of the line before its newline, white space included, or when
    ignore-blank-lines is active as well and the line is blank. *)
Theorem regexp_ignorable_line (text : line) :
  ignore_regexp_fastmap opts = true ->
  line_not_trivial text = false
  <-> 0 <= re_search (content text) 0 (Z.of_nat (length (content text)))
      \/ (ignore_blank_lines opts = true /\ blank_line text).
Proof.
  intros Hre. rewrite line_not_trivial_iff. unfold ignorable_line.
  rewrite length_content. split.
  - intros [H|[_ H]]; [right; exact H|left; exact H].
  - intros [H|H]; [right; split; assumption|left; exact H].
Qed.

(** The reading of the ignore-matching-regexp rule under which the
    pattern is searched in what is left of the line after the white
    space has been skipped. *)
Definition regexp_covers_rest (text : line) : Prop :=
  let rest := drop (skipped text) (content text) in
  0 <= re_search rest 0 (Z.of_nat (length rest)).

(** *** The ranges analyze_hunk reports *)

Lemma analyze_change_last c st :
  change_wf c ->
  hs_l0 (analyze_change c st) = line0 c + deleted c - 1
  /\ hs_l1 (analyze_change c st) = line1 c + inserted c - 1.
Proof using lin_bits_pos.
  pose proof LIN_MIN_neg as Hmin.
  intros (H0 & Hd & Hd' & H1 & Hi & Hi').
  unfold analyze_change. cbn [hs_l0 hs_l1].
  rewrite !(lin_add_small (line0 c)), !(lin_add_small (line1 c)) by lia.
  rewrite !lin_sub_small by lia. split; reflexivity.
Qed.

Lemma analyze_chain_last rest :
  forall next st,
    Forall change_wf (next :: rest) ->
    let final := default next (last rest) in
    hs_l0 (analyze_chain next rest st) = line0 final + deleted final - 1
    /\ hs_l1 (analyze_chain next rest st) = line1 final + inserted final - 1.
Proof using lin_bits_pos.
  induction rest as [|next' rest IH]; intros next st Hwf.
  - inversion Hwf as [|? ? Hc _]; subst. cbn [analyze_chain last default].
    apply analyze_change_last, Hc.
  - inversion Hwf as [|? ? _ Hrest]; subst. cbn [analyze_chain].
    rewrite last_cons. cbv zeta.
    specialize (IH next' (analyze_change next st) Hrest). cbv zeta in IH.
    destruct (last rest); exact IH.
Qed.

(** X2.  analyze_hunk reports, for each file, the range from the first
    line of the first change of the chain to the last line of its last
    change.  For a hunk of one change that deletes (inserts) no line the
    range of file 0 (file 1) is empty: its first line is the one after
    its last. *)
Theorem analyze_hunk_ranges (hunk : change) (rest : list change) :
  Forall change_wf (hunk :: rest) ->
  let r := analyze_hunk hunk rest in
  let final := default hunk (last rest) in
  hr_first0 r = line0 hunk
  /\ hr_last0 r = line0 final + deleted final - 1
  /\ hr_first1 r = line1 hunk
  /\ hr_last1 r = line1 final + inserted final - 1
  /\ (rest = [] -> deleted hunk = 0 -> hr_first0 r = hr_last0 r + 1)
  /\ (rest = [] -> inserted hunk = 0 -> hr_first1 r = hr_last1 r + 1).
Proof using lin_bits_pos.
  intros Hwf r final. subst r. unfold analyze_hunk.
  cbn [hr_first0 hr_last0 hr_first1 hr_last1].
  destruct (analyze_chain_last rest hunk
              (mk_hunk_state
                 (ignore_blank_lines opts || ignore_regexp_fastmap opts)
                 0 0 0 0) Hwf) as [H0 H1].
  fold final in H0, H1. rewrite H0, H1.
  split; [reflexivity|]. split; [reflexivity|].
  split; [reflexivity|]. split; [reflexivity|].
  split; intros -> Hz; subst final; cbn [last default]; lia.
Qed.

(** X3.  Without an ignore option (neither ignore-blank-lines nor a
    regular expression) analyze_hunk looks at the counts only: the
    result is OLD, NEW or CHANGED by the lines deleted and inserted, and
    it is UNCHANGED only for a hunk that deletes and inserts nothing. *)
Theorem analyze_hunk_without_rule (hunk : change) (rest : list change) :
  ignore_blank_lines opts = false ->
  ignore_regexp_fastmap opts = false ->
  hunk_wf (hunk :: rest) ->
  let cs := hunk :: rest in
  let r := hr_changes (analyze_hunk hunk rest) in
  r = changes_or (if total_deleted cs =? 0 then UNCHANGED else OLD)
                 (if total_inserted cs =? 0 then UNCHANGED else NEW)
  /\ (r = UNCHANGED <-> total_deleted cs = 0 /\ total_inserted cs = 0).
Proof using lin_bits_pos.
  intros Hb Hr Hwf cs r.
  assert (E : r = changes_or
                    (if total_deleted cs =? 0 then UNCHANGED else OLD)
                    (if total_inserted cs =? 0 then UNCHANGED else NEW)).
  { subst r. rewrite (analyze_hunk_changes _ _ Hwf). fold cs.
    destruct (forallb ignorableb (hunk_lines cs)) eqn:Hall; [|reflexivity].
    destruct Hwf as (Hwf & _ & _).
    pose proof (length_hunk_lines _ Hwf) as Hlen. fold cs in Hlen.
    pose proof (total_deleted_nonneg _ Hwf) as Hdn.
    pose proof (total_inserted_nonneg _ Hwf) as Hin.
    fold cs in Hdn, Hin.
    destruct (hunk_lines cs) as [|l ls].
    - cbn [length] in Hlen.
      replace (total_deleted cs) with 0 by lia.
      replace (total_inserted cs) with 0 by lia. reflexivity.
    - apply forallb_Forall_ignorable in Hall.
      inversion Hall as [|? ? Hl _]; subst. exfalso.
      apply (no_rule_no_ignorable l); [|exact Hl].
      rewrite Hb, Hr. reflexivity. }
  split; [exact E|]. rewrite E.
  destruct (Z.eqb_spec (total_deleted cs) 0) as [Hd|Hd];
    destruct (Z.eqb_spec (total_inserted cs) 0) as [Hi|Hi];
    split; try (intros H; discriminate H); try (intros [? ?]; lia);
    split; assumption || reflexivity.
Qed.

End AnalyzeHunk.

(** *** The white space options and analyze_hunk *)

Section WhiteSpaceLevels.

Variable o1 o2 : options.

Hypothesis same_blank : ignore_blank_lines o1 = ignore_blank_lines o2.
Hypothesis same_regexp : ignore_regexp_fastmap o1 = ignore_regexp_fastmap o2.
Hypothesis same_trailing :
  (IGNORE_TRAILING_SPACE <=? ignore_white_space o1)
  = (IGNORE_TRAILING_SPACE <=? ignore_white_space o2).

Lemma ignorable_line_levels text :
  ignorable_line o1 text <-> ignorable_line o2 text.
Proof using same_blank same_regexp same_trailing.
  unfold ignorable_line, blank_line, skip_white_space.
  rewrite same_blank, same_regexp, same_trailing. reflexivity.
Qed.

Lemma line_not_trivial_levels text :
  line_not_trivial o1 text = line_not_trivial o2 text.
Proof using same_blank same_regexp same_trailing.
  pose proof (line_not_trivial_iff o1 text) as H1.
  pose proof (line_not_trivial_iff o2 text) as H2.
  pose proof (ignorable_line_levels text) as H.
  destruct (line_not_trivial o1 text), (line_not_trivial o2 text);
    try reflexivity.
  - assert (E : false = false) by reflexivity.
    apply H2, H, H1 in E. discriminate E.
  - assert (E : false = false) by reflexivity.
    apply H1, H, H2 in E. discriminate E.
Qed.

Lemma scan_lines_levels fuel lb :
  forall i last trivial,
    scan_lines o1 fuel lb i last trivial = scan_lines o2 fuel lb i last trivial.
Proof using same_blank same_regexp same_trailing.
  induction fuel as [|fuel IH]; intros i last trivial; [reflexivity|].
  cbn [scan_lines]. rewrite line_not_trivial_levels, IH. reflexivity.
Qed.

Lemma analyze_chain_levels file0 file1 rest :
  forall next st,
    analyze_chain o1 file0 file1 next rest st
    = analyze_chain o2 file0 file1 next rest st.
Proof using same_blank same_regexp same_trailing.
  assert (Hc : forall next st,
             analyze_change o1 file0 file1 next st
             = analyze_change o2 file0 file1 next st).
  { intros next st. unfold analyze_change.
    rewrite !scan_lines_levels. reflexivity. }
  induction rest as [|next' rest IH]; intros next st; cbn [analyze_chain].
  - apply Hc.
  - rewrite Hc. apply IH.
Qed.

End WhiteSpaceLevels.

(** X4.  analyze_hunk reads [ignore_white_space] through one test only,
    whether it is at least IGNORE_TRAILING_SPACE.  Two settings that
    agree on this test (and on the other options) give the same result
    for every hunk; in particular, once trailing white space is ignored,
    the stronger white space options ignore no further line. *)
Theorem analyze_hunk_white_space_levels (o1 o2 : options)
    (file0 file1 : file_data) (hunk : change) (rest : list change) :
  ignore_blank_lines o1 = ignore_blank_lines o2 ->
  ignore_regexp_fastmap o1 = ignore_regexp_fastmap o2 ->
  (IGNORE_TRAILING_SPACE <=? ignore_white_space o1)
  = (IGNORE_TRAILING_SPACE <=? ignore_white_space o2) ->
  analyze_hunk o1 file0 file1 hunk rest = analyze_hunk o2 file0 file1 hunk rest.
Proof.
  intros Hb Hr Ht. unfold analyze_hunk.
  rewrite (analyze_chain_levels o1 o2 Hb Hr Ht), Hb, Hr. reflexivity.
Qed.


(** ** Colors *)

Definition color_context_eqb (a b : color_context) : bool :=
  match a, b with
  | HEADER_CONTEXT, HEADER_CONTEXT | ADD_CONTEXT, ADD_CONTEXT
  | DELETE_CONTEXT, DELETE_CONTEXT | RESET_CONTEXT, RESET_CONTEXT
  | LINE_NUMBER_CONTEXT, LINE_NUMBER_CONTEXT => true
  | _, _ => false
  end.

Inductive indicator_no : Type :=
  | C_LEFT | C_RIGHT | C_END | C_RESET | C_HEADER | C_ADD | C_DELETE | C_LINE.

Definition indicator_index (i : indicator_no) : nat :=
  match i with
  | C_LEFT => 0 | C_RIGHT => 1 | C_END => 2 | C_RESET => 3
  | C_HEADER => 4 | C_ADD => 5 | C_DELETE => 6 | C_LINE => 7
  end%nat.

(** The bytes a [bin_str] designates. *)
Definition bin_str_bytes (w : world) (b : bin_str) : list ascii :=
  match bs_string b with
  | Null => []
  | Literal s => take (bs_len b) s
  | InPalette off => take (bs_len b) (drop off (palette_mem w))
  end.

Definition indicator (w : world) (i : indicator_no) : bin_str :=
  nth (indicator_index i) (color_indicator w) (mk_bin_str 0 Null).

Definition put_indicator (ind : bin_str) (w : world) : world :=
  snd (fwrite (bin_str_bytes w ind) w).

Definition set_last_context (cc : color_context) (w : world) : world :=
  mk_world (trace w) (room w) (colors_enabled w) cc (color_indicator w)
           (palette_mem w) (color_palette w) (stderr_log w).

Definition set_color_context (cc : color_context) (w : world) : world :=
  let w := if negb (color_context_eqb cc RESET_CONTEXT)
           then process_signals w else w in
  if colors_enabled w && negb (color_context_eqb (last_context w) cc)
  then
    let w := put_indicator (indicator w C_LEFT) w in
    let w :=
      match cc with
      | HEADER_CONTEXT => put_indicator (indicator w C_HEADER) w
      | LINE_NUMBER_CONTEXT => put_indicator (indicator w C_LINE) w
      | ADD_CONTEXT => put_indicator (indicator w C_ADD) w
      | DELETE_CONTEXT => put_indicator (indicator w C_DELETE) w
      | RESET_CONTEXT => put_indicator (indicator w C_RESET) w
      end in
    let w := put_indicator (indicator w C_RIGHT) w in
    set_last_context cc w
  else w.

(** ** Printing one line *)

Section PrintLine.

Variable opts : options.

Definition MAX_CHUNK : nat := 1024.

(** The format given to [fprintf] with the line flag. *)
Inductive flag_fmt : Type :=
  | FMT_S_TAB       (* "%s\t" *)
  | FMT_S_SPACE     (* "%s " *)
  | FMT_S.          (* "%s" *)

Definition format_flag (f : flag_fmt) (flag : list ascii) : list ascii :=
  match f with
  | FMT_S_TAB => flag ++ ["009"%char]
  | FMT_S_SPACE => flag ++ [" "%char]
  | FMT_S => flag
  end.

(** The loop of output_1_line without -t.  [base] holds the bytes from
    [base] to [limit]; the fuel is their number. *)
Fixpoint write_chunks (fuel : nat) (base : list ascii) (w : world) : world :=
  match fuel with
  | O => w
  | S fuel' =>
      let left := length base in
      if Nat.eqb left 0 then w
      else
        let to_write := Nat.min left MAX_CHUNK in
        let '(n, w) := fwrite (take to_write base) w in
        let w := process_signals w in
        if Nat.ltb n to_write then w
        else write_chunks fuel' (drop n base) w
  end.

(** The variables of the loop of output_1_line with -t; [ts_t] holds the
    bytes from [t] to [limit].  [tab] and [column] have type intmax_t
    and never exceed twice the number of bytes printed. *)
Record tab_state : Type := mk_tab_state {
  ts_t : list ascii;
  ts_tab : Z;
  ts_column : Z;
  ts_counter : Z;        (* counter_proc_signals *)
  ts_world : world
}.

(** What a turn of the loop ends in: the next turn, or [return]. *)
Inductive turn : Type :=
  | Next (st : tab_state)
  | Return (w : world).

(** [do if (putc (' ', out) < 0) return; while (++column < tab_size);]
    The result is [None] after a failed [putc]. *)
Fixpoint put_spaces (fuel : nat) (column tab_size : Z) (w : world)
    : option Z * world :=
  match fuel with
  | O => (Some column, w)
  | S fuel' =>
      let '(ok, w) := putc " "%char w in
      if negb ok then (None, w)
      else
        let column := column + 1 in
        if column <? tab_size then put_spaces fuel' column tab_size w
        else (Some column, w)
  end.

Definition spaces_fuel (column tab_size : Z) : nat :=
  Z.to_nat (Z.max 1 (tab_size - column)).

(** The [switch] of the loop body, entered with the counter and the
    stream as the test of the counter left them. *)
Definition tab_switch (flag_format : option flag_fmt)
    (line_flag : option (list ascii)) (c : ascii) (t' : list ascii)
    (tab column counter : Z) (w : world) : turn :=
  let tab_size := tabsize opts in
  if Ascii.eqb c "009"%char then
    match put_spaces (spaces_fuel column tab_size) column tab_size w with
    | (None, w) => Return w
    | (Some _, w) => Next (mk_tab_state t' (tab + 1) 0 counter w)
    end
  else if Ascii.eqb c "013"%char then
    let '(ok, w) := putc "013"%char w in
    if negb ok then Return w
    else
      match flag_format, t' with
      | Some fmt, c' :: _ =>
          if negb (Ascii.eqb c' newline) then
            let '(ok, w) := fprintf (format_flag fmt (default [] line_flag)) w in
            if negb ok then Return w
            else Next (mk_tab_state t' 0 0 counter w)
          else Next (mk_tab_state t' 0 0 counter w)
      | _, _ => Next (mk_tab_state t' 0 0 counter w)
      end
  else if Ascii.eqb c "008"%char then
    if 0 <? column then
      let '(ok, w) := putc "008"%char w in
      if negb ok then Return w
      else Next (mk_tab_state t' tab (column - 1) counter w)
    else if 0 <? tab then
      let '(ok, w) := putc "008"%char w in
      if negb ok then Return w
      else Next (mk_tab_state t' (tab - 1) (tab_size - 1) counter w)
    else Next (mk_tab_state t' tab column counter w)
  else
    let g := mcel_scan (c :: t') in
    let column :=
      column + (if mcel_err g then 1
                else if c32isprint (mcel_ch g) then c32width (mcel_ch g)
                else 0) in
    let tab := tab + Z.quot column tab_size in
    let column := Z.rem column tab_size in
    let len := Pos.to_nat (mcel_len g) in
    let '(n, w) := fwrite (take len (c :: t')) w in
    if negb (Nat.eqb n len) then Return w
    else Next (mk_tab_state (drop len (c :: t')) tab column counter w).

(** [counter_proc_signals == MAX_CHUNK] after the increment. *)
Definition polled (st : tab_state) : bool :=
  ts_counter st + 1 =? Z.of_nat MAX_CHUNK.

(** One turn of [while (t < limit)], for [t < limit]: [c] is the byte
    at [t] and [t'] the bytes after it. *)
Definition tab_turn (flag_format : option flag_fmt)
    (line_flag : option (list ascii)) (c : ascii) (t' : list ascii)
    (st : tab_state) : turn :=
  let '(counter, w) :=
    if polled st then (0, process_signals (ts_world st))
    else (ts_counter st + 1, ts_world st) in
  tab_switch flag_format line_flag c t' (ts_tab st) (ts_column st) counter w.

Fixpoint tab_loop (fuel : nat) (flag_format : option flag_fmt)
    (line_flag : option (list ascii)) (st : tab_state) : world :=
  match fuel with
  | O => ts_world st
  | S fuel' =>
      match ts_t st with
      | [] => ts_world st
      | c :: t' =>
          match tab_turn flag_format line_flag c t' st with
          | Next st' => tab_loop fuel' flag_format line_flag st'
          | Return w => w
          end
      end
  end.

(** [output_1_line (base, limit, flag_format, line_flag)]; [text] holds
    the bytes from [base] to [limit]. *)
Definition output_1_line (text : list ascii) (flag_format : option flag_fmt)
    (line_flag : option (list ascii)) (w : world) : world :=
  if negb (expand_tabs opts) then write_chunks (length text) text w
  else tab_loop (length text) flag_format line_flag
         (mk_tab_state text 0 0 0 w).

(** [limit[-1]], the last byte of a line. *)
Definition last_byte (text : line) : ascii := default NUL (last text).

Definition no_newline_marker : list ascii :=
  [newline; "\"%char; " "%char]
  ++ gettext "No newline at end of file" ++ [newline].

(** The first part of print_1_line_nl: the line flag and the text. *)
Definition print_line_text (line_flag : option (list ascii)) (text : line)
    (skip_nl : bool) (w : world) : world :=
  let '(flag_format, w) :=
    match line_flag with
    | Some (c :: flag') =>
        let flag_format := if initial_tab opts then FMT_S_TAB else FMT_S_SPACE in
        let '(flag_format_1, line_flag_1) :=
          if suppress_blank_empty opts && Ascii.eqb (byte_at text 0) newline
          then (FMT_S, if Ascii.eqb c " "%char then flag' else c :: flag')
          else (flag_format, c :: flag') in
        (Some flag_format, snd (fprintf (format_flag flag_format_1 line_flag_1) w))
    | _ => (None, w)
    end in
  let limit :=
    if skip_nl && Ascii.eqb (last_byte text) newline
    then removelast text else text in
  output_1_line limit flag_format line_flag w.

Definition flag_null_or_nonempty (line_flag : option (list ascii)) : bool :=
  match line_flag with
  | None => true
  | Some [] => false
  | Some (_ :: _) => true
  end.

Definition print_1_line_nl (line_flag : option (list ascii)) (text : line)
    (skip_nl : bool) (w : world) : world :=
  let w := print_line_text line_flag text skip_nl w in
  if flag_null_or_nonempty line_flag
     && negb (Ascii.eqb (last_byte text) newline)
  then
    let w := set_color_context RESET_CONTEXT w in
    snd (fprintf no_newline_marker w)
  else w.

Definition print_1_line (line_flag : option (list ascii)) (text : line)
    (w : world) : world :=
  print_1_line_nl line_flag text false w.

(** *** Where output_1_line looks for signals *)

Fixpoint count_signals (tr : list event) : nat :=
  match tr with
  | [] => 0
  | Wrote _ :: tr' => count_signals tr'
  | Signals :: tr' => S (count_signals tr')
  end.

(** [gaps tr (cur, best)] runs over a trace: [cur] is the number of
    bytes written since the last [Signals], [best] the largest such
    number seen at a [Signals]. *)
Definition gap_step (acc : nat * nat) (e : event) : nat * nat :=
  match e with
  | Wrote bs => (fst acc + length bs, snd acc)%nat
  | Signals => (0%nat, Nat.max (fst acc) (snd acc))
  end.

Definition gaps (tr : list event) (acc : nat * nat) : nat * nat :=
  fold_left gap_step tr acc.

(** The largest number of bytes a trace writes between two consecutive
    calls of process_signals, before the first or after the last. *)
Definition max_gap (tr : list event) : nat :=
  let acc := gaps tr (0, 0)%nat in Nat.max (fst acc) (snd acc).

(** A trace made of writes of at most [MAX_CHUNK] bytes, each followed
    by a call of process_signals. *)
Inductive chunked : list event -> Prop :=
  | chunked_nil : chunked []
  | chunked_cons bs tr :
      (length bs <= MAX_CHUNK)%nat -> chunked tr ->
      chunked (Wrote bs :: Signals :: tr).

(** [writes tr n]: the trace [tr] holds writes only, of at most [n]
    bytes in all. *)
Definition writes (tr : list event) (n : nat) : Prop :=
  count_signals tr = 0%nat /\ (length (output_bytes tr) <= n)%nat.

Lemma count_signals_app tr1 tr2 :
  count_signals (tr1 ++ tr2) = (count_signals tr1 + count_signals tr2)%nat.
Proof.
  induction tr1 as [|[bs|] tr1 IH]; simpl; [reflexivity|assumption|].
  rewrite IH. reflexivity.
Qed.

Lemma writes_nil n : writes [] n.
Proof. split; simpl; lia. Qed.

Lemma writes_app tr1 tr2 n1 n2 n :
  writes tr1 n1 -> writes tr2 n2 -> (n1 + n2 <= n)%nat ->
  writes (tr1 ++ tr2) n.
Proof.
  intros [Hs1 Hb1] [Hs2 Hb2] Hn. split.
  - rewrite count_signals_app. lia.
  - rewrite output_bytes_app, length_app. lia.
Qed.

Lemma writes_le tr n m : writes tr n -> (n <= m)%nat -> writes tr m.
Proof. intros [Hs Hb] Hn. split; [assumption|lia]. Qed.

Lemma gaps_app tr1 tr2 acc : gaps (tr1 ++ tr2) acc = gaps tr2 (gaps tr1 acc).
Proof. unfold gaps. apply fold_left_app. Qed.

Lemma gaps_writes tr n :
  writes tr n ->
  forall acc, gaps tr acc = (fst acc + length (output_bytes tr), snd acc)%nat.
Proof.
  intros [Hs _]. induction tr as [|[bs|] tr IH]; intros [cur best].
  - simpl. f_equal. lia.
  - simpl in Hs. change (gaps (Wrote bs :: tr) (cur, best))
      with (gaps tr (cur + length bs, best)%nat).
    rewrite IH by assumption. simpl. rewrite length_app. f_equal. lia.
  - simpl in Hs. discriminate.
Qed.

Lemma fwrite_trace s w :
  exists new,
    trace (snd (fwrite s w)) = trace w ++ new /\ writes new (length s).
Proof.
  exists [Wrote (take (Nat.min (length s) (room w)) s)]. split; [reflexivity|].
  split; [reflexivity|]. simpl. rewrite app_nil_r, length_take. lia.
Qed.

Lemma fprintf_trace s w :
  exists new,
    trace (snd (fprintf s w)) = trace w ++ new /\ writes new (length s).
Proof.
  unfold fprintf. destruct (fwrite s w) as [n w'] eqn:E.
  pose proof (fwrite_trace s w) as H. rewrite E in H. exact H.
Qed.

Lemma putc_trace c w :
  exists new, trace (snd (putc c w)) = trace w ++ new /\ writes new 1.
Proof. apply (fprintf_trace [c] w). Qed.

Lemma process_signals_trace w :
  trace (process_signals w) = trace w ++ [Signals].
Proof. reflexivity. Qed.

Lemma put_spaces_trace fuel :
  forall column tab_size w,
    exists new,
      trace (snd (put_spaces fuel column tab_size w)) = trace w ++ new
      /\ writes new fuel.
Proof.
  induction fuel as [|fuel IH]; intros column tab_size w.
  - exists []. simpl. rewrite app_nil_r. split; [reflexivity|apply writes_nil].
  - cbn [put_spaces]. destruct (putc_trace " "%char w) as (new1 & Ht1 & Hw1).
    destruct (putc " "%char w) as [ok w1]. cbn [snd] in Ht1.
    destruct ok; cbn [negb].
    + destruct (column + 1 <? tab_size).
      * destruct (IH (column + 1) tab_size w1) as (new2 & Ht2 & Hw2).
        exists (new1 ++ new2). rewrite Ht2, Ht1, app_assoc.
        split; [reflexivity|]. eapply writes_app; eauto.
      * exists new1. split; [assumption|]. eapply writes_le; eauto. lia.
    + exists new1. split; [assumption|]. eapply writes_le; eauto. lia.
Qed.

(** The fuel the loop of blanks is given is enough. *)
Lemma put_spaces_fuel fuel1 :
  forall fuel2 column tab_size w,
    (spaces_fuel column tab_size <= fuel1)%nat ->
    (spaces_fuel column tab_size <= fuel2)%nat ->
    put_spaces fuel1 column tab_size w = put_spaces fuel2 column tab_size w.
Proof.
  unfold spaces_fuel.
  induction fuel1 as [|fuel1 IH]; intros fuel2 column tab_size w H1 H2; [lia|].
  destruct fuel2 as [|fuel2]; [lia|]. cbn [put_spaces].
  destruct (putc " "%char w) as [ok w1]. destruct (negb ok); [reflexivity|].
  destruct (Z.ltb_spec (column + 1) tab_size); [|reflexivity].
  apply IH; lia.
Qed.

Lemma write_chunks_trace fuel :
  forall base w,
    exists new,
      trace (write_chunks fuel base w) = trace w ++ new /\ chunked new.
Proof.
  induction fuel as [|fuel IH]; intros base w.
  - exists []. simpl. rewrite app_nil_r. split; [reflexivity|constructor].
  - cbn [write_chunks]. destruct (Nat.eqb (length base) 0).
    + exists []. rewrite app_nil_r. split; [reflexivity|constructor].
    + set (chunk := take (Nat.min (length base) MAX_CHUNK) base).
      assert (Hchunk : (length chunk <= MAX_CHUNK)%nat)
        by (unfold chunk; rewrite length_take; lia).
      destruct (fwrite chunk w) as [n w1] eqn:E.
      assert (Ht : trace w1 = trace w ++ [Wrote (take n chunk)]
                   /\ (n <= length chunk)%nat).
      { unfold fwrite in E. injection E as <- <-. split; [reflexivity|lia]. }
      destruct Ht as [Ht Hn].
      assert (Hc : (length (take n chunk) <= MAX_CHUNK)%nat)
        by (rewrite length_take; lia).
      destruct (Nat.ltb n (Nat.min (length base) MAX_CHUNK)).
      * exists [Wrote (take n chunk); Signals].
        rewrite process_signals_trace, Ht, <- app_assoc.
        split; [reflexivity|]. apply chunked_cons; [exact Hc|constructor].
      * destruct (IH (drop n base) (process_signals w1)) as (new & Hn' & Hch).
        exists (Wrote (take n chunk) :: Signals :: new).
        rewrite Hn', process_signals_trace, Ht, <- !app_assoc.
        split; [reflexivity|]. constructor; assumption.
Qed.

Lemma chunked_max_gap tr :
  chunked tr ->
  forall best,
    (best <= MAX_CHUNK)%nat ->
    fst (gaps tr (0%nat, best)) = 0%nat
    /\ (snd (gaps tr (0%nat, best)) <= MAX_CHUNK)%nat.
Proof.
  induction 1 as [|bs tr Hbs _ IH]; intros best Hbest.
  - simpl. split; [reflexivity|assumption].
  - change (gaps (Wrote bs :: Signals :: tr) (0%nat, best))
      with (gaps tr (0%nat, Nat.max (0 + length bs) best)).
    apply IH. lia.
Qed.

Definition turn_world (r : turn) : world :=
  match r with
  | Next st => ts_world st
  | Return w => w
  end.

(** A bound on the bytes one turn of the loop writes. *)
Definition turn_bound (line_flag : option (list ascii)) (c : ascii)
    (t' : list ascii) (column : Z) : nat :=
  Nat.max (spaces_fuel column (tabsize opts))
    (Nat.max (length (default [] line_flag) + 2)
       (Pos.to_nat (mcel_len (mcel_scan (c :: t'))))).

Lemma length_format_flag f flag :
  (length (format_flag f flag) <= length flag + 1)%nat.
Proof. destruct f; simpl; rewrite ?length_app; simpl; lia. Qed.

Lemma tab_switch_trace ff lf c t' tab column counter w :
  exists new,
    trace (turn_world (tab_switch ff lf c t' tab column counter w))
    = trace w ++ new
    /\ writes new (turn_bound lf c t' column).
Proof.
  unfold tab_switch, turn_bound.
  set (B := Nat.max _ _).
  assert (HB1 : (spaces_fuel column (tabsize opts) <= B)%nat) by (unfold B; lia).
  assert (HB2 : (length (default [] lf) + 2 <= B)%nat) by (unfold B; lia).
  assert (HB3 : (Pos.to_nat (mcel_len (mcel_scan (c :: t'))) <= B)%nat)
    by (unfold B; lia).
  assert (Hnil : exists new, trace w = trace w ++ new /\ writes new B).
  { exists []. rewrite app_nil_r. split; [reflexivity|apply writes_nil]. }
  clearbody B.
  destruct (Ascii.eqb c "009"%char).
  { destruct (put_spaces_trace (spaces_fuel column (tabsize opts)) column
                (tabsize opts) w) as (new & Ht & Hw).
    destruct (put_spaces _ _ _ w) as [[col|] w1]; cbn [snd] in Ht;
      exists new; (split; [exact Ht|eapply writes_le; eauto]). }
  destruct (Ascii.eqb c "013"%char).
  { destruct (putc_trace "013"%char w) as (new1 & Ht1 & Hw1).
    destruct (putc "013"%char w) as [ok w1]. cbn [snd] in Ht1.
    assert (H1 : exists new, trace w1 = trace w ++ new /\ writes new B).
    { exists new1. split; [exact Ht1|eapply writes_le; eauto; lia]. }
    destruct ok; cbn [negb]; [|exact H1].
    destruct ff as [fmt|]; [|exact H1].
    destruct t' as [|c' t'']; [exact H1|].
    destruct (negb (Ascii.eqb c' newline)); [|exact H1].
    destruct (fprintf_trace (format_flag fmt (default [] lf)) w1)
      as (new2 & Ht2 & Hw2).
    destruct (fprintf _ w1) as [ok2 w2]. cbn [snd] in Ht2.
    pose proof (length_format_flag fmt (default [] lf)) as Hlen.
    assert (H2 : exists new, trace w2 = trace w ++ new /\ writes new B).
    { exists (new1 ++ new2). rewrite Ht2, Ht1, app_assoc.
      split; [reflexivity|]. eapply writes_app; eauto. lia. }
    destruct ok2; exact H2. }
  destruct (Ascii.eqb c "008"%char).
  { destruct (putc_trace "008"%char w) as (new1 & Ht1 & Hw1).
    destruct (putc "008"%char w) as [ok w1]. cbn [snd] in Ht1.
    assert (H1 : exists new, trace w1 = trace w ++ new /\ writes new B).
    { exists new1. split; [exact Ht1|eapply writes_le; eauto; lia]. }
    destruct (0 <? column); [destruct ok; exact H1|].
    destruct (0 <? tab); [destruct ok; exact H1|exact Hnil]. }
  cbv zeta.
  destruct (fwrite_trace
              (take (Pos.to_nat (mcel_len (mcel_scan (c :: t')))) (c :: t')) w)
    as (new & Ht & Hw).
  destruct (fwrite _ w) as [n w1]. cbn [snd] in Ht.
  assert (H1 : exists new, trace w1 = trace w ++ new /\ writes new B).
  { exists new. split; [exact Ht|]. eapply writes_le; eauto.
    rewrite length_take. lia. }
  destruct (negb _); exact H1.
Qed.

Lemma tab_turn_trace ff lf c t' st :
  exists new,
    trace (turn_world (tab_turn ff lf c t' st))
    = trace (ts_world st) ++ (if polled st then [Signals] else []) ++ new
    /\ writes new (turn_bound lf c t' (ts_column st)).
Proof.
  unfold tab_turn. destruct (polled st).
  - destruct (tab_switch_trace ff lf c t' (ts_tab st) (ts_column st) 0
                (process_signals (ts_world st))) as (new & Ht & Hw).
    exists new. rewrite Ht, process_signals_trace, <- app_assoc.
    split; [reflexivity|exact Hw].
  - destruct (tab_switch_trace ff lf c t' (ts_tab st) (ts_column st)
                (ts_counter st + 1) (ts_world st)) as (new & Ht & Hw).
    exists new. split; assumption.
Qed.

Lemma tab_switch_counter ff lf c t' tab column counter w st' :
  tab_switch ff lf c t' tab column counter w = Next st' ->
  ts_counter st' = counter.
Proof.
  unfold tab_switch. intros H.
  repeat match type of H with
  | (if ?b then _ else _) = _ => destruct b
  | (let '(_, _) := ?p in _) = _ => destruct p
  | match ?p with _ => _ end = _ => destruct p
  | Next _ = Next _ => injection H as <-; reflexivity
  | Return _ = Next _ => discriminate H
  end.
Qed.

Lemma tab_turn_counter ff lf c t' st st' :
  tab_turn ff lf c t' st = Next st' ->
  ts_counter st' = if polled st then 0 else ts_counter st + 1.
Proof.
  unfold tab_turn. destruct (polled st); apply tab_switch_counter.
Qed.

(** [tab_iterate k st]: the state after [k] turns of the loop started
    in [st], when the loop makes that many turns. *)
Fixpoint tab_iterate (k : nat) (flag_format : option flag_fmt)
    (line_flag : option (list ascii)) (st : tab_state) : option tab_state :=
  match k with
  | O => Some st
  | S k' =>
      match ts_t st with
      | [] => None
      | c :: t' =>
          match tab_turn flag_format line_flag c t' st with
          | Next st' => tab_iterate k' flag_format line_flag st'
          | Return _ => None
          end
      end
  end.

Lemma tab_loop_iterate k ff lf :
  forall st st' fuel,
    tab_iterate k ff lf st = Some st' ->
    tab_loop (k + fuel) ff lf st = tab_loop fuel ff lf st'.
Proof.
  induction k as [|k IH]; intros st st' fuel H.
  - injection H as <-. reflexivity.
  - cbn [tab_iterate] in H. cbn [Nat.add tab_loop].
    destruct (ts_t st) as [|c t']; [discriminate|].
    destruct (tab_turn ff lf c t' st) as [st1|w1]; [|discriminate].
    apply IH, H.
Qed.

(** Each turn consumes at least one byte. *)
Lemma tab_switch_consumes ff lf c t' tab column counter w st' :
  tab_switch ff lf c t' tab column counter w = Next st' ->
  (length (ts_t st') <= length t')%nat.
Proof.
  unfold tab_switch. intros H.
  repeat match type of H with
  | (if ?b then _ else _) = _ => destruct b
  | (let '(_, _) := ?p in _) = _ => destruct p
  | match ?p with _ => _ end = _ => destruct p
  | Next _ = Next _ => injection H as <-; cbn [ts_t]
  | Return _ = Next _ => discriminate H
  end; try lia.
  rewrite length_drop. cbn [length]. lia.
Qed.

Lemma tab_turn_consumes ff lf c t' st st' :
  tab_turn ff lf c t' st = Next st' ->
  (length (ts_t st') <= length t')%nat.
Proof.
  unfold tab_turn. destruct (polled st); apply tab_switch_consumes.
Qed.

(** The fuel output_1_line gives the loop is enough. *)
Lemma tab_loop_fuel ff lf fuel1 :
  forall fuel2 st,
    (length (ts_t st) <= fuel1)%nat -> (length (ts_t st) <= fuel2)%nat ->
    tab_loop fuel1 ff lf st = tab_loop fuel2 ff lf st.
Proof.
  induction fuel1 as [|fuel1 IH]; intros fuel2 st H1 H2.
  - destruct (ts_t st) eqn:Et; [|simpl in H1; lia].
    destruct fuel2; cbn [tab_loop]; rewrite ?Et; reflexivity.
  - destruct fuel2 as [|fuel2].
    + destruct (ts_t st) eqn:Et; [|simpl in H2; lia].
      cbn [tab_loop]. rewrite Et. reflexivity.
    + cbn [tab_loop]. destruct (ts_t st) as [|c t'] eqn:Et; [reflexivity|].
      destruct (tab_turn ff lf c t' st) as [st1|w1] eqn:Eturn; [|reflexivity].
      apply tab_turn_consumes in Eturn. cbn [length] in H1, H2.
      apply IH; lia.
Qed.

Lemma write_chunks_fuel fuel1 :
  forall fuel2 base w,
    (length base <= fuel1)%nat -> (length base <= fuel2)%nat ->
    write_chunks fuel1 base w = write_chunks fuel2 base w.
Proof.
  induction fuel1 as [|fuel1 IH]; intros fuel2 base w H1 H2.
  - destruct base; [|simpl in H1; lia]. destruct fuel2; reflexivity.
  - destruct fuel2 as [|fuel2].
    + destruct base; [|simpl in H2; lia]. reflexivity.
    + cbn [write_chunks]. destruct (Nat.eqb_spec (length base) 0) as [|Hne];
        [reflexivity|].
      destruct (fwrite _ w) as [n w1].
      destruct (Nat.ltb_spec n (Nat.min (length base) MAX_CHUNK)) as [|Hn];
        [reflexivity|].
      assert (0 < n)%nat by (unfold MAX_CHUNK in Hn; lia).
      apply IH; rewrite length_drop; lia.
Qed.

(** *** The counter of the loop with -t *)

Lemma tab_iterate_signals ff lf k :
  forall st st',
    0 <= ts_counter st < Z.of_nat MAX_CHUNK ->
    tab_iterate k ff lf st = Some st' ->
    Z.of_nat (count_signals (trace (ts_world st')))
    = Z.of_nat (count_signals (trace (ts_world st)))
      + (ts_counter st + Z.of_nat k) / Z.of_nat MAX_CHUNK
    /\ ts_counter st' = (ts_counter st + Z.of_nat k) mod Z.of_nat MAX_CHUNK.
Proof.
  induction k as [|k IH]; intros st st' Hc H.
  - injection H as <-. rewrite Z.add_0_r.
    rewrite Z.div_small, Z.mod_small by lia. lia.
  - cbn [tab_iterate] in H.
    destruct (ts_t st) as [|c t']; [discriminate|].
    destruct (tab_turn_trace ff lf c t' st) as (new & Ht & [Hs _]).
    destruct (tab_turn ff lf c t' st) as [st1|w1] eqn:Eturn; [|discriminate].
    apply tab_turn_counter in Eturn. cbn [turn_world] in Ht.
    unfold polled in *.
    destruct (Z.eqb_spec (ts_counter st + 1) (Z.of_nat MAX_CHUNK)) as [Hp|Hp].
    + destruct (IH st1 st') as (IHs & IHc); [lia|exact H|].
      rewrite IHs, IHc, Ht, Eturn, !count_signals_app, Hs. cbn [count_signals].
      replace (ts_counter st + Z.of_nat (S k))
        with (0 + Z.of_nat k + 1 * Z.of_nat MAX_CHUNK) by lia.
      rewrite Z.div_add, Z.mod_add by (unfold MAX_CHUNK; lia). lia.
    + destruct (IH st1 st') as (IHs & IHc); [lia|exact H|].
      rewrite IHs, IHc, Ht, Eturn, !count_signals_app, Hs. cbn [count_signals].
      replace (ts_counter st + Z.of_nat (S k))
        with (ts_counter st + 1 + Z.of_nat k) by lia.
      lia.
Qed.

(** *** The output between two looks at the signals *)

(** The most bytes a turn of the loop with -t writes: the blanks of a
    tab, a carriage return with the line flag and its separator, or the
    bytes of one character. *)
Definition per_turn_bound (line_flag : option (list ascii)) : nat :=
  Nat.max (Z.to_nat (tabsize opts))
    (Nat.max (length (default [] line_flag) + 2) MCEL_LEN_MAX).

Section TabBounds.

Hypothesis tabsize_pos : 0 < tabsize opts.
Hypothesis mcel_len_max :
  forall s, (Pos.to_nat (mcel_len (mcel_scan s)) <= MCEL_LEN_MAX)%nat.
Hypothesis c32width_print : forall ch, c32isprint ch = true -> 0 <= c32width ch.

Lemma turn_bound_le lf c t' column :
  0 <= column -> (turn_bound lf c t' column <= per_turn_bound lf)%nat.
Proof using tabsize_pos mcel_len_max c32width_print.
  intros Hcol. unfold turn_bound, per_turn_bound, spaces_fuel.
  pose proof (mcel_len_max (c :: t')). lia.
Qed.

Lemma tab_switch_column ff lf c t' tab column counter w st' :
  0 <= column ->
  tab_switch ff lf c t' tab column counter w = Next st' ->
  0 <= ts_column st'.
Proof using tabsize_pos mcel_len_max c32width_print.
  unfold tab_switch. intros Hcol H.
  repeat match type of H with
  | (if ?b then _ else _) = _ => destruct b eqn:?
  | (let '(_, _) := ?p in _) = _ => destruct p
  | match ?p with _ => _ end = _ => destruct p
  | Next _ = Next _ => injection H as <-; cbn [ts_column]
  | Return _ = Next _ => discriminate H
  end; try lia.
  apply Z.rem_nonneg; [lia|].
  destruct (mcel_err _); [lia|].
  destruct (c32isprint _) eqn:Hp; [|lia].
  apply c32width_print in Hp. lia.
Qed.

Lemma tab_turn_column ff lf c t' st st' :
  0 <= ts_column st ->
  tab_turn ff lf c t' st = Next st' ->
  0 <= ts_column st'.
Proof using tabsize_pos mcel_len_max c32width_print.
  unfold tab_turn. destruct (polled st); apply tab_switch_column.
Qed.

Lemma tab_loop_gap ff lf fuel :
  let B := per_turn_bound lf in
  forall st cur best,
    0 <= ts_column st ->
    0 <= ts_counter st < Z.of_nat MAX_CHUNK ->
    Z.of_nat cur <= (ts_counter st + 1) * Z.of_nat B ->
    (best <= MAX_CHUNK * B)%nat ->
    exists new,
      trace (tab_loop fuel ff lf st) = trace (ts_world st) ++ new
      /\ (fst (gaps new (cur, best)) <= MAX_CHUNK * B)%nat
      /\ (snd (gaps new (cur, best)) <= MAX_CHUNK * B)%nat.
Proof using tabsize_pos mcel_len_max c32width_print.
  intros B. unfold MAX_CHUNK.
  assert (Hstop : forall w cur best,
            Z.of_nat cur <= 1024 * Z.of_nat B -> (best <= 1024 * B)%nat ->
            exists new, trace w = trace w ++ new
              /\ (fst (gaps new (cur, best)) <= 1024 * B)%nat
              /\ (snd (gaps new (cur, best)) <= 1024 * B)%nat).
  { intros w cur best Hc Hb. exists []. rewrite app_nil_r. simpl.
    repeat split; lia. }
  induction fuel as [|fuel IH]; intros st cur best Hcol Hcnt Hcur Hbest.
  - cbn [tab_loop]. apply Hstop; [nia|lia].
  - cbn [tab_loop]. destruct (ts_t st) as [|c t']; [apply Hstop; [nia|lia]|].
    destruct (tab_turn_trace ff lf c t' st) as (new1 & Ht & Hw).
    pose proof (turn_bound_le lf c t' _ Hcol) as HB. fold B in HB.
    pose proof (gaps_writes _ _ Hw) as Hg. destruct Hw as [_ Hbytes].
    set (pre := if polled st then [Signals] else []) in *.
    destruct (gaps (pre ++ new1) (cur, best)) as [cur1 best1] eqn:Eacc.
    assert (Hacc : Z.of_nat cur1
                   <= ((if polled st then 0 else ts_counter st + 1) + 1)
                      * Z.of_nat B
                   /\ (best1 <= 1024 * B)%nat).
    { rewrite gaps_app, Hg in Eacc. revert Eacc. unfold pre, polled, MAX_CHUNK.
      destruct (Z.eqb_spec (ts_counter st + 1) (Z.of_nat 1024));
        cbn [gaps fold_left gap_step fst snd]; intros [= <- <-]; split; nia. }
    destruct Hacc as [Hacc1 Hacc2].
    destruct (tab_turn ff lf c t' st) as [st1|w1] eqn:Eturn;
      cbn [turn_world] in Ht.
    + pose proof (tab_turn_counter _ _ _ _ _ _ Eturn) as Hc1.
      pose proof (tab_turn_column _ _ _ _ _ _ Hcol Eturn) as Hcol1.
      assert (Hcnt1 : 0 <= ts_counter st1 < Z.of_nat 1024).
      { rewrite Hc1. unfold polled, MAX_CHUNK.
        destruct (Z.eqb_spec (ts_counter st + 1) (Z.of_nat 1024)); lia. }
      destruct (IH st1 cur1 best1 Hcol1 Hcnt1) as (new2 & Ht2 & Hg2);
        [rewrite Hc1; exact Hacc1|exact Hacc2|].
      exists ((pre ++ new1) ++ new2). rewrite Ht2, Ht, <- !app_assoc.
      split; [reflexivity|].
      rewrite app_assoc, gaps_app, Eacc. exact Hg2.
    + exists (pre ++ new1). split; [exact Ht|]. rewrite Eacc.
      split; [|exact Hacc2]. cbn [fst].
      assert ((if polled st then 0 else ts_counter st + 1) + 1 <= 1024).
      { unfold polled, MAX_CHUNK.
        destruct (Z.eqb_spec (ts_counter st + 1) (Z.of_nat 1024)); lia. }
      nia.
Qed.

End TabBounds.

Lemma max_gap_chunked tr : chunked tr -> (max_gap tr <= MAX_CHUNK)%nat.
Proof.
  intros H. unfold max_gap.
  destruct (chunked_max_gap tr H 0%nat) as [H1 H2]; lia.
Qed.

(** C8.  Without -t, output_1_line calls process_signals after every
    write, and no write has more than 1024 bytes.  With -t the call is
    made in every 1024th turn of the loop.  In both cases the bytes
    written between two calls are bounded. *)
Theorem output_1_line_polls (text : list ascii) (flag_format : option flag_fmt)
    (line_flag : option (list ascii)) (w : world) :
  (expand_tabs opts = false ->
     exists new,
       trace (output_1_line text flag_format line_flag w) = trace w ++ new
       /\ chunked new
       /\ (max_gap new <= MAX_CHUNK)%nat)
  /\ (expand_tabs opts = true ->
        (forall k st,
            tab_iterate k flag_format line_flag (mk_tab_state text 0 0 0 w)
            = Some st ->
            count_signals (trace (ts_world st))
            = (count_signals (trace w) + k / MAX_CHUNK)%nat)
        /\ (0 < tabsize opts ->
            (forall s, (Pos.to_nat (mcel_len (mcel_scan s)) <= MCEL_LEN_MAX)%nat) ->
            (forall ch, c32isprint ch = true -> 0 <= c32width ch) ->
            exists new,
              trace (output_1_line text flag_format line_flag w)
              = trace w ++ new
              /\ (max_gap new <= MAX_CHUNK * per_turn_bound line_flag)%nat)).
Proof.
  unfold output_1_line. split; intros Htabs; rewrite Htabs; cbn [negb].
  - destruct (write_chunks_trace (length text) text w) as (new & Ht & Hc).
    exists new. repeat split; [exact Ht|exact Hc|].
    apply max_gap_chunked, Hc.
  - split.
    + intros k st Hk.
      apply tab_iterate_signals in Hk; [|cbn [ts_counter]; unfold MAX_CHUNK; lia].
      destruct Hk as [Hk _]. cbn [ts_counter ts_world] in Hk.
      rewrite Z.add_0_l, <- Nat2Z.inj_div in Hk. lia.
    + intros Hts Hlen Hwidth.
      destruct (tab_loop_gap Hts Hlen Hwidth flag_format line_flag
                  (length text) (mk_tab_state text 0 0 0 w) 0%nat 0%nat)
        as (new & Ht & Hg1 & Hg2); cbn [ts_column ts_counter];
        try (unfold MAX_CHUNK; lia).
      exists new. split; [exact Ht|]. unfold max_gap. lia.
Qed.

(** *** What output_1_line writes without -t *)

Lemma process_signals_output w :
  output_bytes (trace (process_signals w)) = output_bytes (trace w)
  /\ room (process_signals w) = room w.
Proof.
  rewrite process_signals_trace, output_bytes_app. simpl.
  rewrite app_nil_r. split; reflexivity.
Qed.

(** On a stream with room for them, the bytes of the line are written
    as they are. *)
Lemma write_chunks_output fuel :
  forall base w,
    (length base <= fuel)%nat -> (length base <= room w)%nat ->
    output_bytes (trace (write_chunks fuel base w))
    = output_bytes (trace w) ++ base
    /\ room (write_chunks fuel base w) = (room w - length base)%nat.
Proof.
  induction fuel as [|fuel IH]; intros base w Hfuel Hroom.
  - destruct base; [|simpl in Hfuel; lia]. simpl.
    rewrite app_nil_r. split; [reflexivity|lia].
  - cbn [write_chunks]. destruct (Nat.eqb_spec (length base) 0) as [Hz|Hnz].
    + destruct base; [|discriminate]. simpl.
      rewrite app_nil_r. split; [reflexivity|lia].
    + set (n := Nat.min (length base) MAX_CHUNK).
      assert (Hn : (0 < n <= length base)%nat) by (unfold n, MAX_CHUNK; lia).
      assert (Hchunk : length (take n base) = n)
        by (rewrite length_take; lia).
      destruct (fwrite_output (take n base) w) as (Ho & Hr & Hc);
        [rewrite Hchunk; lia|].
      destruct (fwrite (take n base) w) as [k w1]. cbn [fst snd] in Ho, Hr, Hc.
      rewrite Hchunk in Hr, Hc. subst k.
      rewrite Nat.ltb_irrefl.
      destruct (process_signals_output w1) as [Hpo Hpr].
      destruct (IH (drop n base) (process_signals w1)) as [IHo IHr];
        [rewrite length_drop; lia|rewrite length_drop, Hpr, Hr; lia|].
      rewrite IHo, IHr, Hpo, Hpr, Ho, Hr, length_drop, <- app_assoc,
        take_drop.
      split; [reflexivity|lia].
Qed.

(** *** The marker of a line without newline *)

Lemma fwrite_with_out s w :
  snd (fwrite s w)
  = with_out (trace w ++ [Wrote (take (Nat.min (length s) (room w)) s)])
             (room w - Nat.min (length s) (room w)) w.
Proof. reflexivity. Qed.

(** The escape sequence [set_color_context (RESET_CONTEXT)] writes. *)
Definition color_reset_bytes (w : world) : list ascii :=
  if colors_enabled w
     && negb (color_context_eqb (last_context w) RESET_CONTEXT)
  then bin_str_bytes w (indicator w C_LEFT)
       ++ bin_str_bytes w (indicator w C_RESET)
       ++ bin_str_bytes w (indicator w C_RIGHT)
  else [].

Lemma put_indicator_output b w :
  (length (bin_str_bytes w b) <= room w)%nat ->
  put_indicator b w
  = with_out (trace w ++ [Wrote (bin_str_bytes w b)])
             (room w - length (bin_str_bytes w b)) w.
Proof.
  intros Hroom. unfold put_indicator. rewrite fwrite_with_out.
  rewrite Nat.min_l by exact Hroom. rewrite firstn_all. reflexivity.
Qed.

Lemma set_color_context_reset w :
  (length (color_reset_bytes w) <= room w)%nat ->
  output_bytes (trace (set_color_context RESET_CONTEXT w))
  = output_bytes (trace w) ++ color_reset_bytes w
  /\ room (set_color_context RESET_CONTEXT w)
     = (room w - length (color_reset_bytes w))%nat
  /\ count_signals (trace (set_color_context RESET_CONTEXT w))
     = count_signals (trace w).
Proof.
  unfold set_color_context, color_reset_bytes. cbn [color_context_eqb negb].
  destruct (colors_enabled w
            && negb (color_context_eqb (last_context w) RESET_CONTEXT));
    [|intros _; cbn [length]; rewrite app_nil_r, Nat.sub_0_r; auto].
  rewrite !length_app. intros Hroom.
  set (l := bin_str_bytes w (indicator w C_LEFT)) in *.
  set (m := bin_str_bytes w (indicator w C_RESET)) in *.
  set (r := bin_str_bytes w (indicator w C_RIGHT)) in *.
  set (w1 := with_out (trace w ++ [Wrote l]) (room w - length l) w).
  set (w2 := with_out (trace w1 ++ [Wrote m]) (room w1 - length m) w1).
  set (w3 := with_out (trace w2 ++ [Wrote r]) (room w2 - length r) w2).
  assert (E1 : put_indicator (indicator w C_LEFT) w = w1)
    by (apply put_indicator_output; fold l; lia).
  assert (E2 : put_indicator (indicator w1 C_RESET) w1 = w2)
    by (apply (put_indicator_output (indicator w C_RESET) w1);
        change (length m <= room w - length l)%nat; lia).
  assert (E3 : put_indicator (indicator w2 C_RIGHT) w2 = w3)
    by (apply (put_indicator_output (indicator w C_RIGHT) w2);
        change (length r <= room w - length l - length m)%nat; lia).
  rewrite E1, E2, E3.
  cbn [set_last_context trace room with_out w3 w2 w1].
  rewrite !output_bytes_app, !count_signals_app. cbn [output_bytes count_signals].
  rewrite !app_nil_r, <- !app_assoc. repeat split; lia.
Qed.

(** C6 (as the code has it).  After the text of a line whose last byte
    is not a newline, print_1_line_nl writes the marker line, unless the
    line flag is the empty string; print_1_line does the same.  A line
    that ends in a newline gets no marker, and neither does any line
    printed with an empty line flag. *)
Theorem no_newline_marker_rule (line_flag : option (list ascii)) (text : line)
    (skip_nl : bool) (w : world) :
  let w1 := print_line_text line_flag text skip_nl w in
  (last_byte text <> newline ->
   flag_null_or_nonempty line_flag = true ->
   (length (color_reset_bytes w1) + length no_newline_marker <= room w1)%nat ->
   output_bytes (trace (print_1_line_nl line_flag text skip_nl w))
   = output_bytes (trace w1) ++ color_reset_bytes w1 ++ no_newline_marker)
  /\ (last_byte text = newline ->
      print_1_line_nl line_flag text skip_nl w = w1)
  /\ (line_flag = Some [] ->
      print_1_line_nl line_flag text skip_nl w = w1)
  /\ print_1_line line_flag text w = print_1_line_nl line_flag text false w.
Proof.
  intros w1. unfold print_1_line_nl. fold w1. repeat split.
  - intros Hlast Hflag Hroom. rewrite Hflag.
    apply Ascii.eqb_neq in Hlast. rewrite Hlast. cbn [andb negb].
    destruct (set_color_context_reset w1) as (Ho & Hr & _); [lia|].
    destruct (fprintf_output no_newline_marker
                (set_color_context RESET_CONTEXT w1)) as (Hm & _);
      [rewrite Hr; lia|].
    rewrite Hm, Ho, <- app_assoc. reflexivity.
  - intros Hlast. rewrite Hlast, Ascii.eqb_refl, andb_false_r. reflexivity.
  - intros ->. reflexivity.
Qed.

(** *** The escape sequences of set_color_context *)

(** The indicator written between C_LEFT and C_RIGHT for a context. *)
Definition context_indicator (cc : color_context) : indicator_no :=
  match cc with
  | HEADER_CONTEXT => C_HEADER
  | LINE_NUMBER_CONTEXT => C_LINE
  | ADD_CONTEXT => C_ADD
  | DELETE_CONTEXT => C_DELETE
  | RESET_CONTEXT => C_RESET
  end.

(** The bytes that switch the terminal to a context. *)
Definition color_sequence (w : world) (cc : color_context) : list ascii :=
  bin_str_bytes w (indicator w C_LEFT)
  ++ bin_str_bytes w (indicator w (context_indicator cc))
  ++ bin_str_bytes w (indicator w C_RIGHT).

Lemma color_context_eqb_eq a b : color_context_eqb a b = true <-> a = b.
Proof. destruct a, b; simpl; split; intros H; congruence. Qed.

(** A call of put_indicator touches the stream only. *)
Lemma put_indicator_effect b w :
  put_indicator b w
  = with_out (trace w ++ [Wrote (take (room w) (bin_str_bytes w b))])
             (room w - length (bin_str_bytes w b)) w.
Proof.
  unfold put_indicator. rewrite fwrite_with_out.
  set (s := bin_str_bytes w b). f_equal.
  - do 2 f_equal. destruct (Nat.le_ge_cases (length s) (room w)).
    + rewrite Nat.min_l by lia. rewrite !take_ge by lia. reflexivity.
    + rewrite Nat.min_r by lia. reflexivity.
  - lia.
Qed.

(** What set_color_context does to the stream and to [last_context];
    it leaves the other variables as they are. *)
Lemma set_color_context_effect cc w :
  let w' := set_color_context cc w in
  let switch :=
    colors_enabled w && negb (color_context_eqb (last_context w) cc) in
  colors_enabled w' = colors_enabled w
  /\ color_indicator w' = color_indicator w
  /\ palette_mem w' = palette_mem w
  /\ color_palette w' = color_palette w
  /\ stderr_log w' = stderr_log w
  /\ last_context w' = (if switch then cc else last_context w)
  /\ output_bytes (trace w')
     = output_bytes (trace w)
       ++ (if switch then take (room w) (color_sequence w cc) else [])
  /\ room w'
     = (if switch then room w - length (color_sequence w cc) else room w)%nat
  /\ count_signals (trace w')
     = (count_signals (trace w)
        + if color_context_eqb cc RESET_CONTEXT then 0 else 1)%nat.
Proof.
  unfold set_color_context. cbv zeta.
  set (w0 := if negb (color_context_eqb cc RESET_CONTEXT)
             then process_signals w else w).
  assert (H0 : colors_enabled w0 = colors_enabled w
               /\ color_indicator w0 = color_indicator w
               /\ palette_mem w0 = palette_mem w
               /\ color_palette w0 = color_palette w
               /\ stderr_log w0 = stderr_log w
               /\ last_context w0 = last_context w
               /\ output_bytes (trace w0) = output_bytes (trace w)
               /\ room w0 = room w
               /\ count_signals (trace w0)
                  = (count_signals (trace w)
                     + if color_context_eqb cc RESET_CONTEXT then 0 else 1)%nat).
  { subst w0. destruct (color_context_eqb cc RESET_CONTEXT); cbn [negb].
    - repeat split; lia.
    - rewrite process_signals_trace, output_bytes_app, count_signals_app.
      simpl. rewrite app_nil_r. repeat split. }
  destruct H0 as (Hce & Hci & Hpm & Hcp & Hse & Hlc & Hout & Hroom & Hsig).
  rewrite Hce, Hlc.
  destruct (colors_enabled w
            && negb (color_context_eqb (last_context w) cc)) eqn:Hsw.
  - assert (Hseq : color_sequence w0 cc = color_sequence w cc)
      by (unfold color_sequence, indicator, bin_str_bytes;
          rewrite Hci, Hpm; reflexivity).
    rewrite <- Hseq, <- Hout, <- Hroom, <- Hsig. clear Hseq Hout Hroom Hsig.
    rewrite <- Hce, <- Hci, <- Hpm, <- Hcp, <- Hse.
    clear Hce Hci Hpm Hcp Hse Hlc. clearbody w0.
    set (l := bin_str_bytes w0 (indicator w0 C_LEFT)).
    set (m := bin_str_bytes w0 (indicator w0 (context_indicator cc))).
    set (r := bin_str_bytes w0 (indicator w0 C_RIGHT)).
    set (w1 := put_indicator (indicator w0 C_LEFT) w0).
    assert (E1 : w1 = with_out (trace w0 ++ [Wrote (take (room w0) l)])
                        (room w0 - length l) w0)
      by apply put_indicator_effect.
    set (w2 := match cc with
               | HEADER_CONTEXT => put_indicator (indicator w1 C_HEADER) w1
               | LINE_NUMBER_CONTEXT => put_indicator (indicator w1 C_LINE) w1
               | ADD_CONTEXT => put_indicator (indicator w1 C_ADD) w1
               | DELETE_CONTEXT => put_indicator (indicator w1 C_DELETE) w1
               | RESET_CONTEXT => put_indicator (indicator w1 C_RESET) w1
               end).
    assert (E2 : w2 = with_out (trace w1 ++ [Wrote (take (room w1) m)])
                        (room w1 - length m) w1).
    { assert (Hm : bin_str_bytes w1 (indicator w1 (context_indicator cc)) = m)
        by (rewrite E1; reflexivity).
      rewrite <- Hm. subst w2.
      destruct cc; apply put_indicator_effect. }
    set (w3 := put_indicator (indicator w2 C_RIGHT) w2).
    assert (E3 : w3 = with_out (trace w2 ++ [Wrote (take (room w2) r)])
                        (room w2 - length r) w2).
    { assert (Hr : bin_str_bytes w2 (indicator w2 C_RIGHT) = r)
        by (rewrite E2, E1; reflexivity).
      rewrite <- Hr. apply put_indicator_effect. }
    rewrite E3, E2, E1.
    cbn [set_last_context trace room with_out colors_enabled color_indicator
         palette_mem color_palette stderr_log last_context].
    rewrite !output_bytes_app, !count_signals_app.
    cbn [output_bytes count_signals]. rewrite !app_nil_r.
    unfold color_sequence. fold l m r.
    rewrite !take_app, !length_app, <- !app_assoc.
    repeat split; lia.
  - rewrite app_nil_r. repeat split; assumption.
Qed.

(** X5.  With colors on, a call of set_color_context for a context
    other than the last one set writes the indicators C_LEFT, that of
    the context and C_RIGHT, in this order, and records the context; a
    stream that stops accepting bytes gets the bytes that fit, and the
    context is recorded all the same. *)
Theorem set_color_context_switches (cc : color_context) (w : world) :
  colors_enabled w = true ->
  last_context w <> cc ->
  output_bytes (trace (set_color_context cc w))
  = output_bytes (trace w) ++ take (room w) (color_sequence w cc)
  /\ last_context (set_color_context cc w) = cc.
Proof.
  intros Hon Hne.
  destruct (set_color_context_effect cc w)
    as (_ & _ & _ & _ & _ & Hlc & Hout & _).
  rewrite Hon in Hlc, Hout. cbn [andb] in Hlc, Hout.
  assert (Hb : color_context_eqb (last_context w) cc = false).
  { destruct (color_context_eqb (last_context w) cc) eqn:E; [|reflexivity].
    apply color_context_eqb_eq in E. contradiction. }
  rewrite Hb in Hlc, Hout. split; assumption.
Qed.

(** X6.  set_color_context writes no byte when colors are off or when
    the context is the one recorded last; [last_context] then stays as
    it is (with colors off it is never updated).  Hence asking twice in
    a row for the same context writes its sequence at most once. *)
Theorem set_color_context_idle (cc : color_context) (w : world) :
  (colors_enabled w = false \/ last_context w = cc ->
   output_bytes (trace (set_color_context cc w)) = output_bytes (trace w)
   /\ room (set_color_context cc w) = room w
   /\ last_context (set_color_context cc w) = last_context w)
  /\ output_bytes (trace (set_color_context cc (set_color_context cc w)))
     = output_bytes (trace (set_color_context cc w)).
Proof.
  assert (Hidle : forall w0,
             colors_enabled w0 = false \/ last_context w0 = cc ->
             output_bytes (trace (set_color_context cc w0))
             = output_bytes (trace w0)
             /\ room (set_color_context cc w0) = room w0
             /\ last_context (set_color_context cc w0) = last_context w0).
  { intros w0 H.
    destruct (set_color_context_effect cc w0)
      as (_ & _ & _ & _ & _ & Hlc & Hout & Hroom & _).
    assert (Hsw : colors_enabled w0
                  && negb (color_context_eqb (last_context w0) cc) = false).
    { destruct H as [H|H].
      - rewrite H. reflexivity.
      - apply color_context_eqb_eq in H. rewrite H. apply andb_false_r. }
    rewrite Hsw in Hlc, Hout, Hroom. rewrite app_nil_r in Hout. auto. }
  split; [apply Hidle|].
  apply Hidle.
  destruct (set_color_context_effect cc w) as (Hce & _ & _ & _ & _ & Hlc & _).
  rewrite Hce. destruct (colors_enabled w); [|left; reflexivity].
  right. rewrite Hlc. cbn [andb].
  destruct (color_context_eqb (last_context w) cc) eqn:E; cbn [negb];
    [apply color_context_eqb_eq, E|reflexivity].
Qed.

(** *** What output_1_line writes *)

(** Without -t the loop writes the longest prefix of the bytes that the
    stream accepts. *)
Lemma write_chunks_prefix fuel :
  forall base w,
    (length base <= fuel)%nat ->
    output_bytes (trace (write_chunks fuel base w))
    = output_bytes (trace w) ++ take (room w) base
    /\ room (write_chunks fuel base w) = (room w - length base)%nat.
Proof.
  induction fuel as [|fuel IH]; intros base w Hfuel.
  - destruct base; [|simpl in Hfuel; lia]. simpl.
    rewrite take_nil, app_nil_r. split; [reflexivity|lia].
  - cbn [write_chunks]. destruct (Nat.eqb_spec (length base) 0) as [Hz|Hnz].
    + destruct base; [|discriminate]. simpl.
      rewrite take_nil, app_nil_r. split; [reflexivity|lia].
    + set (n0 := Nat.min (length base) MAX_CHUNK).
      assert (Hn0 : (0 < n0 <= length base)%nat) by (unfold n0, MAX_CHUNK; lia).
      assert (Hchunk : length (take n0 base) = n0)
        by (rewrite length_take; lia).
      destruct (fwrite_prefix (take n0 base) w) as [Ho Hr].
      destruct (fwrite (take n0 base) w) as [n w1] eqn:E.
      assert (Hn : n = Nat.min n0 (room w)).
      { unfold fwrite in E. injection E as <- _. rewrite Hchunk. reflexivity. }
      cbn [snd] in Ho, Hr. rewrite Hchunk in Hr.
      destruct (process_signals_output w1) as [Hpo Hpr].
      destruct (Nat.ltb_spec n n0) as [Hshort|Hfull].
      * rewrite Hpo, Hpr, Ho, Hr. rewrite take_take.
        replace (Nat.min (room w) n0) with (room w) by lia.
        split; [reflexivity|lia].
      * destruct (IH (drop n base) (process_signals w1)) as [IHo IHr];
          [rewrite length_drop; lia|].
        rewrite IHo, IHr, Hpo, Hpr, Ho, Hr, length_drop, <- app_assoc.
        replace n with n0 by lia.
        rewrite (take_ge (take n0 base)) by lia.
        rewrite take_take_drop.
        replace (n0 + (room w - n0))%nat with (room w) by lia.
        split; [reflexivity|lia].
Qed.

(** X7.  Without -t output_1_line writes the bytes of the line as they
    are.  A stream that stops accepting bytes gets the longest prefix
    that fits, and nothing after it. *)
Theorem output_1_line_unexpanded (text : list ascii)
    (flag_format : option flag_fmt) (line_flag : option (list ascii))
    (w : world) :
  expand_tabs opts = false ->
  output_bytes (trace (output_1_line text flag_format line_flag w))
  = output_bytes (trace w) ++ take (room w) text
  /\ room (output_1_line text flag_format line_flag w)
     = (room w - length text)%nat.
Proof.
  intros Htabs. unfold output_1_line. rewrite Htabs. cbn [negb].
  apply write_chunks_prefix. lia.
Qed.

(** *** Tabs expanded to tab stops *)

(** The text of a line with every tab replaced by the blanks that lead
    to the next tab stop; [column] is the column, counted from the last
    tab stop, that the first byte goes to. *)
Fixpoint expand_from (column : Z) (text : list ascii) : list ascii :=
  match text with
  | [] => []
  | c :: t =>
      if Ascii.eqb c "009"%char
      then repeat " "%char (Z.to_nat (tabsize opts - column)) ++ expand_from 0 t
      else c :: expand_from ((column + 1) mod tabsize opts) t
  end.

(** A byte that is a character of its own, printable and one column
    wide, and none of the bytes the loop treats specially. *)
Definition ordinary (c : ascii) : Prop :=
  c <> "009"%char /\ c <> "013"%char /\ c <> "008"%char
  /\ forall t',
       mcel_len (mcel_scan (c :: t')) = 1%positive
       /\ mcel_err (mcel_scan (c :: t')) = false
       /\ c32isprint (mcel_ch (mcel_scan (c :: t'))) = true
       /\ c32width (mcel_ch (mcel_scan (c :: t'))) = 1.

(** The loop of blanks, on a stream with room for them. *)
Lemma put_spaces_room fuel :
  forall column w,
    column < tabsize opts ->
    (Z.to_nat (tabsize opts - column) <= fuel)%nat ->
    (Z.to_nat (tabsize opts - column) <= room w)%nat ->
    exists column' w',
      put_spaces fuel column (tabsize opts) w = (Some column', w')
      /\ output_bytes (trace w')
         = output_bytes (trace w)
           ++ repeat " "%char (Z.to_nat (tabsize opts - column))
      /\ room w' = (room w - Z.to_nat (tabsize opts - column))%nat.
Proof.
  induction fuel as [|fuel IH]; intros column w Hcol Hfuel Hroom; [lia|].
  cbn [put_spaces].
  destruct (fprintf_output [" "%char] w) as (Ho & Hr & Hok);
    [simpl; lia|].
  unfold putc. destruct (fprintf [" "%char] w) as [ok w1].
  cbn [fst snd] in Ho, Hr, Hok. subst ok. cbn [negb].
  replace (Z.to_nat (tabsize opts - column))
    with (S (Z.to_nat (tabsize opts - (column + 1)))) by lia.
  destruct (Z.ltb_spec (column + 1) (tabsize opts)) as [Hlt|Hge].
  - destruct (IH (column + 1) w1) as (column' & w' & E & Ho' & Hr');
      [lia|lia|rewrite Hr; simpl; lia|].
    exists column', w'. split; [exact E|].
    rewrite Ho', Hr', Ho, Hr, <- app_assoc. simpl. split; [reflexivity|lia].
  - exists (column + 1), w1. split; [reflexivity|].
    replace (Z.to_nat (tabsize opts - (column + 1))) with 0%nat by lia.
    rewrite Ho, Hr. simpl. split; [reflexivity|lia].
Qed.

Lemma tab_loop_expands flag_format line_flag :
  0 < tabsize opts ->
  forall text fuel tab column counter w,
    (length text <= fuel)%nat ->
    0 <= column < tabsize opts ->
    Forall (fun c => c = "009"%char \/ ordinary c) text ->
    (length (expand_from column text) <= room w)%nat ->
    output_bytes
      (trace (tab_loop fuel flag_format line_flag
                (mk_tab_state text tab column counter w)))
    = output_bytes (trace w) ++ expand_from column text.
Proof.
  intros Hts text.
  induction text as [|c t' IH];
    intros fuel tab column counter w Hfuel Hcol Hall Hroom.
  - destruct fuel; simpl; rewrite app_nil_r; reflexivity.
  - destruct fuel as [|fuel]; [simpl in Hfuel; lia|].
    simpl in Hfuel. inversion Hall as [|? ? Hc Hrest]; subst.
    cbn [tab_loop ts_t]. unfold tab_turn.
    cbn [ts_world ts_counter ts_tab ts_column].
    set (cw := if polled (mk_tab_state (c :: t') tab column counter w)
               then (0, process_signals w) else (counter + 1, w)).
    assert (Hcw : output_bytes (trace (snd cw)) = output_bytes (trace w)
                  /\ room (snd cw) = room w).
    { subst cw. destruct (polled _); cbn [snd];
        [apply process_signals_output|split; reflexivity]. }
    destruct cw as [counter0 w0]. cbn [snd] in Hcw. destruct Hcw as [Ho0 Hr0].
    cbn [expand_from] in Hroom |- *. unfold tab_switch.
    destruct (Ascii.eqb_spec c "009"%char) as [Htab|Hntab].
    + rewrite length_app, repeat_length in Hroom.
      destruct (put_spaces_room (spaces_fuel column (tabsize opts)) column w0)
        as (column' & w1 & E & Ho1 & Hr1);
        [lia|unfold spaces_fuel; lia|rewrite Hr0; lia|].
      rewrite E. rewrite IH; [|lia|lia|exact Hrest|rewrite Hr1, Hr0; lia].
      rewrite Ho1, Ho0, <- app_assoc. reflexivity.
    + destruct Hc as [Hc|Hc]; [contradiction|].
      destruct Hc as (_ & Hcr & Hbs & Hscan).
      destruct (Ascii.eqb_spec c "013"%char) as [?|_]; [contradiction|].
      destruct (Ascii.eqb_spec c "008"%char) as [?|_]; [contradiction|].
      destruct (Hscan t') as (Hlen & Herr & Hprint & Hwidth).
      rewrite Hlen, Herr, Hprint, Hwidth.
      change (Pos.to_nat 1) with 1%nat.
      change (take 1 (c :: t')) with [c]. change (drop 1 (c :: t')) with t'.
      cbn [length] in Hroom.
      destruct (fwrite_output [c] w0) as (Ho1 & Hr1 & Hn1);
        [rewrite Hr0; simpl; lia|].
      destruct (fwrite [c] w0) as [n w1]. cbn [fst snd] in Ho1, Hr1, Hn1.
      subst n. cbn [length Nat.eqb negb].
      assert (Hrem : Z.rem (column + 1) (tabsize opts)
                     = (column + 1) mod tabsize opts)
        by (apply Z.rem_mod_nonneg; lia).
      rewrite Hrem.
      rewrite IH;
        [|lia|apply Z.mod_pos_bound; lia|exact Hrest
         |rewrite Hr1, Hr0; simpl; lia].
      rewrite Ho1, Ho0, <- app_assoc. reflexivity.
Qed.

(** X8.  With -t, a line made of tabs and of ordinary one-column
    characters is written with every tab replaced by the blanks that
    lead to the next multiple of the tab size, at least one. *)
Theorem output_1_line_expands_tabs (text : list ascii)
    (flag_format : option flag_fmt) (line_flag : option (list ascii))
    (w : world) :
  expand_tabs opts = true ->
  0 < tabsize opts ->
  Forall (fun c => c = "009"%char \/ ordinary c) text ->
  (length (expand_from 0 text) <= room w)%nat ->
  output_bytes (trace (output_1_line text flag_format line_flag w))
  = output_bytes (trace w) ++ expand_from 0 text.
Proof.
  intros Htabs Hts Hall Hroom. unfold output_1_line. rewrite Htabs.
  cbn [negb]. apply tab_loop_expands; try assumption; lia.
Qed.

(** *** Carriage returns *)

(** The loop on tabs and ordinary characters that stand before other
    bytes. *)
Lemma tab_loop_prefix flag_format line_flag :
  0 < tabsize opts ->
  forall text rest fuel tab column counter w,
    0 <= column < tabsize opts ->
    Forall (fun c => c = "009"%char \/ ordinary c) text ->
    (length (expand_from column text) <= room w)%nat ->
    exists tab' column' counter' w',
      tab_loop (length text + fuel) flag_format line_flag
        (mk_tab_state (text ++ rest) tab column counter w)
      = tab_loop fuel flag_format line_flag
          (mk_tab_state rest tab' column' counter' w')
      /\ output_bytes (trace w')
         = output_bytes (trace w) ++ expand_from column text
      /\ room w' = (room w - length (expand_from column text))%nat.
Proof.
  intros Hts text rest.
  induction text as [|c t' IH];
    intros fuel tab column counter w Hcol Hall Hroom.
  - exists tab, column, counter, w. cbn [length app expand_from Nat.add].
    rewrite app_nil_r, Nat.sub_0_r. auto.
  - inversion Hall as [|? ? Hc Hrest]; subst.
    cbn [length Nat.add app tab_loop ts_t]. unfold tab_turn.
    cbn [ts_world ts_counter ts_tab ts_column].
    set (cw := if polled (mk_tab_state (c :: t' ++ rest) tab column counter w)
               then (0, process_signals w) else (counter + 1, w)).
    assert (Hcw : output_bytes (trace (snd cw)) = output_bytes (trace w)
                  /\ room (snd cw) = room w).
    { subst cw. destruct (polled _); cbn [snd];
        [apply process_signals_output|split; reflexivity]. }
    destruct cw as [counter0 w0]. cbn [snd] in Hcw. destruct Hcw as [Ho0 Hr0].
    cbn [expand_from] in Hroom |- *. unfold tab_switch.
    destruct (Ascii.eqb_spec c "009"%char) as [Htab|Hntab].
    + rewrite length_app, repeat_length in Hroom |- *.
      destruct (put_spaces_room (spaces_fuel column (tabsize opts)) column w0)
        as (column' & w1 & E & Ho1 & Hr1);
        [lia|unfold spaces_fuel; lia|rewrite Hr0; lia|].
      rewrite E.
      destruct (IH fuel (tab + 1) 0 counter0 w1)
        as (tab2 & column2 & counter2 & w2 & E2 & Ho2 & Hr2);
        [lia|exact Hrest|rewrite Hr1, Hr0; lia|].
      exists tab2, column2, counter2, w2. split; [exact E2|].
      rewrite Ho2, Hr2, Ho1, Hr1, Ho0, Hr0, <- app_assoc.
      split; [reflexivity|lia].
    + destruct Hc as [Hc|Hc]; [contradiction|].
      destruct Hc as (_ & Hcr & Hbs & Hscan).
      destruct (Ascii.eqb_spec c "013"%char) as [?|_]; [contradiction|].
      destruct (Ascii.eqb_spec c "008"%char) as [?|_]; [contradiction|].
      destruct (Hscan (t' ++ rest)) as (Hlen & Herr & Hprint & Hwidth).
      rewrite Hlen, Herr, Hprint, Hwidth.
      change (Pos.to_nat 1) with 1%nat.
      change (take 1 (c :: t' ++ rest)) with [c].
      change (drop 1 (c :: t' ++ rest)) with (t' ++ rest).
      cbn [length] in Hroom |- *.
      destruct (fwrite_output [c] w0) as (Ho1 & Hr1 & Hn1);
        [rewrite Hr0; simpl; lia|].
      destruct (fwrite [c] w0) as [n w1]. cbn [fst snd] in Ho1, Hr1, Hn1.
      subst n. cbn [length Nat.eqb negb].
      assert (Hrem : Z.rem (column + 1) (tabsize opts)
                     = (column + 1) mod tabsize opts)
        by (apply Z.rem_mod_nonneg; lia).
      rewrite Hrem.
      destruct (IH fuel (tab + Z.quot (column + 1) (tabsize opts))
                  ((column + 1) mod tabsize opts) counter0 w1)
        as (tab2 & column2 & counter2 & w2 & E2 & Ho2 & Hr2);
        [apply Z.mod_pos_bound; lia|exact Hrest
        |rewrite Hr1, Hr0; simpl; lia|].
      exists tab2, column2, counter2, w2. split; [exact E2|].
      rewrite Ho2, Hr2, Ho1, Hr1, Ho0, Hr0, <- app_assoc.
      split; [reflexivity|simpl; lia].
Qed.

(** X26.  With -t, the line flag is written again after a carriage
    return inside a line, and not after one that ends it.  For a line
    of tabs and ordinary characters with one carriage return, followed
    by more such text or by the newline alone, output_1_line writes the
    text before the carriage return with its tabs expanded, the
    carriage return, then, when there is a flag format and the next
    byte is no newline, the line flag in this format, and then the rest
    with its tabs expanded from column 0 again. *)
Theorem output_1_line_carriage_return (text1 text2 : list ascii)
    (flag_format : option flag_fmt) (line_flag : option (list ascii))
    (w : world) :
  expand_tabs opts = true ->
  0 < tabsize opts ->
  Forall (fun c => c = "009"%char \/ ordinary c) text1 ->
  text2 = [newline] \/ Forall (fun c => c = "009"%char \/ ordinary c) text2 ->
  let again :=
    match flag_format, text2 with
    | Some fmt, c :: _ =>
        if Ascii.eqb c newline then []
        else format_flag fmt (default [] line_flag)
    | _, _ => []
    end in
  let out := expand_from 0 text1 ++ "013"%char :: again ++ expand_from 0 text2 in
  (length out <= room w)%nat ->
  output_bytes
    (trace (output_1_line (text1 ++ "013"%char :: text2) flag_format line_flag
              w))
  = output_bytes (trace w) ++ out.
Proof.
  intros Htabs Hts Hall1 Hall2 again out Hroom. subst out.
  rewrite !length_app in Hroom. cbn [length] in Hroom.
  rewrite length_app in Hroom.
  unfold output_1_line. rewrite Htabs. cbn [negb].
  rewrite length_app. cbn [length].
  destruct (tab_loop_prefix flag_format line_flag Hts text1
              ("013"%char :: text2) (S (length text2)) 0 0 0 w)
    as (tab1 & column1 & counter1 & w1 & E & Ho1 & Hr1);
    [lia|exact Hall1|lia|].
  rewrite E. clear E.
  cbn [tab_loop ts_t]. unfold tab_turn.
  cbn [ts_world ts_counter ts_tab ts_column].
  set (cw := if polled (mk_tab_state ("013"%char :: text2) tab1 column1
                          counter1 w1)
             then (0, process_signals w1) else (counter1 + 1, w1)).
  assert (Hcw : output_bytes (trace (snd cw)) = output_bytes (trace w1)
                /\ room (snd cw) = room w1).
  { subst cw. destruct (polled _); cbn [snd];
      [apply process_signals_output|split; reflexivity]. }
  destruct cw as [counter0 w0]. cbn [snd] in Hcw. destruct Hcw as [Ho0 Hr0].
  unfold tab_switch.
  change (Ascii.eqb "013"%char "009"%char) with false.
  change (Ascii.eqb "013"%char "013"%char) with true. cbv iota.
  destruct (fprintf_output ["013"%char] w0) as (Ho2 & Hr2 & Hok2);
    [rewrite Hr0, Hr1; simpl; lia|].
  unfold putc. destruct (fprintf ["013"%char] w0) as [ok w2].
  cbn [fst snd] in Ho2, Hr2, Hok2. subst ok. cbn [negb].
  assert (Hrest : forall counter w3,
             output_bytes (trace w3)
             = output_bytes (trace w) ++ expand_from 0 text1
               ++ "013"%char :: again ->
             (length (expand_from 0 text2) <= room w3)%nat ->
             output_bytes
               (trace (tab_loop (length text2) flag_format line_flag
                         (mk_tab_state text2 0 0 counter w3)))
             = output_bytes (trace w)
               ++ expand_from 0 text1 ++ "013"%char :: again
               ++ expand_from 0 text2).
  { intros counter w3 Ho3 Hroom3.
    destruct Hall2 as [->|Hall2].
    - cbn [length tab_loop ts_t]. unfold tab_turn.
      cbn [ts_world ts_counter ts_tab ts_column].
      set (cw := if polled (mk_tab_state [newline] 0 0 counter w3)
                 then (0, process_signals w3) else (counter + 1, w3)).
      assert (Hcw : output_bytes (trace (snd cw)) = output_bytes (trace w3)
                    /\ room (snd cw) = room w3).
      { subst cw. destruct (polled _); cbn [snd];
          [apply process_signals_output|split; reflexivity]. }
      destruct cw as [counter4 w4]. cbn [snd] in Hcw.
      destruct Hcw as [Ho4 Hr4].
      unfold tab_switch.
      change (Ascii.eqb newline "009"%char) with false.
      change (Ascii.eqb newline "013"%char) with false.
      change (Ascii.eqb newline "008"%char) with false. cbv iota.
      assert (Htake : take (Pos.to_nat (mcel_len (mcel_scan [newline])))
                        [newline] = [newline]).
      { pose proof (Pos2Nat.is_pos (mcel_len (mcel_scan [newline]))) as Hpos.
        destruct (Pos.to_nat (mcel_len (mcel_scan [newline]))) as [|k];
          [lia|]. cbn [take]. rewrite take_nil. reflexivity. }
      assert (Hdrop : drop (Pos.to_nat (mcel_len (mcel_scan [newline])))
                        [newline] = []).
      { pose proof (Pos2Nat.is_pos (mcel_len (mcel_scan [newline]))) as Hpos.
        destruct (Pos.to_nat (mcel_len (mcel_scan [newline]))) as [|k];
          [lia|]. cbn [drop]. apply drop_nil. }
      rewrite Htake, Hdrop.
      cbn [expand_from length] in Hroom3 |- *.
      change (Ascii.eqb newline "009"%char) with false in Hroom3 |- *.
      cbv iota in Hroom3 |- *. cbn [length expand_from] in Hroom3.
      destruct (fwrite_output [newline] w4) as (Ho5 & Hr5 & Hn5);
        [rewrite Hr4; simpl; lia|].
      destruct (fwrite [newline] w4) as [n w5].
      cbn [fst snd] in Ho5, Hr5, Hn5.
      assert (Hout : output_bytes (trace w5)
                     = output_bytes (trace w)
                       ++ expand_from 0 text1
                       ++ "013"%char :: again ++ [newline]).
      { rewrite Ho5, Ho4, Ho3, <- !app_assoc. reflexivity. }
      destruct (negb (n =? Pos.to_nat (mcel_len (mcel_scan [newline])))%nat);
        [exact Hout|].
      cbn [tab_loop ts_t ts_world]. exact Hout.
    - rewrite (tab_loop_expands flag_format line_flag Hts text2
                 (length text2) 0 0 counter w3 (le_n _) ltac:(lia) Hall2
                 Hroom3).
      rewrite Ho3, <- !app_assoc. reflexivity. }
  assert (Hcr : output_bytes (trace w2)
                = output_bytes (trace w) ++ expand_from 0 text1
                  ++ ["013"%char]).
  { rewrite Ho2, Ho0, Ho1, <- app_assoc. reflexivity. }
  assert (Hroom2 : room w2
                   = (room w - length (expand_from 0 text1) - 1)%nat).
  { rewrite Hr2, Hr0, Hr1. simpl. lia. }
  subst again.
  destruct flag_format as [fmt|]; destruct text2 as [|c' text2'].
  - apply Hrest; [|rewrite Hroom2; simpl; lia].
    rewrite Hcr. reflexivity.
  - destruct (Ascii.eqb c' newline) eqn:Enl; cbn [negb].
    + apply Hrest; [rewrite Hcr; reflexivity|].
      rewrite Hroom2. cbn [length app] in Hroom. lia.
    + destruct (fprintf_output (format_flag fmt (default [] line_flag)) w2)
        as (Ho3 & Hr3 & Hok3); [rewrite Hroom2; lia|].
      destruct (fprintf (format_flag fmt (default [] line_flag)) w2)
        as [ok w3].
      cbn [fst snd] in Ho3, Hr3, Hok3. subst ok. cbn [negb].
      apply Hrest; [|rewrite Hr3, Hroom2; lia].
      rewrite Ho3, Hcr, <- !app_assoc. reflexivity.
  - apply Hrest; [|rewrite Hroom2; simpl; lia].
    rewrite Hcr. reflexivity.
  - apply Hrest; [rewrite Hcr; reflexivity|].
    rewrite Hroom2. cbn [length app] in Hroom. lia.
Qed.


(** *** Backspaces *)

(** The text of a line as it is written with -t, with the column
    counted from the start of the line: a tab becomes the blanks that
    lead to the next tab stop, a backspace moves one column back, and a
    backspace in column 0 is left out. *)
Fixpoint expand_at (pos : Z) (text : list ascii) : list ascii :=
  match text with
  | [] => []
  | c :: t =>
      if Ascii.eqb c "009"%char then
        repeat " "%char (Z.to_nat (tabsize opts - pos mod tabsize opts))
        ++ expand_at (pos + (tabsize opts - pos mod tabsize opts)) t
      else if Ascii.eqb c "008"%char then
        if 0 <? pos then "008"%char :: expand_at (pos - 1) t
        else expand_at pos t
      else c :: expand_at (pos + 1) t
  end.

Lemma tab_loop_backspaces flag_format line_flag :
  0 < tabsize opts ->
  forall text fuel tab column counter w,
    (length text <= fuel)%nat ->
    0 <= tab -> 0 <= column < tabsize opts ->
    Forall (fun c => c = "009"%char \/ c = "008"%char \/ ordinary c) text ->
    (length (expand_at (tab * tabsize opts + column) text) <= room w)%nat ->
    output_bytes
      (trace (tab_loop fuel flag_format line_flag
                (mk_tab_state text tab column counter w)))
    = output_bytes (trace w) ++ expand_at (tab * tabsize opts + column) text.
Proof.
  clear lin_bits_pos. intros Hts text.
  induction text as [|c t' IH];
    intros fuel tab column counter w Hfuel Htab Hcol Hall Hroom.
  - destruct fuel; simpl; rewrite app_nil_r; reflexivity.
  - destruct fuel as [|fuel]; [simpl in Hfuel; lia|].
    simpl in Hfuel. inversion Hall as [|? ? Hc Hrest]; subst.
    cbn [tab_loop ts_t]. unfold tab_turn.
    cbn [ts_world ts_counter ts_tab ts_column].
    set (cw := if polled (mk_tab_state (c :: t') tab column counter w)
               then (0, process_signals w) else (counter + 1, w)).
    assert (Hcw : output_bytes (trace (snd cw)) = output_bytes (trace w)
                  /\ room (snd cw) = room w).
    { subst cw. destruct (polled _); cbn [snd];
        [apply process_signals_output|split; reflexivity]. }
    destruct cw as [counter0 w0]. cbn [snd] in Hcw. destruct Hcw as [Ho0 Hr0].
    assert (Hmod : (tab * tabsize opts + column) mod tabsize opts = column).
    { rewrite Z.add_comm, Z.mod_add by lia. apply Z.mod_small. exact Hcol. }
    cbn [expand_at] in Hroom |- *. unfold tab_switch.
    destruct (Ascii.eqb_spec c "009"%char) as [Hctab|Hntab].
    + rewrite Hmod in Hroom |- *.
      rewrite length_app, repeat_length in Hroom.
      destruct (put_spaces_room (spaces_fuel column (tabsize opts)) column w0)
        as (column' & w1 & E & Ho1 & Hr1);
        [lia|unfold spaces_fuel; lia|rewrite Hr0; lia|].
      rewrite E.
      replace (tab * tabsize opts + column + (tabsize opts - column))
        with ((tab + 1) * tabsize opts + 0) in Hroom |- * by lia.
      rewrite IH; [|lia|lia|lia|exact Hrest|rewrite Hr1, Hr0; lia].
      rewrite Ho1, Ho0, <- app_assoc. reflexivity.
    + destruct (Ascii.eqb_spec c "013"%char) as [Hccr|_].
      { destruct Hc as [?|[?|Hc]]; [contradiction|congruence|].
        destruct Hc as (_ & Hcr & _). contradiction. }
      destruct (Ascii.eqb_spec c "008"%char) as [Hcbs|Hnbs].
      * destruct (Z.ltb_spec 0 column) as [Hpos|Hzero].
        -- assert (Hp : (0 <? tab * tabsize opts + column) = true)
             by (apply Z.ltb_lt; nia).
           rewrite Hp in Hroom |- *. cbn [length] in Hroom.
           destruct (fprintf_output ["008"%char] w0) as (Ho1 & Hr1 & Hok1);
             [rewrite Hr0; simpl; lia|].
           unfold putc. destruct (fprintf ["008"%char] w0) as [ok w1].
           cbn [fst snd] in Ho1, Hr1, Hok1. subst ok. cbn [negb].
           replace (tab * tabsize opts + column - 1)
             with (tab * tabsize opts + (column - 1)) in Hroom |- * by lia.
           rewrite IH;
             [|lia|lia|lia|exact Hrest|rewrite Hr1, Hr0; simpl; lia].
           rewrite Ho1, Ho0, <- app_assoc. reflexivity.
        -- assert (Hcol0 : column = 0) by lia. subst column.
           destruct (Z.ltb_spec 0 tab) as [Htpos|Htzero].
           ++ assert (Hp : (0 <? tab * tabsize opts + 0) = true)
                by (apply Z.ltb_lt; nia).
              rewrite Hp in Hroom |- *. cbn [length] in Hroom.
              destruct (fprintf_output ["008"%char] w0) as (Ho1 & Hr1 & Hok1);
                [rewrite Hr0; simpl; lia|].
              unfold putc. destruct (fprintf ["008"%char] w0) as [ok w1].
              cbn [fst snd] in Ho1, Hr1, Hok1. subst ok. cbn [negb].
              replace (tab * tabsize opts + 0 - 1)
                with ((tab - 1) * tabsize opts + (tabsize opts - 1))
                in Hroom |- * by lia.
              rewrite IH;
                [|lia|lia|lia|exact Hrest|rewrite Hr1, Hr0; simpl; lia].
              rewrite Ho1, Ho0, <- app_assoc. reflexivity.
           ++ assert (Htab0 : tab = 0) by lia. subst tab.
              change (0 <? 0 * tabsize opts + 0) with false in Hroom |- *.
              cbv iota in Hroom |- *.
              rewrite IH; [|lia|lia|lia|exact Hrest|rewrite Hr0; exact Hroom].
              rewrite Ho0. reflexivity.
      * destruct Hc as [?|[?|Hc]]; [contradiction|contradiction|].
        destruct Hc as (_ & _ & _ & Hscan).
        destruct (Hscan t') as (Hlen & Herr & Hprint & Hwidth).
        rewrite Hlen, Herr, Hprint, Hwidth.
        change (Pos.to_nat 1) with 1%nat.
        change (take 1 (c :: t')) with [c]. change (drop 1 (c :: t')) with t'.
        cbn [length] in Hroom.
        destruct (fwrite_output [c] w0) as (Ho1 & Hr1 & Hn1);
          [rewrite Hr0; simpl; lia|].
        destruct (fwrite [c] w0) as [n w1]. cbn [fst snd] in Ho1, Hr1, Hn1.
        subst n. cbn [length Nat.eqb negb].
        assert (Hrem : Z.rem (column + 1) (tabsize opts)
                       = (column + 1) mod tabsize opts)
          by (apply Z.rem_mod_nonneg; lia).
        assert (Hquot : Z.quot (column + 1) (tabsize opts)
                        = (column + 1) / tabsize opts)
          by (apply Z.quot_div_nonneg; lia).
        rewrite Hrem, Hquot.
        assert (Hpos : tab * tabsize opts + column + 1
                       = (tab + (column + 1) / tabsize opts) * tabsize opts
                         + (column + 1) mod tabsize opts).
        { pose proof (Z.div_mod (column + 1) (tabsize opts) ltac:(lia)).
          nia. }
        rewrite Hpos in Hroom |- *.
        rewrite IH;
          [|lia|apply Z.add_nonneg_nonneg; [lia|apply Z.div_pos; lia]
           |apply Z.mod_pos_bound; lia|exact Hrest
           |rewrite Hr1, Hr0; simpl; lia].
        rewrite Ho1, Ho0, <- app_assoc. reflexivity.
Qed.

(** X27.  With -t, output_1_line keeps track of the column through
    backspaces.  In a line made of tabs, backspaces and ordinary
    one-column characters, a backspace is written and moves one column
    back, also across a tab stop, so that a tab after it leads to the
    same tab stop again; a backspace in the first column of the line is
    not written. *)
Theorem output_1_line_backspaces (text : list ascii)
    (flag_format : option flag_fmt) (line_flag : option (list ascii))
    (w : world) :
  expand_tabs opts = true ->
  0 < tabsize opts ->
  Forall (fun c => c = "009"%char \/ c = "008"%char \/ ordinary c) text ->
  (length (expand_at 0 text) <= room w)%nat ->
  output_bytes (trace (output_1_line text flag_format line_flag w))
  = output_bytes (trace w) ++ expand_at 0 text.
Proof.
  intros Htabs Hts Hall Hroom. unfold output_1_line. rewrite Htabs.
  cbn [negb].
  change (expand_at 0 text) with (expand_at (0 * tabsize opts + 0) text)
    in Hroom |- *.
  apply tab_loop_backspaces; try assumption; lia.
Qed.


(** *** The line flag *)

(** X9.  Without -t, print_1_line_nl writes, for a line that ends in a
    newline and a line flag that is not empty, the flag, one separator
    (a tab under -T, a blank otherwise) and the text, without its
    newline when [skip_nl] is set.  Under suppress-blank-empty an empty
    line gets no separator, and a flag that starts with a blank is
    written without this blank.  A stream that stops accepting bytes
    gets the bytes that fit. *)
Theorem print_1_line_nl_flag (flag : list ascii) (text : line)
    (skip_nl : bool) (w : world) :
  expand_tabs opts = false ->
  flag <> [] ->
  last_byte text = newline ->
  let body := if skip_nl then removelast text else text in
  let separator := if initial_tab opts then "009"%char else " "%char in
  let out :=
    output_bytes (trace (print_1_line_nl (Some flag) text skip_nl w)) in
  (suppress_blank_empty opts && Ascii.eqb (byte_at text 0) newline = false ->
   out = output_bytes (trace w)
         ++ take (room w) (flag ++ separator :: body))
  /\ (suppress_blank_empty opts && Ascii.eqb (byte_at text 0) newline = true ->
      out = output_bytes (trace w)
            ++ take (room w)
                 ((if Ascii.eqb (default NUL (head flag)) " "%char
                   then tail flag else flag) ++ body)).
Proof.
  intros Htabs Hflag Hlast body separator out.
  destruct flag as [|c flag']; [contradiction|].
  assert (Hout : forall s,
             output_bytes
               (trace (output_1_line
                         (if skip_nl && Ascii.eqb (last_byte text) newline
                          then removelast text else text)
                         (Some (if initial_tab opts
                                then FMT_S_TAB else FMT_S_SPACE))
                         (Some (c :: flag')) (snd (fprintf s w))))
             = output_bytes (trace w) ++ take (room w) (s ++ body)).
  { intros s. destruct (fprintf_prefix s w) as [Ho Hr].
    unfold output_1_line. rewrite Htabs. cbn [negb].
    destruct (write_chunks_prefix
                (length (if skip_nl && Ascii.eqb (last_byte text) newline
                         then removelast text else text))
                (if skip_nl && Ascii.eqb (last_byte text) newline
                 then removelast text else text)
                (snd (fprintf s w)) (le_n _)) as [Ho' _].
    rewrite Ho', Ho, Hr, <- app_assoc, take_app. do 2 f_equal.
    subst body. rewrite Hlast, Ascii.eqb_refl, andb_true_r. reflexivity. }
  subst out. unfold print_1_line_nl.
  rewrite Hlast, Ascii.eqb_refl, andb_false_r.
  unfold print_line_text.
  split; intros Hbe; rewrite Hbe.
  - rewrite Hout. do 2 f_equal.
    subst separator. destruct (initial_tab opts); cbn [format_flag];
      rewrite <- app_assoc; reflexivity.
  - rewrite Hout. cbn [format_flag head default tail]. reflexivity.
Qed.

End PrintLine.

(** ** The palette: get_funky_string

    [*dest] and [*src] point into the same string, the palette, which
    get_funky_string rewrites in place.  [f_mem] holds the bytes of the
    string before its terminating NUL, [f_p] and [f_q] are the offsets
    of [p] and [q].  Bytes are unsigned here; the comparisons and the
    stored values of the C code are the same for a signed [char]. *)

Inductive funky_state : Type :=
  | ST_GND | ST_BACKSLASH | ST_OCTAL | ST_HEX | ST_CARET | ST_END | ST_ERROR.

Record funky : Type := mk_funky {
  f_mem : list ascii;
  f_p : nat;
  f_q : nat;
  f_num : ascii;
  f_state : funky_state
}.

(** [*p]: past the end of the list the byte read is the NUL. *)
Definition peek (mem : list ascii) (p : nat) : ascii := default NUL (mem !! p).

(** [*q = c]. *)
Definition poke (mem : list ascii) (q : nat) (c : ascii) : list ascii :=
  <[q := c]> mem.

(** [state < ST_END] *)
Definition funky_running (st : funky_state) : bool :=
  match st with
  | ST_END | ST_ERROR => false
  | _ => true
  end.

Definition digit_value (c zero : ascii) : N := N_of_ascii c - N_of_ascii zero.

(** [N_of_ascii] of the result is the argument modulo 256. *)
Definition char_of_N (n : N) : ascii := ascii_of_N n.

(** [*(q++) = c] with the next state. *)
Definition funky_emit (m : funky) (c : ascii) (p : nat) (st : funky_state)
    : funky :=
  mk_funky (poke (f_mem m) (f_q m) c) p (S (f_q m)) (f_num m) st.

(** One turn of [while (state < ST_END)]. *)
Definition funky_step (equals_end : bool) (m : funky) : funky :=
  let mem := f_mem m in
  let p := f_p m in
  let q := f_q m in
  let num := f_num m in
  let c := peek mem p in
  match f_state m with
  | ST_GND =>
      match c with
      | ":"%char | "000"%char => mk_funky mem p q num ST_END
      | "\"%char => mk_funky mem (S p) q num ST_BACKSLASH
      | "^"%char => mk_funky mem (S p) q num ST_CARET
      | "="%char =>
          if equals_end then mk_funky mem p q num ST_END
          else funky_emit m c (S p) ST_GND
      | _ => funky_emit m c (S p) ST_GND
      end
  | ST_BACKSLASH =>
      let '(state, num) :=
        match c with
        | "0"%char | "1"%char | "2"%char | "3"%char
        | "4"%char | "5"%char | "6"%char | "7"%char =>
            (ST_OCTAL, char_of_N (digit_value c "0"))
        | "x"%char | "X"%char => (ST_HEX, NUL)
        | "a"%char => (ST_BACKSLASH, "007"%char)
        | "b"%char => (ST_BACKSLASH, "008"%char)
        | "e"%char => (ST_BACKSLASH, "027"%char)
        | "f"%char => (ST_BACKSLASH, "012"%char)
        | "n"%char => (ST_BACKSLASH, "010"%char)
        | "r"%char => (ST_BACKSLASH, "013"%char)
        | "t"%char => (ST_BACKSLASH, "009"%char)
        | "v"%char => (ST_BACKSLASH, "011"%char)
        | "?"%char => (ST_BACKSLASH, "127"%char)
        | "_"%char => (ST_BACKSLASH, " "%char)
        | "000"%char => (ST_ERROR, num)
        | _ => (ST_BACKSLASH, c)
        end in
      match state with
      | ST_BACKSLASH =>
          mk_funky (poke mem q num) (S p) (S q) num ST_GND
      | _ => mk_funky mem (S p) q num state
      end
  | ST_OCTAL =>
      if (N_of_ascii c <? N_of_ascii "0")%N || (N_of_ascii "7" <? N_of_ascii c)%N
      then funky_emit m num p ST_GND
      else
        mk_funky mem (S p) q
          (char_of_N (N.shiftl (N_of_ascii num) 3 + digit_value c "0"))
          ST_OCTAL
  | ST_HEX =>
      match c with
      | "0"%char | "1"%char | "2"%char | "3"%char | "4"%char
      | "5"%char | "6"%char | "7"%char | "8"%char | "9"%char =>
          mk_funky mem (S p) q
            (char_of_N (N.shiftl (N_of_ascii num) 4 + digit_value c "0"))
            ST_HEX
      | "a"%char | "b"%char | "c"%char | "d"%char | "e"%char | "f"%char =>
          mk_funky mem (S p) q
            (char_of_N (N.shiftl (N_of_ascii num) 4 + digit_value c "a" + 10))
            ST_HEX
      | "A"%char | "B"%char | "C"%char | "D"%char | "E"%char | "F"%char =>
          mk_funky mem (S p) q
            (char_of_N (N.shiftl (N_of_ascii num) 4 + digit_value c "A" + 10))
            ST_HEX
      | _ => funky_emit m num p ST_GND
      end
  | ST_CARET =>
      if (N_of_ascii "@" <=? N_of_ascii c)%N && (N_of_ascii c <=? N_of_ascii "~")%N
      then funky_emit m (char_of_N (N.land (N_of_ascii c) 31)) (S p) ST_GND
      else if Ascii.eqb c "?"%char
      then funky_emit m "127"%char p ST_GND
      else mk_funky mem p q num ST_ERROR
  | ST_END | ST_ERROR => m
  end.

Fixpoint funky_run (fuel : nat) (equals_end : bool) (m : funky) : funky :=
  match fuel with
  | O => m
  | S fuel' =>
      if funky_running (f_state m)
      then funky_run fuel' equals_end (funky_step equals_end m)
      else m
  end.

(** The result of get_funky_string: the string as rewritten, the new
    values of [*dest] and [*src], and the value returned. *)
Record funky_result : Type := mk_funky_result {
  fr_mem : list ascii;
  fr_dest : nat;
  fr_src : nat;
  fr_ok : bool
}.

Definition funky_fuel (mem : list ascii) : nat := S (S (2 * length mem)).

Definition get_funky_string (mem : list ascii) (dest src : nat)
    (equals_end : bool) : funky_result :=
  let m := funky_run (funky_fuel mem) equals_end
             (mk_funky mem src dest NUL ST_GND) in
  mk_funky_result (f_mem m) (f_q m) (f_p m)
    (match f_state m with ST_ERROR => false | _ => true end).

(** *** One turn of get_funky_string *)

(** A byte consumed for which nothing was written so far: the states
    inside an escape owe one byte to the output. *)
Definition pending (st : funky_state) : nat :=
  match st with
  | ST_BACKSLASH | ST_OCTAL | ST_HEX | ST_CARET => 1
  | ST_GND | ST_END | ST_ERROR => 0
  end.

(** The turns the loop still makes are at most this many. *)
Definition funky_measure (m : funky) : nat :=
  2 * (length (f_mem m) - f_p m) + pending (f_state m).

Lemma peek_lt mem p : peek mem p <> NUL -> (p < length mem)%nat.
Proof.
  unfold peek. destruct (mem !! p) eqn:E.
  - intros _. eapply lookup_lt_Some, E.
  - intros H. contradiction H. reflexivity.
Qed.

Lemma poke_length mem q c : length (poke mem q c) = length mem.
Proof. apply length_insert. Qed.

Lemma poke_other mem q c i : q <> i -> poke mem q c !! i = mem !! i.
Proof. intros H. apply list_lookup_insert_ne, H. Qed.

Lemma funky_step_effect equals_end m :
  funky_running (f_state m) = true ->
  let m' := funky_step equals_end m in
  length (f_mem m') = length (f_mem m)
  /\ (f_q m' + pending (f_state m') + f_p m
      <= f_p m' + f_q m + pending (f_state m))%nat
  /\ (f_p m <= f_p m')%nat /\ (f_q m <= f_q m')%nat
  /\ (funky_running (f_state m') = true ->
      (funky_measure m' < funky_measure m)%nat)
  /\ ((f_q m + pending (f_state m) <= f_p m)%nat ->
      forall i, (f_p m' <= i)%nat -> f_mem m' !! i = f_mem m !! i).
Proof.
  destruct m as [mem p q num st]. unfold funky_measure.
  cbn [f_state f_mem f_p f_q]. intros Hrun.
  pose proof (peek_lt mem p) as Hlt.
  unfold funky_step, funky_emit. cbn [f_state f_mem f_p f_q f_num].
  destruct st; try discriminate Hrun; clear Hrun;
    destruct (peek mem p) as [[] [] [] [] [] [] [] []];
    try destruct equals_end;
    repeat match goal with
    | |- context [if ?b then _ else _] =>
        let v := eval vm_compute in b in change b with v; cbv iota
    end;
    cbn [f_state f_mem f_p f_q pending funky_running];
    rewrite ?poke_length;
    repeat match goal with |- _ /\ _ => split end;
    intros;
    first
      [ lia
      | discriminate
      | reflexivity
      | apply poke_other; lia
      | assert (p < length mem)%nat by (apply Hlt; discriminate); lia ].
Qed.

Lemma funky_run_stopped equals_end fuel m :
  funky_running (f_state m) = false -> funky_run fuel equals_end m = m.
Proof. intros H. destruct fuel; cbn [funky_run]; rewrite ?H; reflexivity. Qed.

Lemma funky_run_effect equals_end fuel :
  forall m,
    let m' := funky_run fuel equals_end m in
    length (f_mem m') = length (f_mem m)
    /\ (f_q m' + pending (f_state m') + f_p m
        <= f_p m' + f_q m + pending (f_state m))%nat
    /\ (f_p m <= f_p m')%nat /\ (f_q m <= f_q m')%nat
    /\ ((funky_measure m < fuel)%nat -> funky_running (f_state m') = false)
    /\ ((f_q m + pending (f_state m) <= f_p m)%nat ->
        forall i, (f_p m' <= i)%nat -> f_mem m' !! i = f_mem m !! i).
Proof.
  induction fuel as [|fuel IH]; intros m; cbn [funky_run].
  - cbv zeta. repeat match goal with |- _ /\ _ => split end; auto; lia.
  - destruct (funky_running (f_state m)) eqn:Hrun.
    + destruct (funky_step_effect equals_end m Hrun)
        as (Hl & Hc & Hp & Hq & Hm & Hf).
      destruct (IH (funky_step equals_end m))
        as (IHl & IHc & IHp & IHq & IHm & IHf).
      cbv zeta. repeat match goal with |- _ /\ _ => split end.
      * congruence.
      * lia.
      * lia.
      * lia.
      * intros Hfuel.
        destruct (funky_running (f_state (funky_step equals_end m))) eqn:Hrun'.
        -- apply IHm. specialize (Hm eq_refl). lia.
        -- rewrite funky_run_stopped by exact Hrun'. exact Hrun'.
      * intros Hinv i Hi. rewrite IHf by lia. apply Hf; [exact Hinv|lia].
    + cbv zeta. repeat match goal with |- _ /\ _ => split end; auto; lia.
Qed.

(** The loop of get_funky_string ends within the fuel it is given. *)
Lemma get_funky_string_terminates mem dest src equals_end :
  funky_running
    (f_state (funky_run (funky_fuel mem) equals_end
                (mk_funky mem src dest NUL ST_GND))) = false.
Proof.
  apply funky_run_effect. unfold funky_measure, funky_fuel.
  cbn [f_mem f_p f_state pending]. lia.
Qed.

(** C10.  get_funky_string advances [*dest] by no more than it advances
    [*src]; when [*dest] does not start after [*src] it does not end
    after it, and no byte at or after the final [*src] has changed. *)
Theorem get_funky_string_advance (mem : list ascii) (dest src : nat)
    (equals_end : bool) :
  let r := get_funky_string mem dest src equals_end in
  (dest <= fr_dest r)%nat /\ (src <= fr_src r)%nat
  /\ (fr_dest r - dest <= fr_src r - src)%nat
  /\ length (fr_mem r) = length mem
  /\ ((dest <= src)%nat ->
      (fr_dest r <= fr_src r)%nat
      /\ forall i, (fr_src r <= i)%nat -> fr_mem r !! i = mem !! i).
Proof.
  unfold get_funky_string. cbn [fr_dest fr_src fr_mem].
  destruct (funky_run_effect equals_end (funky_fuel mem)
              (mk_funky mem src dest NUL ST_GND))
    as (Hl & Hc & Hp & Hq & _ & Hf).
  cbn [f_mem f_p f_q f_state pending] in *.
  split; [lia|]. split; [lia|]. split; [lia|]. split; [exact Hl|].
  intros Hds. split; [lia|]. apply Hf. lia.
Qed.

(** *** Where get_funky_string reads, writes and stops *)

(** A byte at which the ground state ends the string. *)
Definition funky_terminator (equals_end : bool) (c : ascii) : bool :=
  Ascii.eqb c ":"%char || Ascii.eqb c NUL
  || (equals_end && Ascii.eqb c "="%char).

(** A byte that the ground state copies. *)
Definition funky_plain (equals_end : bool) (c : ascii) : bool :=
  negb (funky_terminator equals_end c)
  && negb (Ascii.eqb c "\"%char) && negb (Ascii.eqb c "^"%char).

(** A byte that may follow a caret. *)
Definition caret_ok (c : ascii) : bool :=
  ((N_of_ascii "@" <=? N_of_ascii c)%N && (N_of_ascii c <=? N_of_ascii "~")%N)
  || Ascii.eqb c "?"%char.

(** In the states that follow a backslash or a caret, the byte before
    [p] is that backslash or caret. *)
Definition prev_ok (m : funky) : Prop :=
  match f_state m with
  | ST_BACKSLASH =>
      (1 <= f_p m)%nat /\ peek (f_mem m) (f_p m - 1) = "\"%char
  | ST_CARET =>
      (1 <= f_p m)%nat /\ peek (f_mem m) (f_p m - 1) = "^"%char
  | _ => True
  end.

Lemma funky_step_shape equals_end m :
  funky_running (f_state m) = true ->
  let m' := funky_step equals_end m in
  let c := peek (f_mem m) (f_p m) in
  ((f_mem m' = f_mem m /\ f_q m' = f_q m)
   \/ (f_q m' = S (f_q m)
       /\ forall i, i <> f_q m -> f_mem m' !! i = f_mem m !! i))
  /\ (f_state m' = ST_END ->
      f_mem m' = f_mem m /\ f_p m' = f_p m
      /\ funky_terminator equals_end c = true)
  /\ (f_state m' = ST_ERROR ->
      f_mem m' = f_mem m /\ f_q m' = f_q m
      /\ ((f_state m = ST_BACKSLASH /\ c = NUL /\ f_p m' = S (f_p m))
          \/ (f_state m = ST_CARET /\ caret_ok c = false
              /\ f_p m' = f_p m)))
  /\ (f_state m' = ST_BACKSLASH ->
      f_mem m' = f_mem m /\ f_p m' = S (f_p m) /\ c = "\"%char)
  /\ (f_state m' = ST_CARET ->
      f_mem m' = f_mem m /\ f_p m' = S (f_p m) /\ c = "^"%char)
  /\ (f_p m' = f_p m
      \/ (f_p m' = S (f_p m) /\ (c <> NUL \/ f_state m' = ST_ERROR)))
  /\ (f_state m = ST_GND -> funky_plain equals_end c = true ->
      m' = funky_emit m c (S (f_p m)) ST_GND).
Proof.
  destruct m as [mem p q num st].
  cbn [f_state f_mem f_p f_q]. intros Hrun.
  unfold funky_step, funky_emit. cbn [f_state f_mem f_p f_q f_num].
  destruct st; try discriminate Hrun; clear Hrun;
    destruct (peek mem p) as [[] [] [] [] [] [] [] []];
    destruct equals_end;
    repeat match goal with
    | |- context [if ?b then _ else _] =>
        let v := eval vm_compute in b in change b with v; cbv iota
    end;
    repeat match goal with
    | |- context [funky_terminator ?e ?c] =>
        let v := eval vm_compute in (funky_terminator e c) in
        change (funky_terminator e c) with v
    | |- context [funky_plain ?e ?c] =>
        let v := eval vm_compute in (funky_plain e c) in
        change (funky_plain e c) with v
    | |- context [caret_ok ?c] =>
        let v := eval vm_compute in (caret_ok c) in
        change (caret_ok c) with v
    end;
    cbn [f_state f_mem f_p f_q];
    repeat match goal with |- _ /\ _ => split end;
    intros;
    first
      [ discriminate
      | reflexivity
      | left; split; reflexivity
      | right; split; [reflexivity|intros; apply poke_other; congruence]
      | left; reflexivity
      | right; split; [reflexivity|left; discriminate]
      | right; split; [reflexivity|right; reflexivity]
      | repeat split; reflexivity
      | repeat split; first [reflexivity
                            | left; repeat split; reflexivity
                            | right; repeat split; reflexivity] ].
Qed.

Lemma funky_run_shape equals_end fuel :
  forall m,
    let m' := funky_run fuel equals_end m in
    (forall i, (i < f_q m)%nat \/ (f_q m' <= i)%nat ->
               f_mem m' !! i = f_mem m !! i)
    /\ (funky_running (f_state m) = true -> f_state m' = ST_END ->
        funky_terminator equals_end (peek (f_mem m') (f_p m')) = true)
    /\ (funky_running (f_state m) = true -> prev_ok m ->
        (f_q m + pending (f_state m) <= f_p m)%nat ->
        f_state m' = ST_ERROR ->
        ((f_q m' + 2 <= f_p m')%nat
         /\ peek (f_mem m') (f_p m' - 2) = "\"%char
         /\ peek (f_mem m') (f_p m' - 1) = NUL)
        \/ ((f_q m' + 1 <= f_p m')%nat
            /\ peek (f_mem m') (f_p m' - 1) = "^"%char
            /\ caret_ok (peek (f_mem m') (f_p m')) = false))
    /\ ((f_q m + pending (f_state m) <= f_p m)%nat ->
        (f_p m <= length (f_mem m))%nat ->
        (f_q m' <= length (f_mem m))%nat
        /\ (f_state m' <> ST_ERROR -> (f_p m' <= length (f_mem m))%nat)).
Proof.
  induction fuel as [|fuel IH]; intros m; cbn [funky_run].
  - cbv zeta. split; [reflexivity|].
    split; [intros Hrun He; rewrite He in Hrun; discriminate|].
    split; [intros Hrun _ _ He; rewrite He in Hrun; discriminate|].
    intros; split; intros; lia.
  - destruct (funky_running (f_state m)) eqn:Hrun.
    + destruct (funky_step_effect equals_end m Hrun)
        as (Hl & Hc & Hp & Hq & _ & _).
      destruct (funky_step_shape equals_end m Hrun)
        as (Hw & Hend & Herr & Hbs & Hcar & Hadv & _).
      destruct (funky_run_effect equals_end fuel (funky_step equals_end m))
        as (Hl' & _ & _ & Hq' & _ & _).
      destruct (IH (funky_step equals_end m)) as (IHa & IHb & IHc & IHd).
      set (m1 := funky_step equals_end m) in *.
      cbv zeta. split; [|split; [|split]].
      * intros i Hi. rewrite IHa by lia.
        destruct Hw as [[Hm _]|[Hq1 Hm]]; [rewrite Hm; reflexivity|].
        apply Hm. lia.
      * intros _ He.
        destruct (funky_running (f_state m1)) eqn:Hrun1; [auto|].
        rewrite (funky_run_stopped _ _ _ Hrun1) in He |- *.
        destruct (Hend He) as (Hm & Hp1 & Ht). rewrite Hm, Hp1. exact Ht.
      * intros _ Hprev Hinv He.
        destruct (funky_running (f_state m1)) eqn:Hrun1.
        -- apply IHc; [reflexivity| |lia|exact He].
           unfold prev_ok.
           destruct (f_state m1) eqn:Hs1; try exact I.
           ++ destruct (Hbs eq_refl) as (Hm & Hp1 & Hc1).
              rewrite Hm, Hp1. split; [lia|].
              replace (S (f_p m) - 1)%nat with (f_p m) by lia. exact Hc1.
           ++ destruct (Hcar eq_refl) as (Hm & Hp1 & Hc1).
              rewrite Hm, Hp1. split; [lia|].
              replace (S (f_p m) - 1)%nat with (f_p m) by lia. exact Hc1.
        -- rewrite (funky_run_stopped _ _ _ Hrun1) in He |- *.
           destruct (Herr He)
             as (Hm & Hq1 & [(Hs & Hc0 & Hp1)|(Hs & Hc0 & Hp1)]);
             unfold prev_ok in Hprev; rewrite Hs in Hprev, Hinv;
             cbn [pending] in Hinv;
             destruct Hprev as [Hp0 Hprev]; rewrite Hm, Hp1, Hq1.
           ++ left. split; [lia|].
              replace (S (f_p m) - 2)%nat with (f_p m - 1)%nat by lia.
              replace (S (f_p m) - 1)%nat with (f_p m) by lia.
              split; assumption.
           ++ right. split; [lia|]. split; assumption.
      * intros Hinv Hlen. rewrite <- Hl.
        destruct (funky_running (f_state m1)) eqn:Hrun1.
        -- apply IHd; [lia|].
           destruct Hadv as [Hp1|(Hp1 & [Hc0|He])]; [lia| |].
           ++ apply peek_lt in Hc0. lia.
           ++ rewrite He in Hrun1. discriminate.
        -- rewrite (funky_run_stopped _ _ _ Hrun1).
           destruct (f_state m1) eqn:Hs1; try discriminate Hrun1.
           ++ destruct (Hend eq_refl) as (_ & Hp1 & _).
              cbn [pending] in Hc. split; [lia|]. intros _. lia.
           ++ destruct (Herr eq_refl) as (_ & Hq1 & _).
              split; [lia|]. intros H. contradiction.
    + cbv zeta. split; [reflexivity|].
      split; [discriminate|]. split; [discriminate|].
      intros Hinv Hlen. split; [lia|]. intros; lia.
Qed.

(** What a call of get_funky_string leaves behind, for the callers in
    this file. *)
Lemma get_funky_string_effect mem dest src equals_end :
  let r := get_funky_string mem dest src equals_end in
  (dest <= fr_dest r)%nat /\ (src <= fr_src r)%nat
  /\ (fr_dest r - dest <= fr_src r - src)%nat
  /\ length (fr_mem r) = length mem
  /\ (forall i, (i < dest)%nat \/ (fr_dest r <= i)%nat ->
                fr_mem r !! i = mem !! i)
  /\ ((dest <= src)%nat -> (src <= length mem)%nat ->
      (fr_dest r <= length mem)%nat
      /\ (fr_ok r = true -> (fr_src r <= length mem)%nat)).
Proof.
  unfold get_funky_string. cbn [fr_dest fr_src fr_mem fr_ok].
  destruct (funky_run_effect equals_end (funky_fuel mem)
              (mk_funky mem src dest NUL ST_GND))
    as (Hl & Hc & Hp & Hq & _ & _).
  destruct (funky_run_shape equals_end (funky_fuel mem)
              (mk_funky mem src dest NUL ST_GND))
    as (Hfoot & _ & _ & Hbound).
  cbn [f_mem f_p f_q f_state pending] in *.
  split; [lia|]. split; [lia|]. split; [lia|]. split; [exact Hl|].
  split; [exact Hfoot|].
  intros Hds Hsrc. destruct Hbound as [Hb1 Hb2]; [lia|lia|].
  split; [exact Hb1|]. intros Hok. apply Hb2. intros He.
  rewrite He in Hok. discriminate.
Qed.

(** X10.  get_funky_string writes only the bytes from the initial
    [*dest] up to the final [*dest]: every byte before the first or from
    the second on is as it was, and the string keeps its length. *)
Theorem get_funky_string_footprint (mem : list ascii) (dest src : nat)
    (equals_end : bool) :
  let r := get_funky_string mem dest src equals_end in
  length (fr_mem r) = length mem
  /\ forall i, (i < dest)%nat \/ (fr_dest r <= i)%nat ->
               fr_mem r !! i = mem !! i.
Proof.
  destruct (get_funky_string_effect mem dest src equals_end)
    as (_ & _ & _ & Hl & Hfoot & _).
  split; assumption.
Qed.

(** X11.  When get_funky_string returns true, the final [*src] points
    at the byte that ended the string: a colon, the terminating NUL, or
    an equals sign when [equals_end] is set.  When [*dest] does not
    start after [*src], this is a byte of the string as it was given,
    and [*src] has not left the string. *)
Theorem get_funky_string_stops_at_terminator (mem : list ascii)
    (dest src : nat) (equals_end : bool) :
  let r := get_funky_string mem dest src equals_end in
  fr_ok r = true ->
  funky_terminator equals_end (peek (fr_mem r) (fr_src r)) = true
  /\ ((dest <= src)%nat ->
      funky_terminator equals_end (peek mem (fr_src r)) = true
      /\ ((src <= length mem)%nat -> (fr_src r <= length mem)%nat)).
Proof.
  intros r Hok.
  pose proof (get_funky_string_terminates mem dest src equals_end) as Hstop.
  assert (Hterm : funky_terminator equals_end (peek (fr_mem r) (fr_src r))
                  = true).
  { subst r. unfold get_funky_string in *.
    cbn [fr_dest fr_src fr_mem fr_ok] in *.
    destruct (funky_run_shape equals_end (funky_fuel mem)
                (mk_funky mem src dest NUL ST_GND)) as (_ & Hend & _).
    cbn [f_state] in Hend. apply Hend; [reflexivity|].
    destruct (f_state (funky_run (funky_fuel mem) equals_end
                         (mk_funky mem src dest NUL ST_GND)));
      try discriminate Hstop; [reflexivity|discriminate Hok]. }
  split; [exact Hterm|]. intros Hds.
  destruct (get_funky_string_effect mem dest src equals_end)
    as (Hd & Hs & Hadv & _ & Hfoot & Hbound).
  fold r in Hd, Hs, Hadv, Hfoot, Hbound. split.
  - unfold peek in *. rewrite <- (Hfoot (fr_src r)); [exact Hterm|].
    right. lia.
  - intros Hsrc. apply Hbound; assumption.
Qed.

(** X12.  get_funky_string returns false only at a backslash that is
    the last byte of the string, or at a caret followed by a byte that
    is neither in the range from '@' to '~' nor a question mark.  In the
    first case the final [*src] is two bytes after the backslash, past
    the terminating NUL; in the second it is the byte after the
    caret. *)
Theorem get_funky_string_fails_at (mem : list ascii) (dest src : nat)
    (equals_end : bool) :
  let r := get_funky_string mem dest src equals_end in
  fr_ok r = false ->
  (dest <= src)%nat ->
  ((2 <= fr_src r)%nat
   /\ peek mem (fr_src r - 2) = "\"%char
   /\ peek mem (fr_src r - 1) = NUL)
  \/ ((1 <= fr_src r)%nat
      /\ peek mem (fr_src r - 1) = "^"%char
      /\ caret_ok (peek mem (fr_src r)) = false).
Proof.
  intros r Hok Hds.
  destruct (get_funky_string_effect mem dest src equals_end)
    as (Hd & Hs & Hadv & _ & Hfoot & _).
  fold r in Hd, Hs, Hadv, Hfoot.
  assert (Hsame : forall i, (fr_dest r <= i)%nat ->
                            peek (fr_mem r) i = peek mem i)
    by (intros i Hi; unfold peek; rewrite Hfoot by (right; exact Hi);
        reflexivity).
  assert (Herr : f_state (funky_run (funky_fuel mem) equals_end
                            (mk_funky mem src dest NUL ST_GND)) = ST_ERROR).
  { subst r. unfold get_funky_string in Hok. cbn [fr_ok] in Hok.
    destruct (f_state _); try discriminate Hok. reflexivity. }
  destruct (funky_run_shape equals_end (funky_fuel mem)
              (mk_funky mem src dest NUL ST_GND)) as (_ & _ & Hshape & _).
  cbn [f_state f_p f_q pending] in Hshape.
  specialize (Hshape eq_refl I ltac:(lia) Herr).
  change (f_p (funky_run (funky_fuel mem) equals_end
                 (mk_funky mem src dest NUL ST_GND))) with (fr_src r)
    in Hshape.
  change (f_mem (funky_run (funky_fuel mem) equals_end
                   (mk_funky mem src dest NUL ST_GND))) with (fr_mem r)
    in Hshape.
  change (f_q (funky_run (funky_fuel mem) equals_end
                 (mk_funky mem src dest NUL ST_GND))) with (fr_dest r)
    in Hshape.
  destruct Hshape as [(H2 & Hb & Hn)|(H1 & Hb & Hn)].
  - left. split; [lia|].
    rewrite <- !Hsame by lia. split; assumption.
  - right. split; [lia|].
    rewrite <- !Hsame by lia. split; assumption.
Qed.

(** The ground state on a run of plain bytes. *)
Lemma funky_run_plain equals_end s :
  forall fuel mem p q num,
    (q <= p)%nat ->
    take (length s) (drop p mem) = s ->
    forallb (funky_plain equals_end) s = true ->
    funky_terminator equals_end (peek mem (p + length s)) = true ->
    (length s < fuel)%nat ->
    let m' := funky_run fuel equals_end (mk_funky mem p q num ST_GND) in
    f_state m' = ST_END
    /\ f_p m' = (p + length s)%nat /\ f_q m' = (q + length s)%nat
    /\ take (length s) (drop q (f_mem m')) = s.
Proof.
  induction s as [|c s IH]; intros fuel mem p q num Hqp Hs Hplain Hterm Hfuel.
  - destruct fuel as [|fuel]; [simpl in Hfuel; lia|].
    cbn [length] in *. rewrite Nat.add_0_r in *.
    cbn [funky_run f_state funky_running].
    assert (E : funky_step equals_end (mk_funky mem p q num ST_GND)
                = mk_funky mem p q num ST_END).
    { unfold funky_step. cbn [f_state f_mem f_p f_q f_num].
      unfold funky_terminator in Hterm.
      destruct (peek mem p) as [[] [] [] [] [] [] [] []];
        destruct equals_end; try discriminate Hterm; reflexivity. }
    rewrite E, funky_run_stopped by reflexivity.
    cbn [f_state f_p f_q f_mem]. rewrite take_0. auto.
  - destruct fuel as [|fuel]; [simpl in Hfuel; lia|].
    cbn [length forallb] in *. apply andb_prop in Hplain as [Hc Hplain].
    assert (Hp : mem !! p = Some c).
    { apply (f_equal (fun l => l !! 0%nat)) in Hs.
      rewrite lookup_take_lt, lookup_drop, Nat.add_0_r in Hs by lia.
      exact Hs. }
    assert (Hpeek : peek mem p = c) by (unfold peek; rewrite Hp; reflexivity).
    pose proof (lookup_lt_Some _ _ _ Hp) as Hlt.
    destruct (funky_step_shape equals_end (mk_funky mem p q num ST_GND)
                eq_refl) as (_ & _ & _ & _ & _ & _ & Hemit).
    cbn [f_state f_mem f_p] in Hemit. rewrite Hpeek in Hemit.
    specialize (Hemit eq_refl Hc). unfold funky_emit in Hemit.
    cbn [f_mem f_q f_num] in Hemit.
    cbn [funky_run f_state funky_running]. rewrite Hemit.
    assert (Hdrop : drop (S p) (poke mem q c) = drop (S p) mem)
      by (unfold poke; apply drop_insert_lt; lia).
    destruct (IH fuel (poke mem q c) (S p) (S q) num) as (He & Hp' & Hq' & Hout).
    + lia.
    + rewrite Hdrop. rewrite (drop_S _ _ _ Hp) in Hs. cbn [take] in Hs.
      injection Hs as Hs. exact Hs.
    + exact Hplain.
    + unfold peek. rewrite poke_other by lia.
      replace (S p + length s)%nat with (p + S (length s))%nat by lia.
      exact Hterm.
    + lia.
    + cbv zeta. split; [exact He|]. split; [lia|]. split; [lia|].
      destruct (funky_run_shape equals_end fuel
                  (mk_funky (poke mem q c) (S p) (S q) num ST_GND))
        as (Hfoot & _).
      cbn [f_q f_mem] in Hfoot.
      assert (Hq : f_mem (funky_run fuel equals_end
                            (mk_funky (poke mem q c) (S p) (S q) num ST_GND))
                   !! q = Some c).
      { rewrite Hfoot by (left; lia). unfold poke.
        apply list_lookup_insert_eq. lia. }
      rewrite (drop_S _ _ _ Hq). cbn [take]. f_equal. exact Hout.
Qed.

(** A run of bytes without escapes, as get_funky_string leaves it. *)
Lemma get_funky_string_plain mem dest src equals_end s :
  (dest <= src)%nat ->
  take (length s) (drop src mem) = s ->
  forallb (funky_plain equals_end) s = true ->
  funky_terminator equals_end (peek mem (src + length s)) = true ->
  let r := get_funky_string mem dest src equals_end in
  fr_ok r = true
  /\ fr_src r = (src + length s)%nat
  /\ fr_dest r = (dest + length s)%nat
  /\ take (length s) (drop dest (fr_mem r)) = s.
Proof.
  intros Hds Hs Hplain Hterm r. subst r. unfold get_funky_string.
  cbn [fr_ok fr_src fr_dest fr_mem].
  assert (Hlen : (length s <= length mem)%nat).
  { apply (f_equal length) in Hs. rewrite length_take, length_drop in Hs. lia. }
  destruct (funky_run_plain equals_end s (funky_fuel mem) mem src dest NUL
              Hds Hs Hplain Hterm) as (He & Hp & Hq & Hout);
    [unfold funky_fuel; lia|].
  rewrite He, Hp, Hq. auto.
Qed.

(** X13.  A run of bytes without escapes is copied as it is: when the
    bytes from [*src] up to the first terminator hold no backslash and
    no caret, get_funky_string returns true, advances [*src] and [*dest]
    by their number, and leaves the same bytes at the initial
    [*dest]. *)
Theorem get_funky_string_copies_plain (mem : list ascii) (dest src : nat)
    (equals_end : bool) (s : list ascii) :
  (dest <= src)%nat ->
  take (length s) (drop src mem) = s ->
  forallb (funky_plain equals_end) s = true ->
  funky_terminator equals_end (peek mem (src + length s)) = true ->
  let r := get_funky_string mem dest src equals_end in
  fr_ok r = true
  /\ fr_src r = (src + length s)%nat
  /\ fr_dest r = (dest + length s)%nat
  /\ take (length s) (drop dest (fr_mem r)) = s.
Proof. apply get_funky_string_plain. Qed.

(** *** The escapes get_funky_string decodes *)

(** [c >= '0' && c <= '7'] *)
Definition is_octal (c : ascii) : bool :=
  negb ((N_of_ascii c <? N_of_ascii "0")%N || (N_of_ascii "7" <? N_of_ascii c)%N).

(** The value of a hexadecimal digit. *)
Definition hex_value (c : ascii) : option N :=
  match c with
  | "0"%char | "1"%char | "2"%char | "3"%char | "4"%char
  | "5"%char | "6"%char | "7"%char | "8"%char | "9"%char =>
      Some (digit_value c "0")
  | "a"%char | "b"%char | "c"%char | "d"%char | "e"%char | "f"%char =>
      Some (digit_value c "a" + 10)%N
  | "A"%char | "B"%char | "C"%char | "D"%char | "E"%char | "F"%char =>
      Some (digit_value c "A" + 10)%N
  | _ => None
  end.

Definition is_hex (c : ascii) : bool :=
  match hex_value c with Some _ => true | None => false end.

(** The byte a backslash makes of the byte after it, when this is no
    digit and no x. *)
Definition escaped_byte (c : ascii) : ascii :=
  match c with
  | "a"%char => "007"%char
  | "b"%char => "008"%char
  | "e"%char => "027"%char
  | "f"%char => "012"%char
  | "n"%char => "010"%char
  | "r"%char => "013"%char
  | "t"%char => "009"%char
  | "v"%char => "011"%char
  | "?"%char => "127"%char
  | "_"%char => " "%char
  | _ => c
  end.

(** The pieces of a string that get_funky_string turns into one byte
    each: a plain byte, a backslash with one byte, a backslash with
    octal digits, a backslash with an x and hexadecimal digits, a caret
    with one byte, and a caret before a question mark, which gives DEL
    and leaves the question mark to be read as the next piece. *)
Inductive token : Type :=
  | Plain (c : ascii)
  | Escaped (c : ascii)
  | Octal (ds : list ascii)
  | Hex (x : ascii) (ds : list ascii)
  | Caret (c : ascii)
  | CaretDel.

Definition token_text (t : token) : list ascii :=
  match t with
  | Plain c => [c]
  | Escaped c => ["\"%char; c]
  | Octal ds => "\"%char :: ds
  | Hex x ds => "\"%char :: x :: ds
  | Caret c => ["^"%char; c]
  | CaretDel => ["^"%char]
  end.

(** The value of a number that goes on from [n], kept in a byte. *)
Definition octal_value (n : N) (ds : list ascii) : N :=
  fold_left (fun n d => (n * 8 + digit_value d "0") mod 256)%N ds n.

Definition hex_value_of (n : N) (ds : list ascii) : N :=
  fold_left (fun n d => (n * 16 + default 0%N (hex_value d)) mod 256)%N ds n.

Definition token_byte (t : token) : ascii :=
  match t with
  | Plain c => c
  | Escaped c => escaped_byte c
  | Octal ds => ascii_of_N (octal_value 0 ds)
  | Hex _ ds => ascii_of_N (hex_value_of 0 ds)
  | Caret c => ascii_of_N (N.land (N_of_ascii c) 31)
  | CaretDel => "127"%char
  end.

Definition token_ok (equals_end : bool) (t : token) : bool :=
  match t with
  | Plain c => funky_plain equals_end c
  | Escaped c =>
      negb (is_octal c) && negb (Ascii.eqb c "x"%char)
      && negb (Ascii.eqb c "X"%char) && negb (Ascii.eqb c NUL)
  | Octal ds => negb (Nat.eqb (length ds) 0) && forallb is_octal ds
  | Hex x ds =>
      (Ascii.eqb x "x"%char || Ascii.eqb x "X"%char) && forallb is_hex ds
  | Caret c =>
      (N_of_ascii "@" <=? N_of_ascii c)%N && (N_of_ascii c <=? N_of_ascii "~")%N
  | CaretDel => true
  end.

(** The byte [c] may not follow the token: a number would go on with
    it, and the caret of [CaretDel] stands before a question mark. *)
Definition absorbs (t : token) (c : ascii) : bool :=
  match t with
  | Octal _ => is_octal c
  | Hex _ _ => is_hex c
  | CaretDel => negb (Ascii.eqb c "?"%char)
  | _ => false
  end.

(** Each token is followed by a byte that may follow it, and the last
    one is no [CaretDel]. *)
Fixpoint separated (ts : list token) : bool :=
  match ts with
  | [] => true
  | t :: ts' =>
      match ts' with
      | [] => match t with CaretDel => false | _ => true end
      | t' :: _ => negb (absorbs t (default NUL (head (token_text t'))))
      end
      && separated ts'
  end.

Definition tokens_text (ts : list token) : list ascii :=
  concat (token_text <$> ts).

Lemma funky_run_S equals_end fuel m :
  funky_run (S fuel) equals_end m
  = if funky_running (f_state m)
    then funky_run fuel equals_end (funky_step equals_end m)
    else m.
Proof. reflexivity. Qed.

(** More fuel than the loop needs changes nothing. *)
Lemma funky_run_more equals_end fuel :
  forall m,
    (funky_measure m < fuel)%nat ->
    funky_run (S fuel) equals_end m = funky_run fuel equals_end m.
Proof.
  induction fuel as [|fuel IH]; intros m Hfuel; [lia|].
  rewrite (funky_run_S _ (S fuel) m), (funky_run_S _ fuel m).
  destruct (funky_running (f_state m)) eqn:Hrun; [|reflexivity].
  destruct (funky_step_effect equals_end m Hrun) as (_ & _ & _ & _ & Hm & _).
  destruct (funky_running (f_state (funky_step equals_end m))) eqn:Hrun1.
  - specialize (Hm eq_refl). apply IH. lia.
  - rewrite !funky_run_stopped by exact Hrun1. reflexivity.
Qed.

(** The loop, one turn later. *)
Lemma funky_run_unroll equals_end fuel m :
  funky_running (f_state m) = true ->
  (funky_measure m < fuel)%nat ->
  funky_run fuel equals_end m
  = funky_run fuel equals_end (funky_step equals_end m).
Proof.
  intros Hrun Hfuel. destruct fuel as [|fuel]; [lia|].
  rewrite funky_run_S, Hrun.
  destruct (funky_step_effect equals_end m Hrun) as (_ & _ & _ & _ & Hm & _).
  destruct (funky_running (f_state (funky_step equals_end m))) eqn:Hrun1.
  - symmetry. apply funky_run_more. specialize (Hm eq_refl). lia.
  - rewrite !funky_run_stopped by exact Hrun1. reflexivity.
Qed.

(** The turns of the loop, by state and byte read. *)
Lemma step_gnd_end equals_end mem p q num :
  funky_terminator equals_end (peek mem p) = true ->
  funky_step equals_end (mk_funky mem p q num ST_GND)
  = mk_funky mem p q num ST_END.
Proof.
  intros Hterm. unfold funky_step. cbn [f_state f_mem f_p f_q f_num].
  unfold funky_terminator in Hterm.
  destruct (peek mem p) as [[] [] [] [] [] [] [] []];
    destruct equals_end; try discriminate Hterm; reflexivity.
Qed.

Lemma step_gnd_plain equals_end mem p q num :
  funky_plain equals_end (peek mem p) = true ->
  funky_step equals_end (mk_funky mem p q num ST_GND)
  = mk_funky (poke mem q (peek mem p)) (S p) (S q) num ST_GND.
Proof.
  intros Hc.
  destruct (funky_step_shape equals_end (mk_funky mem p q num ST_GND)
              eq_refl) as (_ & _ & _ & _ & _ & _ & Hemit).
  apply Hemit; [reflexivity|exact Hc].
Qed.

Lemma step_gnd_backslash equals_end mem p q num :
  peek mem p = "\"%char ->
  funky_step equals_end (mk_funky mem p q num ST_GND)
  = mk_funky mem (S p) q num ST_BACKSLASH.
Proof.
  intros H. unfold funky_step. cbn [f_state f_mem f_p f_q f_num].
  rewrite H. reflexivity.
Qed.

Lemma step_gnd_caret equals_end mem p q num :
  peek mem p = "^"%char ->
  funky_step equals_end (mk_funky mem p q num ST_GND)
  = mk_funky mem (S p) q num ST_CARET.
Proof.
  intros H. unfold funky_step. cbn [f_state f_mem f_p f_q f_num].
  rewrite H. reflexivity.
Qed.

Lemma step_backslash_escaped equals_end mem p q num :
  token_ok equals_end (Escaped (peek mem p)) = true ->
  funky_step equals_end (mk_funky mem p q num ST_BACKSLASH)
  = mk_funky (poke mem q (escaped_byte (peek mem p))) (S p) (S q)
      (escaped_byte (peek mem p)) ST_GND.
Proof.
  unfold funky_step, token_ok. cbn [f_state f_mem f_p f_q f_num].
  destruct (peek mem p) as [[] [] [] [] [] [] [] []]; intros H;
    vm_compute in H; first [discriminate H | reflexivity].
Qed.

Lemma step_backslash_octal equals_end mem p q num :
  is_octal (peek mem p) = true ->
  funky_step equals_end (mk_funky mem p q num ST_BACKSLASH)
  = mk_funky mem (S p) q (char_of_N (digit_value (peek mem p) "0")) ST_OCTAL.
Proof.
  unfold funky_step. cbn [f_state f_mem f_p f_q f_num].
  destruct (peek mem p) as [[] [] [] [] [] [] [] []]; intros H;
    vm_compute in H; first [discriminate H | reflexivity].
Qed.

Lemma step_backslash_hex equals_end mem p q num :
  Ascii.eqb (peek mem p) "x"%char || Ascii.eqb (peek mem p) "X"%char = true ->
  funky_step equals_end (mk_funky mem p q num ST_BACKSLASH)
  = mk_funky mem (S p) q NUL ST_HEX.
Proof.
  unfold funky_step. cbn [f_state f_mem f_p f_q f_num].
  destruct (peek mem p) as [[] [] [] [] [] [] [] []]; intros H;
    vm_compute in H; first [discriminate H | reflexivity].
Qed.

Lemma step_octal_digit equals_end mem p q num :
  is_octal (peek mem p) = true ->
  funky_step equals_end (mk_funky mem p q num ST_OCTAL)
  = mk_funky mem (S p) q
      (char_of_N (N.shiftl (N_of_ascii num) 3 + digit_value (peek mem p) "0"))
      ST_OCTAL.
Proof.
  unfold is_octal. intros H. apply negb_true_iff in H.
  unfold funky_step. cbn [f_state f_mem f_p f_q f_num].
  rewrite H. reflexivity.
Qed.

Lemma step_octal_end equals_end mem p q num :
  is_octal (peek mem p) = false ->
  funky_step equals_end (mk_funky mem p q num ST_OCTAL)
  = mk_funky (poke mem q num) p (S q) num ST_GND.
Proof.
  unfold is_octal. intros H. apply negb_false_iff in H.
  unfold funky_step. cbn [f_state f_mem f_p f_q f_num].
  rewrite H. reflexivity.
Qed.

Lemma step_hex_digit equals_end mem p q num v :
  hex_value (peek mem p) = Some v ->
  funky_step equals_end (mk_funky mem p q num ST_HEX)
  = mk_funky mem (S p) q (char_of_N (N.shiftl (N_of_ascii num) 4 + v))
      ST_HEX.
Proof.
  unfold funky_step, hex_value. cbn [f_state f_mem f_p f_q f_num].
  destruct (peek mem p) as [[] [] [] [] [] [] [] []]; intros H;
    first [discriminate H
          | injection H as <-; rewrite <- ?N.add_assoc; reflexivity].
Qed.

Lemma step_hex_end equals_end mem p q num :
  hex_value (peek mem p) = None ->
  funky_step equals_end (mk_funky mem p q num ST_HEX)
  = mk_funky (poke mem q num) p (S q) num ST_GND.
Proof.
  unfold funky_step, hex_value. cbn [f_state f_mem f_p f_q f_num].
  destruct (peek mem p) as [[] [] [] [] [] [] [] []]; intros H;
    first [discriminate H | reflexivity].
Qed.

Lemma step_caret equals_end mem p q num :
  token_ok equals_end (Caret (peek mem p)) = true ->
  funky_step equals_end (mk_funky mem p q num ST_CARET)
  = mk_funky (poke mem q (ascii_of_N (N.land (N_of_ascii (peek mem p)) 31)))
      (S p) (S q) num ST_GND.
Proof.
  unfold token_ok. intros H.
  unfold funky_step. cbn [f_state f_mem f_p f_q f_num].
  rewrite H. reflexivity.
Qed.

Lemma step_caret_del equals_end mem p q num :
  peek mem p = "?"%char ->
  funky_step equals_end (mk_funky mem p q num ST_CARET)
  = mk_funky (poke mem q "127"%char) p (S q) num ST_GND.
Proof.
  intros H. unfold funky_step. cbn [f_state f_mem f_p f_q f_num].
  rewrite H. reflexivity.
Qed.

(** A byte holds a number modulo 256. *)
Lemma ascii_of_N_mod (n : N) :
  (n < 4096)%N -> ascii_of_N (n mod 256) = ascii_of_N n.
Proof.
  intros Hn.
  assert (H : forallb
                (fun k => Ascii.eqb (ascii_of_N (N.of_nat k mod 256))
                            (ascii_of_N (N.of_nat k)))
                (seq 0 4096) = true) by (vm_compute; reflexivity).
  rewrite forallb_forall in H. specialize (H (N.to_nat n)).
  rewrite N2Nat.id in H. apply Ascii.eqb_eq, H, in_seq. lia.
Qed.

Lemma is_octal_value c : is_octal c = true -> (digit_value c "0" < 8)%N.
Proof.
  destruct c as [[] [] [] [] [] [] [] []]; intros H; vm_compute in H;
    first [discriminate H | vm_compute; reflexivity].
Qed.

Lemma is_hex_value c : is_hex c = true -> (default 0%N (hex_value c) < 16)%N.
Proof.
  destruct c as [[] [] [] [] [] [] [] []]; intros H; vm_compute in H;
    first [discriminate H | vm_compute; reflexivity].
Qed.

Lemma octal_accumulate (n : N) (c : ascii) :
  (n < 256)%N -> is_octal c = true ->
  char_of_N (N.shiftl (N_of_ascii (ascii_of_N n)) 3 + digit_value c "0")
  = ascii_of_N ((n * 8 + digit_value c "0") mod 256).
Proof.
  intros Hn Hc. apply is_octal_value in Hc. unfold char_of_N.
  rewrite N_ascii_embedding by exact Hn.
  rewrite N.shiftl_mul_pow2. change (2 ^ 3)%N with 8%N.
  symmetry. apply ascii_of_N_mod. lia.
Qed.

Lemma hex_accumulate (n : N) (c : ascii) :
  (n < 256)%N -> is_hex c = true ->
  char_of_N (N.shiftl (N_of_ascii (ascii_of_N n)) 4 + default 0%N (hex_value c))
  = ascii_of_N ((n * 16 + default 0%N (hex_value c)) mod 256).
Proof.
  intros Hn Hc. apply is_hex_value in Hc. unfold char_of_N.
  rewrite N_ascii_embedding by exact Hn.
  rewrite N.shiftl_mul_pow2. change (2 ^ 4)%N with 16%N.
  symmetry. apply ascii_of_N_mod. lia.
Qed.

(** The bytes of the string at [p]. *)
Lemma text_at (mem : list ascii) (p : nat) (s : list ascii) (i : nat)
    (c : ascii) :
  take (length s) (drop p mem) = s -> s !! i = Some c ->
  mem !! (p + i)%nat = Some c.
Proof.
  intros Hs Hi. rewrite <- Hs in Hi.
  apply lookup_take_Some in Hi as [Hi _].
  rewrite lookup_drop in Hi. exact Hi.
Qed.

Lemma peek_at (mem : list ascii) (p : nat) (s : list ascii) (i : nat)
    (c : ascii) :
  take (length s) (drop p mem) = s -> s !! i = Some c ->
  peek mem (p + i) = c /\ (p + i < length mem)%nat.
Proof.
  intros Hs Hi. pose proof (text_at _ _ _ _ _ Hs Hi) as H.
  split; [unfold peek; rewrite H; reflexivity|].
  eapply lookup_lt_Some, H.
Qed.

Lemma text_split (mem : list ascii) (p : nat) (a s : list ascii) :
  take (length (a ++ s)) (drop p mem) = a ++ s ->
  take (length a) (drop p mem) = a
  /\ take (length s) (drop (p + length a) mem) = s.
Proof.
  intros H. rewrite length_app in H. split.
  - apply (f_equal (take (length a))) in H.
    rewrite take_take, take_app_length in H.
    rewrite Nat.min_l in H by lia. exact H.
  - apply (f_equal (drop (length a))) in H.
    rewrite drop_app_length, skipn_firstn_comm, drop_drop in H.
    replace (length a + length s - length a)%nat with (length s) in H by lia.
    exact H.
Qed.

Ltac funky_unroll :=
  rewrite funky_run_unroll
    by first [ reflexivity
             | unfold funky_measure; cbn [f_mem f_p f_state pending]; lia ].

(** The digits of an octal number, up to the byte that ends it. *)
Lemma funky_run_octal equals_end ds :
  forall fuel mem p q n,
    (n < 256)%N ->
    forallb is_octal ds = true ->
    take (length ds) (drop p mem) = ds ->
    is_octal (peek mem (p + length ds)) = false ->
    (2 * (length mem - p) + 1 < fuel)%nat ->
    funky_run fuel equals_end (mk_funky mem p q (ascii_of_N n) ST_OCTAL)
    = funky_run fuel equals_end
        (mk_funky (poke mem q (ascii_of_N (octal_value n ds)))
           (p + length ds) (S q) (ascii_of_N (octal_value n ds)) ST_GND).
Proof.
  induction ds as [|d ds IH]; intros fuel mem p q n Hn Hds Hs Hend Hfuel.
  - cbn [length] in *. rewrite Nat.add_0_r in *. funky_unroll.
    rewrite step_octal_end by exact Hend. reflexivity.
  - cbn [length forallb] in *. apply andb_prop in Hds as [Hd Hds].
    destruct (peek_at mem p (d :: ds) 0 d Hs eq_refl) as [Hpeek Hlt].
    rewrite Nat.add_0_r in Hpeek, Hlt.
    funky_unroll. rewrite step_octal_digit by (rewrite Hpeek; exact Hd).
    rewrite Hpeek, octal_accumulate by assumption.
    apply (text_split mem p [d] ds) in Hs as [_ Hs]. cbn [length] in Hs.
    rewrite Nat.add_1_r in Hs.
    rewrite IH; [| |exact Hds|exact Hs| |].
    + replace (S p + length ds)%nat with (p + S (length ds))%nat by lia.
      reflexivity.
    + apply N.mod_lt. discriminate.
    + replace (S p + length ds)%nat with (p + S (length ds))%nat by lia.
      exact Hend.
    + lia.
Qed.

(** The digits of a hexadecimal number, up to the byte that ends it. *)
Lemma funky_run_hex equals_end ds :
  forall fuel mem p q n,
    (n < 256)%N ->
    forallb is_hex ds = true ->
    take (length ds) (drop p mem) = ds ->
    is_hex (peek mem (p + length ds)) = false ->
    (2 * (length mem - p) + 1 < fuel)%nat ->
    funky_run fuel equals_end (mk_funky mem p q (ascii_of_N n) ST_HEX)
    = funky_run fuel equals_end
        (mk_funky (poke mem q (ascii_of_N (hex_value_of n ds)))
           (p + length ds) (S q) (ascii_of_N (hex_value_of n ds)) ST_GND).
Proof.
  induction ds as [|d ds IH]; intros fuel mem p q n Hn Hds Hs Hend Hfuel.
  - cbn [length] in *. rewrite Nat.add_0_r in *. funky_unroll.
    rewrite step_hex_end; [reflexivity|].
    unfold is_hex in Hend. destruct (hex_value (peek mem p));
      [discriminate Hend|reflexivity].
  - cbn [length forallb] in *. apply andb_prop in Hds as [Hd Hds].
    destruct (peek_at mem p (d :: ds) 0 d Hs eq_refl) as [Hpeek Hlt].
    rewrite Nat.add_0_r in Hpeek, Hlt.
    funky_unroll.
    rewrite (step_hex_digit _ _ _ _ _ (default 0%N (hex_value d))).
    2:{ rewrite Hpeek. unfold is_hex in Hd.
        destruct (hex_value d); [reflexivity|discriminate Hd]. }
    rewrite hex_accumulate by assumption.
    apply (text_split mem p [d] ds) in Hs as [_ Hs]. cbn [length] in Hs.
    rewrite Nat.add_1_r in Hs.
    rewrite IH; [| |exact Hds|exact Hs| |].
    + replace (S p + length ds)%nat with (p + S (length ds))%nat by lia.
      reflexivity.
    + apply N.mod_lt. discriminate.
    + replace (S p + length ds)%nat with (p + S (length ds))%nat by lia.
      exact Hend.
    + lia.
Qed.

(** One token, from the ground state to the ground state. *)
Lemma funky_run_token equals_end t fuel mem p q num :
  token_ok equals_end t = true ->
  take (length (token_text t)) (drop p mem) = token_text t ->
  absorbs t (peek mem (p + length (token_text t))) = false ->
  (2 * (length mem - p) < fuel)%nat ->
  exists num',
    funky_run fuel equals_end (mk_funky mem p q num ST_GND)
    = funky_run fuel equals_end
        (mk_funky (poke mem q (token_byte t)) (p + length (token_text t))
           (S q) num' ST_GND).
Proof.
  intros Hok Hs Hnext Hfuel.
  destruct t as [c|c|ds|x ds|c|];
    cbn [token_ok token_text token_byte absorbs] in *.
  - destruct (peek_at mem p [c] 0 c Hs eq_refl) as [Hpeek Hlt].
    rewrite Nat.add_0_r in Hpeek, Hlt. exists num.
    funky_unroll. rewrite step_gnd_plain by (rewrite Hpeek; exact Hok).
    rewrite Hpeek. cbn [length]. rewrite Nat.add_1_r. reflexivity.
  - destruct (peek_at mem p _ 0 _ Hs eq_refl) as [Hpeek Hlt].
    destruct (peek_at mem p _ 1 _ Hs eq_refl) as [Hpeek1 Hlt1].
    rewrite Nat.add_0_r in Hpeek, Hlt. rewrite Nat.add_1_r in Hpeek1, Hlt1.
    exists (escaped_byte c).
    funky_unroll. rewrite step_gnd_backslash by exact Hpeek.
    funky_unroll. rewrite step_backslash_escaped by (rewrite Hpeek1; exact Hok).
    rewrite Hpeek1. cbn [length].
    replace (p + 2)%nat with (S (S p)) by lia. reflexivity.
  - apply andb_prop in Hok as [Hne Hds].
    destruct ds as [|d ds]; [discriminate Hne|clear Hne].
    cbn [forallb] in Hds. apply andb_prop in Hds as [Hd Hds].
    destruct (peek_at mem p _ 0 _ Hs eq_refl) as [Hpeek Hlt].
    destruct (peek_at mem p _ 1 _ Hs eq_refl) as [Hpeek1 Hlt1].
    rewrite Nat.add_0_r in Hpeek, Hlt. rewrite Nat.add_1_r in Hpeek1, Hlt1.
    apply (text_split mem p ["\"%char; d] ds) in Hs as [_ Hs].
    cbn [length] in Hs, Hnext |- *.
    exists (ascii_of_N (octal_value 0 (d :: ds))).
    funky_unroll. rewrite step_gnd_backslash by exact Hpeek.
    funky_unroll. rewrite step_backslash_octal by (rewrite Hpeek1; exact Hd).
    rewrite Hpeek1. unfold char_of_N.
    pose proof (is_octal_value d Hd) as Hv.
    rewrite (funky_run_octal equals_end ds fuel mem (S (S p)) q
               (digit_value d "0")).
    + replace (S (S p) + length ds)%nat with (p + S (S (length ds)))%nat
        by lia.
      unfold octal_value at 3 4. cbn [fold_left].
      rewrite N.mul_0_l, N.add_0_l, (N.mod_small (digit_value d "0")) by lia.
      reflexivity.
    + lia.
    + exact Hds.
    + replace (S (S p)) with (p + 2)%nat by lia. exact Hs.
    + replace (S (S p) + length ds)%nat with (p + S (S (length ds)))%nat
        by lia.
      exact Hnext.
    + lia.
  - apply andb_prop in Hok as [Hx Hds].
    destruct (peek_at mem p _ 0 _ Hs eq_refl) as [Hpeek Hlt].
    destruct (peek_at mem p _ 1 _ Hs eq_refl) as [Hpeek1 Hlt1].
    rewrite Nat.add_0_r in Hpeek, Hlt. rewrite Nat.add_1_r in Hpeek1, Hlt1.
    apply (text_split mem p ["\"%char; x] ds) in Hs as [_ Hs].
    cbn [length] in Hs, Hnext |- *.
    exists (ascii_of_N (hex_value_of 0 ds)).
    funky_unroll. rewrite step_gnd_backslash by exact Hpeek.
    funky_unroll. rewrite step_backslash_hex by (rewrite Hpeek1; exact Hx).
    change NUL with (ascii_of_N 0).
    rewrite (funky_run_hex equals_end ds fuel mem (S (S p)) q 0).
    + replace (S (S p) + length ds)%nat with (p + S (S (length ds)))%nat
        by lia.
      reflexivity.
    + lia.
    + exact Hds.
    + replace (S (S p)) with (p + 2)%nat by lia. exact Hs.
    + replace (S (S p) + length ds)%nat with (p + S (S (length ds)))%nat
        by lia.
      exact Hnext.
    + lia.
  - destruct (peek_at mem p _ 0 _ Hs eq_refl) as [Hpeek Hlt].
    destruct (peek_at mem p _ 1 _ Hs eq_refl) as [Hpeek1 Hlt1].
    rewrite Nat.add_0_r in Hpeek, Hlt. rewrite Nat.add_1_r in Hpeek1, Hlt1.
    exists num.
    funky_unroll. rewrite step_gnd_caret by exact Hpeek.
    funky_unroll. rewrite step_caret by (rewrite Hpeek1; exact Hok).
    rewrite Hpeek1. cbn [length].
    replace (p + 2)%nat with (S (S p)) by lia. reflexivity.
  - destruct (peek_at mem p _ 0 _ Hs eq_refl) as [Hpeek Hlt].
    rewrite Nat.add_0_r in Hpeek, Hlt. cbn [length] in Hnext |- *.
    rewrite Nat.add_1_r in Hnext |- *.
    apply negb_false_iff, Ascii.eqb_eq in Hnext.
    exists num.
    funky_unroll. rewrite step_gnd_caret by exact Hpeek.
    funky_unroll. rewrite step_caret_del by exact Hnext.
    reflexivity.
Qed.

(** The byte [c] may not follow the last token. *)
Definition absorbs_last (ts : list token) (c : ascii) : bool :=
  match last ts with
  | Some t => absorbs t c
  | None => false
  end.

Lemma token_text_head t :
  exists c s, token_text t = c :: s.
Proof. destruct t; cbn [token_text]; eauto. Qed.

Lemma tokens_text_cons t ts :
  tokens_text (t :: ts) = token_text t ++ tokens_text ts.
Proof. reflexivity. Qed.

Lemma tokens_text_length ts : (length ts <= length (tokens_text ts))%nat.
Proof.
  induction ts as [|t ts IH]; [reflexivity|].
  rewrite tokens_text_cons, length_app. cbn [length].
  destruct (token_text_head t) as (c & s & ->). cbn [length]. lia.
Qed.

Lemma separated_tail t ts : separated (t :: ts) = true -> separated ts = true.
Proof. cbn [separated]. intros H. apply andb_prop in H as [_ H]. exact H. Qed.

(** After separated tokens, a byte that is no digit may follow. *)
Lemma separated_last ts c :
  separated ts = true -> is_octal c = false -> is_hex c = false ->
  absorbs_last ts c = false.
Proof.
  intros Hsep Ho Hh. unfold absorbs_last.
  induction ts as [|t ts IH]; [reflexivity|].
  destruct ts as [|t' ts'].
  - cbn [last]. destruct t; cbn [absorbs separated] in *;
      first [assumption | reflexivity | discriminate Hsep].
  - change (last (t :: t' :: ts')) with (last (t' :: ts')).
    apply IH. apply (separated_tail t), Hsep.
Qed.

Lemma terminator_no_digit equals_end c :
  funky_terminator equals_end c = true ->
  is_octal c = false /\ is_hex c = false.
Proof.
  unfold funky_terminator. intros H.
  destruct c as [[] [] [] [] [] [] [] []]; destruct equals_end;
    vm_compute in H; first [discriminate H | split; reflexivity].
Qed.



(** The ground state on a run of tokens, up to the byte after them. *)
Lemma funky_run_tokens equals_end ts :
  forall fuel mem p q num,
    (q <= p)%nat ->
    forallb (token_ok equals_end) ts = true ->
    separated ts = true ->
    take (length (tokens_text ts)) (drop p mem) = tokens_text ts ->
    absorbs_last ts (peek mem (p + length (tokens_text ts))) = false ->
    (2 * (length mem - p) < fuel)%nat ->
    exists mem' num',
      funky_run fuel equals_end (mk_funky mem p q num ST_GND)
      = funky_run fuel equals_end
          (mk_funky mem' (p + length (tokens_text ts)) (q + length ts) num'
             ST_GND)
      /\ length mem' = length mem
      /\ (forall i, (i < q)%nat \/ (q + length ts <= i)%nat ->
                    mem' !! i = mem !! i)
      /\ take (length ts) (drop q mem') = token_byte <$> ts.
Proof.
  induction ts as [|t ts IH];
    intros fuel mem p q num Hqp Hok Hsep Hs Hlast Hfuel.
  - cbn [tokens_text fmap list_fmap concat length] in *.
    rewrite !Nat.add_0_r. exists mem, num.
    split; [reflexivity|]. split; [reflexivity|]. split; [reflexivity|].
    apply take_0.
  - rewrite tokens_text_cons in *. rewrite length_app in Hlast |- *.
    cbn [forallb] in Hok. apply andb_prop in Hok as [Ht Hok].
    apply text_split in Hs as [Hst Hs].
    destruct (token_text_head t) as (c0 & s0 & Htext).
    assert (Hpos : (1 <= length (token_text t))%nat)
      by (rewrite Htext; cbn [length]; lia).
    assert (Hlt : (p < length mem)%nat).
    { apply (f_equal length) in Hst.
      rewrite length_take, length_drop in Hst. lia. }
    assert (Hnext : absorbs t (peek mem (p + length (token_text t))) = false).
    { destruct ts as [|t' ts'].
      - cbn [tokens_text fmap list_fmap concat length] in Hlast.
        rewrite Nat.add_0_r in Hlast. exact Hlast.
      - cbn [separated] in Hsep. apply andb_prop in Hsep as [Hsep _].
        apply negb_true_iff in Hsep.
        destruct (token_text_head t') as (c1 & s1 & Htext').
        rewrite tokens_text_cons, Htext' in Hs.
        destruct (peek_at mem (p + length (token_text t)) _ 0 c1 Hs eq_refl)
          as [Hpeek _].
        rewrite Nat.add_0_r in Hpeek.
        rewrite Hpeek. rewrite Htext' in Hsep. exact Hsep. }
    pose proof (separated_tail _ _ Hsep) as Hsep'.
    assert (Hlast' : absorbs_last ts
                       (peek (poke mem q (token_byte t))
                          (p + length (token_text t) + length (tokens_text ts)))
                     = false).
    { destruct ts as [|t' ts']; [reflexivity|].
      unfold peek. rewrite poke_other by lia.
      rewrite <- Nat.add_assoc. exact Hlast. }
    destruct (funky_run_token equals_end t fuel mem p q num Ht Hst Hnext Hfuel)
      as [num1 E].
    rewrite E.
    assert (Hdrop : drop (p + length (token_text t))
                      (poke mem q (token_byte t))
                    = drop (p + length (token_text t)) mem)
      by (unfold poke; apply drop_insert_lt; lia).
    destruct (IH fuel (poke mem q (token_byte t))
                (p + length (token_text t))%nat (S q) num1)
      as (mem' & num' & E' & Hlen & Hfoot & Hout).
    + lia.
    + exact Hok.
    + exact Hsep'.
    + rewrite Hdrop. exact Hs.
    + exact Hlast'.
    + rewrite poke_length. lia.
    + exists mem', num'. cbn [length].
      split; [|split; [|split]].
      * rewrite E'. do 2 f_equal; lia.
      * rewrite Hlen. apply poke_length.
      * intros i Hi. rewrite Hfoot by lia. apply poke_other. lia.
      * assert (Hq : mem' !! q = Some (token_byte t)).
        { rewrite Hfoot by (left; lia). unfold poke.
          apply list_lookup_insert_eq. lia. }
        rewrite (drop_S _ _ _ Hq). cbn [take].
        rewrite fmap_cons. f_equal. exact Hout.
Qed.

(** A run of tokens, as get_funky_string leaves it. *)
Lemma get_funky_string_tokens (mem : list ascii) (dest src : nat)
    (equals_end : bool) (ts : list token) :
  (dest <= src)%nat ->
  forallb (token_ok equals_end) ts = true ->
  separated ts = true ->
  take (length (tokens_text ts)) (drop src mem) = tokens_text ts ->
  funky_terminator equals_end (peek mem (src + length (tokens_text ts)))
  = true ->
  let r := get_funky_string mem dest src equals_end in
  fr_ok r = true
  /\ fr_src r = (src + length (tokens_text ts))%nat
  /\ fr_dest r = (dest + length ts)%nat
  /\ take (length ts) (drop dest (fr_mem r)) = token_byte <$> ts.
Proof.
  intros Hds Hok Hsep Hs Hterm r. subst r. unfold get_funky_string.
  cbn [fr_ok fr_src fr_dest fr_mem].
  destruct (funky_run_tokens equals_end ts (funky_fuel mem) mem src dest NUL
              Hds Hok Hsep Hs) as (mem' & num' & E & Hlen & Hfoot & Hout).
  { destruct (terminator_no_digit _ _ Hterm) as [Ho Hh].
    apply separated_last; assumption. }
  { unfold funky_fuel. lia. }
  assert (Hlt : (length (tokens_text ts) <= length mem - src)%nat).
  { apply (f_equal length) in Hs.
    rewrite length_take, length_drop in Hs. lia. }
  pose proof (tokens_text_length ts) as Hts.
  rewrite E.
  rewrite funky_run_unroll
    by first [ reflexivity
             | unfold funky_measure, funky_fuel;
               cbn [f_mem f_p f_state pending]; lia ].
  rewrite step_gnd_end.
  - rewrite funky_run_stopped by reflexivity.
    cbn [f_state f_p f_q f_mem]. auto.
  - unfold peek. rewrite Hfoot by (right; lia). exact Hterm.
Qed.

(** X22.  get_funky_string decodes the escapes of a string.  Take a
    string made of these pieces: a plain byte; a backslash and a byte
    that is no octal digit, no x or X and not the NUL that ends the
    string; a backslash and one or more octal digits; a backslash, x or
    X and any number of hexadecimal digits; a caret and a byte from '@'
    to '~'; a caret that stands before a question mark.  Let no number
    be followed by a plain byte that is a digit of its base, and let a
    terminator follow the last piece.  Then get_funky_string returns
    true, [*src] advances over the pieces to the terminator, [*dest]
    advances by one byte for each piece, and the bytes written are, in
    order: the plain byte; for a backslash the control character of the
    letters a, b, e, f, n, r, t and v, DEL for a question mark, a space
    for an underscore, and any other byte as it is; the value of the
    number modulo 256, which is 0 when no digit follows the x; the low
    five bits of the byte after the caret; and DEL for the caret before
    a question mark, after which the question mark is read again as a
    plain byte, so that a caret and a question mark give two bytes. *)
Theorem get_funky_string_decodes (mem : list ascii) (dest src : nat)
    (equals_end : bool) (ts : list token) :
  (dest <= src)%nat ->
  forallb (token_ok equals_end) ts = true ->
  separated ts = true ->
  take (length (tokens_text ts)) (drop src mem) = tokens_text ts ->
  funky_terminator equals_end (peek mem (src + length (tokens_text ts)))
  = true ->
  let r := get_funky_string mem dest src equals_end in
  fr_ok r = true
  /\ fr_src r = (src + length (tokens_text ts))%nat
  /\ fr_dest r = (dest + length ts)%nat
  /\ take (length ts) (drop dest (fr_mem r)) = token_byte <$> ts.
Proof. apply get_funky_string_tokens. Qed.

Lemma step_backslash_nul equals_end mem p q num :
  peek mem p = NUL ->
  funky_step equals_end (mk_funky mem p q num ST_BACKSLASH)
  = mk_funky mem (S p) q num ST_ERROR.
Proof.
  intros H. unfold funky_step. cbn [f_state f_mem f_p f_q f_num].
  rewrite H. reflexivity.
Qed.

Lemma step_caret_bad equals_end mem p q num :
  caret_ok (peek mem p) = false ->
  funky_step equals_end (mk_funky mem p q num ST_CARET)
  = mk_funky mem p q num ST_ERROR.
Proof.
  unfold caret_ok. intros H. apply orb_false_elim in H as [H1 H2].
  unfold funky_step. cbn [f_state f_mem f_p f_q f_num].
  rewrite H1, H2. reflexivity.
Qed.

(** A run of tokens before a place that get_funky_string rejects. *)
Lemma get_funky_string_bad (mem : list ascii) (dest src : nat)
    (equals_end : bool) (ts : list token) :
  (dest <= src)%nat ->
  forallb (token_ok equals_end) ts = true ->
  separated ts = true ->
  take (length (tokens_text ts)) (drop src mem) = tokens_text ts ->
  let p := (src + length (tokens_text ts))%nat in
  (peek mem p = "\"%char /\ peek mem (S p) = NUL)
  \/ (peek mem p = "^"%char /\ caret_ok (peek mem (S p)) = false) ->
  let r := get_funky_string mem dest src equals_end in
  fr_ok r = false
  /\ fr_src r = (if Ascii.eqb (peek mem p) "\"%char then p + 2 else p + 1)%nat
  /\ fr_dest r = (dest + length ts)%nat
  /\ take (length ts) (drop dest (fr_mem r)) = token_byte <$> ts.
Proof.
  intros Hds Hok Hsep Hs p Hbad r. subst r. unfold get_funky_string.
  cbn [fr_ok fr_src fr_dest fr_mem].
  destruct (funky_run_tokens equals_end ts (funky_fuel mem) mem src dest NUL
              Hds Hok Hsep Hs) as (mem' & num' & E & Hlen & Hfoot & Hout).
  { fold p. apply separated_last; [exact Hsep| |];
      destruct Hbad as [[-> _]|[-> _]]; reflexivity. }
  { unfold funky_fuel. lia. }
  fold p in E.
  pose proof (tokens_text_length ts) as Hts.
  assert (Hsame : forall i, (p <= i)%nat -> peek mem' i = peek mem i).
  { intros i Hi. unfold peek. rewrite Hfoot by (right; lia). reflexivity. }
  assert (Hp : (p < length mem)%nat).
  { apply peek_lt. destruct Hbad as [[-> _]|[-> _]]; discriminate. }
  rewrite E.
  destruct Hbad as [[Hb Hn]|[Hb Hn]]; rewrite Hb.
  - rewrite funky_run_unroll
      by first [ reflexivity
               | unfold funky_measure, funky_fuel;
                 cbn [f_mem f_p f_state pending]; lia ].
    rewrite step_gnd_backslash by (rewrite Hsame by lia; exact Hb).
    rewrite funky_run_unroll
      by first [ reflexivity
               | unfold funky_measure, funky_fuel;
                 cbn [f_mem f_p f_state pending]; lia ].
    rewrite step_backslash_nul by (rewrite Hsame by lia; exact Hn).
    rewrite funky_run_stopped by reflexivity.
    cbn [f_state f_p f_q f_mem].
    split; [reflexivity|]. split; [simpl (Ascii.eqb _ _); cbv iota; lia|]. auto.
  - rewrite funky_run_unroll
      by first [ reflexivity
               | unfold funky_measure, funky_fuel;
                 cbn [f_mem f_p f_state pending]; lia ].
    rewrite step_gnd_caret by (rewrite Hsame by lia; exact Hb).
    rewrite funky_run_unroll
      by first [ reflexivity
               | unfold funky_measure, funky_fuel;
                 cbn [f_mem f_p f_state pending]; lia ].
    rewrite step_caret_bad by (rewrite Hsame by lia; exact Hn).
    rewrite funky_run_stopped by reflexivity.
    cbn [f_state f_p f_q f_mem].
    split; [reflexivity|]. split; [simpl (Ascii.eqb _ _); cbv iota; lia|]. auto.
Qed.

(** X23.  get_funky_string rejects a string in which pieces as for X22
    are followed by a backslash that is the last byte of the string, or
    by a caret and a byte that is neither in the range from '@' to '~'
    nor a question mark.  It returns false; the pieces before that place
    are decoded at the initial [*dest], and [*dest] has advanced by
    their number; [*src] is left two bytes after the backslash, or at
    the byte after the caret. *)
Theorem get_funky_string_rejects (mem : list ascii) (dest src : nat)
    (equals_end : bool) (ts : list token) :
  (dest <= src)%nat ->
  forallb (token_ok equals_end) ts = true ->
  separated ts = true ->
  take (length (tokens_text ts)) (drop src mem) = tokens_text ts ->
  let p := (src + length (tokens_text ts))%nat in
  (peek mem p = "\"%char /\ peek mem (S p) = NUL)
  \/ (peek mem p = "^"%char /\ caret_ok (peek mem (S p)) = false) ->
  let r := get_funky_string mem dest src equals_end in
  fr_ok r = false
  /\ fr_src r = (if Ascii.eqb (peek mem p) "\"%char then p + 2 else p + 1)%nat
  /\ fr_dest r = (dest + length ts)%nat
  /\ take (length ts) (drop dest (fr_mem r)) = token_byte <$> ts.
Proof. apply get_funky_string_bad. Qed.

(** ** The palette: parse_diff_color *)

Inductive parse_state : Type :=
  | PS_START | PS_2 | PS_3 | PS_4 | PS_DONE | PS_FAIL.

(** How a call that may end the program comes back. *)
Inductive outcome (A : Type) : Type :=
  | Continues (a : A)
  | Exits (status : Z) (w : world).
Arguments Continues {A} a.
Arguments Exits {A} status w.

Definition bind {A B : Type} (x : outcome A) (k : A -> outcome B) : outcome B :=
  match x with
  | Continues a => k a
  | Exits status w => Exits status w
  end.

Definition set_stderr (log : list diagnostic) (w : world) : world :=
  mk_world (trace w) (room w) (colors_enabled w) (last_context w)
           (color_indicator w) (palette_mem w) (color_palette w) log.

Definition set_colors_enabled (b : bool) (w : world) : world :=
  mk_world (trace w) (room w) b (last_context w)
           (color_indicator w) (palette_mem w) (color_palette w) (stderr_log w).

Definition set_palette (mem : list ascii) (ptr_set : bool)
    (ind : list bin_str) (w : world) : world :=
  mk_world (trace w) (room w) (colors_enabled w) (last_context w)
           ind mem ptr_set (stderr_log w).

(** [error (status, 0, format, arg)]: the message goes to stderr, and
    the program exits with [status] when [status] is not zero. *)
Definition error (status : Z) (msgid : string) (arg : option (list ascii))
    (w : world) : outcome world :=
  let w := set_stderr (stderr_log w ++ [mk_diag status msgid arg]) w in
  if status =? 0 then Continues w else Exits status w.

Definition indicator_name : list string :=
  ["lc"; "rc"; "ec"; "rs"; "hd"; "ad"; "de"; "ln"]%string.

(** The table [color_indicator] as util.c initializes it. *)
Definition initial_color_indicator : list bin_str :=
  [ mk_bin_str 2 (Literal ["027"; "["]%char);
    mk_bin_str 1 (Literal ["m"]%char);
    mk_bin_str 0 Null;
    mk_bin_str 1 (Literal ["0"]%char);
    mk_bin_str 1 (Literal ["1"]%char);
    mk_bin_str 2 (Literal ["3"; "2"]%char);
    mk_bin_str 2 (Literal ["3"; "1"]%char);
    mk_bin_str 2 (Literal ["3"; "6"]%char) ].

(** The C string held in an array: its bytes before the first NUL. *)
Fixpoint c_str (a : list ascii) : string :=
  match a with
  | [] => EmptyString
  | c :: a' => if Ascii.eqb c NUL then EmptyString else String c (c_str a')
  end.

(** The [for] loop over [indicator_name]: the first index whose name is
    the label. *)
Fixpoint find_indicator (label : string) (names : list string) (ind_no : nat)
    : option nat :=
  match names with
  | [] => None
  | name :: names' =>
      if String.eqb label name then Some ind_no
      else find_indicator label names' (S ind_no)
  end.

Record parser : Type := mk_parser {
  ps_buf : nat;
  ps_p : nat;
  ps_label : ascii * ascii;
  ps_state : parse_state;
  ps_world : world
}.

Definition parse_running (st : parse_state) : bool :=
  match st with
  | PS_DONE | PS_FAIL => false
  | _ => true
  end.

(** The parser after a call of get_funky_string, in state [ok] when the
    call returns true and in state PS_FAIL when it does not. *)
Definition after_funky (r : funky_result) (ok : parse_state)
    (ind : list bin_str) (st : parser) : parser :=
  mk_parser (fr_dest r) (fr_src r) (ps_label st)
    (if fr_ok r then ok else PS_FAIL)
    (set_palette (fr_mem r) (color_palette (ps_world st)) ind (ps_world st)).

(** One turn of the loop of parse_diff_color. *)
Definition parse_turn (st : parser) : outcome parser :=
  let w := ps_world st in
  let mem := palette_mem w in
  let buf := ps_buf st in
  let p := ps_p st in
  let label := ps_label st in
  let c := peek mem p in
  match ps_state st with
  | PS_START =>
      match c with
      | ":"%char => Continues (mk_parser buf (S p) label PS_START w)
      | "*"%char =>
          let r := get_funky_string mem buf (S p) true in
          Continues (after_funky r PS_4 (color_indicator w) st)
      | "000"%char => Continues (mk_parser buf p label PS_DONE w)
      | _ => Continues (mk_parser buf (S p) (c, snd label) PS_2 w)
      end
  | PS_2 =>
      if negb (Ascii.eqb c NUL)
      then Continues (mk_parser buf (S p) (fst label, c) PS_3 w)
      else Continues (mk_parser buf p label PS_FAIL w)
  | PS_3 =>
      if Ascii.eqb c "="%char then
        let name := c_str [fst label; snd label] in
        match find_indicator name indicator_name 0 with
        | Some ind_no =>
            let str := buf in
            let r := get_funky_string mem buf (S p) false in
            if fr_ok r then
              Continues
                (after_funky r PS_START
                   (<[ind_no := mk_bin_str (fr_dest r - str) (InPalette str)]>
                      (color_indicator w))
                   st)
            else
              let st := after_funky r PS_START (color_indicator w) st in
              bind (error 0 "unrecognized prefix: %s"
                      (Some [fst label; snd label]) (ps_world st))
                (fun w => Continues
                   (mk_parser (ps_buf st) (ps_p st) label PS_FAIL w))
        | None =>
            bind (error 0 "unrecognized prefix: %s"
                    (Some [fst label; snd label]) w)
              (fun w => Continues (mk_parser buf (S p) label PS_FAIL w))
        end
      else Continues (mk_parser buf (S p) label PS_FAIL w)
  | PS_4 =>
      if Ascii.eqb c "="%char then
        let r := get_funky_string mem buf (S p) false in
        Continues (after_funky r PS_START (color_indicator w) st)
      else Continues (mk_parser buf (S p) label PS_FAIL w)
  | PS_DONE | PS_FAIL => Continues st
  end.

Fixpoint parse_run (fuel : nat) (st : parser) : outcome parser :=
  match fuel with
  | O => Continues st
  | S fuel' =>
      if parse_running (ps_state st)
      then bind (parse_turn st) (parse_run fuel')
      else Continues st
  end.

(** The loop of parse_diff_color on the palette of [w]. *)
Definition parse_palette (w : world) : outcome parser :=
  parse_run (S (length (palette_mem w)))
    (mk_parser 0 0 ("?"%char, "?"%char) PS_START w).

Definition parse_diff_color (w : world) : outcome world :=
  if negb (color_palette w) || Ascii.eqb (peek (palette_mem w) 0) NUL
  then Continues w
  else
    (* Do not process the color palette twice.  *)
    let w := set_palette (palette_mem w) false (color_indicator w) w in
    bind (parse_palette w) (fun st =>
      match ps_state st with
      | PS_FAIL =>
          bind (error 0 "unparsable value for --palette" None (ps_world st))
            (fun w => Continues (set_colors_enabled false w))
      | _ => Continues (ps_world st)
      end).

(** *** parse_diff_color always comes back *)

Lemma parse_turn_effect st :
  parse_running (ps_state st) = true ->
  exists st',
    parse_turn st = Continues st'
    /\ length (palette_mem (ps_world st')) = length (palette_mem (ps_world st))
    /\ colors_enabled (ps_world st') = colors_enabled (ps_world st)
    /\ (parse_running (ps_state st') = true ->
        (ps_p st < ps_p st')%nat
        /\ (ps_p st < length (palette_mem (ps_world st)))%nat).
Proof.
  destruct st as [buf p label state w].
  cbn [ps_state ps_world ps_p]. intros Hrun.
  pose proof (peek_lt (palette_mem w) p) as Hlt.
  unfold parse_turn. cbn [ps_state ps_world ps_p ps_buf ps_label].
  assert (Hfunky : forall eq ok ind,
    exists st',
      Continues (after_funky (get_funky_string (palette_mem w) buf (S p) eq)
                   ok ind (mk_parser buf p label state w))
      = Continues st'
      /\ length (palette_mem (ps_world st')) = length (palette_mem w)
      /\ colors_enabled (ps_world st') = colors_enabled w
      /\ (parse_running (ps_state st') = true ->
          peek (palette_mem w) p <> NUL ->
          (p < ps_p st')%nat /\ (p < length (palette_mem w))%nat)).
  { intros eq ok ind. eexists. split; [reflexivity|].
    destruct (get_funky_string_effect (palette_mem w) buf (S p) eq)
      as (_ & Hsrc & _ & Hlen & _).
    unfold after_funky.
    cbn [ps_world ps_state ps_p palette_mem set_palette colors_enabled].
    split; [exact Hlen|]. split; [reflexivity|].
    intros _ Hc. split; [lia|apply Hlt, Hc]. }
  destruct state; try discriminate Hrun; clear Hrun.
  - (* PS_START *)
    destruct (peek (palette_mem w) p) as [[] [] [] [] [] [] [] []] eqn:Hc;
      try (eexists; split; [reflexivity|];
           cbn [ps_world ps_state ps_p parse_running];
           split; [reflexivity|]; split; [reflexivity|];
           intros; first [discriminate
                         | split; [lia|apply Hlt; discriminate]]).
    destruct (Hfunky true PS_4 (color_indicator w))
      as (st' & E & Hl & Hce & Hp).
    exists st'. split; [exact E|]. split; [exact Hl|]. split; [exact Hce|].
    intros Hr. apply Hp; [exact Hr|discriminate].
  - (* PS_2 *)
    destruct (Ascii.eqb_spec (peek (palette_mem w) p) NUL) as [Hc|Hc];
      cbn [negb]; eexists; (split; [reflexivity|]);
      cbn [ps_world ps_state ps_p parse_running];
      (split; [reflexivity|]); (split; [reflexivity|]);
      intros; [discriminate|].
    split; [lia|apply Hlt, Hc].
  - (* PS_3 *)
    destruct (Ascii.eqb_spec (peek (palette_mem w) p) "="%char) as [Hc|Hc].
    + destruct (find_indicator _ indicator_name 0) as [ind_no|].
      * destruct (fr_ok (get_funky_string (palette_mem w) buf (S p) false))
          eqn:Hok.
        -- destruct (Hfunky false PS_START
                       (<[ind_no := mk_bin_str
                            (fr_dest (get_funky_string (palette_mem w) buf
                                        (S p) false) - buf)
                            (InPalette buf)]> (color_indicator w)))
             as (st' & E & Hl & Hce & Hp).
           exists st'. split; [exact E|]. split; [exact Hl|].
           split; [exact Hce|].
           intros Hr. apply Hp; [exact Hr|rewrite Hc; discriminate].
        -- eexists. split; [reflexivity|].
           destruct (get_funky_string_effect (palette_mem w) buf (S p) false)
             as (_ & _ & _ & Hlen & _).
           cbn [ps_world ps_state ps_p parse_running palette_mem set_stderr
                after_funky set_palette colors_enabled].
           split; [exact Hlen|]. split; [reflexivity|]. intros; discriminate.
      * eexists. split; [reflexivity|].
        cbn [ps_world ps_state ps_p parse_running palette_mem set_stderr
             colors_enabled].
        split; [reflexivity|]. split; [reflexivity|]. intros; discriminate.
    + eexists. split; [reflexivity|].
      cbn [ps_world ps_state ps_p parse_running].
      split; [reflexivity|]. split; [reflexivity|]. intros; discriminate.
  - (* PS_4 *)
    destruct (Ascii.eqb_spec (peek (palette_mem w) p) "="%char) as [Hc|Hc].
    + destruct (Hfunky false PS_START (color_indicator w))
        as (st' & E & Hl & Hce & Hp).
      exists st'. split; [exact E|]. split; [exact Hl|]. split; [exact Hce|].
      intros Hr. apply Hp; [exact Hr|rewrite Hc; discriminate].
    + eexists. split; [reflexivity|].
      cbn [ps_world ps_state ps_p parse_running].
      split; [reflexivity|]. split; [reflexivity|]. intros; discriminate.
Qed.

(** The loop of parse_diff_color ends within the fuel it is given, and
    it ends by itself, not through [error]. *)
Lemma parse_run_terminates fuel :
  forall st,
    (length (palette_mem (ps_world st)) - ps_p st < fuel)%nat ->
    exists st',
      parse_run fuel st = Continues st'
      /\ parse_running (ps_state st') = false
      /\ colors_enabled (ps_world st') = colors_enabled (ps_world st).
Proof.
  induction fuel as [|fuel IH]; intros st Hfuel; [lia|].
  cbn [parse_run]. destruct (parse_running (ps_state st)) eqn:Hrun.
  - destruct (parse_turn_effect st Hrun) as (st1 & E & Hl & Hce & Hp).
    rewrite E. cbn [bind].
    destruct (parse_running (ps_state st1)) eqn:Hrun1.
    + destruct (Hp eq_refl) as [Hp1 Hp2].
      destruct (IH st1) as (st' & E' & Hstop & Hce'); [lia|].
      exists st'. split; [exact E'|]. split; [exact Hstop|]. congruence.
    + exists st1. split; [|split; [exact Hrun1|exact Hce]].
      destruct fuel; cbn [parse_run]; rewrite ?Hrun1; reflexivity.
  - exists st. split; [reflexivity|]. split; [exact Hrun|reflexivity].
Qed.

(** [buf] never passes [p]: every call of get_funky_string that
    parse_diff_color makes has [*dest] at or before [*src]. *)
Lemma parse_turn_keeps_order st st' :
  (ps_buf st <= ps_p st)%nat ->
  parse_turn st = Continues st' ->
  (ps_buf st' <= ps_p st')%nat.
Proof.
  destruct st as [buf p label state w]. cbn [ps_buf ps_p]. intros Hle.
  assert (Hf : forall eq,
            (fr_dest (get_funky_string (palette_mem w) buf (S p) eq)
             <= fr_src (get_funky_string (palette_mem w) buf (S p) eq))%nat).
  { intros eq.
    destruct (get_funky_string_effect (palette_mem w) buf (S p) eq)
      as (Hd & Hs & Hadv & _).
    lia. }
  unfold parse_turn, after_funky, error, bind.
  cbn [ps_state ps_world ps_p ps_buf ps_label Z.eqb].
  destruct state.
  - destruct (peek (palette_mem w) p) as [[] [] [] [] [] [] [] []];
      intros [= <-]; cbn [ps_buf ps_p]; first [lia|apply Hf].
  - destruct (negb _); intros [= <-]; cbn [ps_buf ps_p]; lia.
  - destruct (Ascii.eqb _ _); [|intros [= <-]; cbn [ps_buf ps_p]; lia].
    destruct (find_indicator _ _ _);
      [|intros [= <-]; cbn [ps_buf ps_p]; lia].
    destruct (fr_ok _); intros [= <-]; cbn [ps_buf ps_p]; apply Hf.
  - destruct (Ascii.eqb _ _); intros [= <-]; cbn [ps_buf ps_p];
      first [lia|apply Hf].
  - intros [= <-]. cbn [ps_buf ps_p]. lia.
  - intros [= <-]. cbn [ps_buf ps_p]. lia.
Qed.

(** The palette makes parse_diff_color end in PS_FAIL. *)
Definition palette_fails (w : world) : bool :=
  color_palette w
  && negb (Ascii.eqb (peek (palette_mem w) 0) NUL)
  && match parse_palette
             (set_palette (palette_mem w) false (color_indicator w) w) with
     | Continues st =>
         match ps_state st with PS_FAIL => true | _ => false end
     | Exits _ _ => false
     end.

(** C7 (as the code has it).  parse_diff_color never ends the program.
    When the palette cannot be parsed it reports that through [error]
    with status 0 and turns the colors off; the program goes on. *)
Theorem parse_diff_color_not_fatal (w : world) :
  exists w',
    parse_diff_color w = Continues w'
    /\ (palette_fails w = true ->
        colors_enabled w' = false
        /\ last (stderr_log w')
           = Some (mk_diag 0 "unparsable value for --palette" None))
    /\ (palette_fails w = false -> colors_enabled w' = colors_enabled w).
Proof.
  unfold parse_diff_color, palette_fails.
  destruct (color_palette w); cbn [negb orb andb];
    [|exists w; split; [reflexivity|]; split; [discriminate|reflexivity]].
  destruct (Ascii.eqb (peek (palette_mem w) 0) NUL); cbn [negb andb];
    [exists w; split; [reflexivity|]; split; [discriminate|reflexivity]|].
  set (w0 := set_palette (palette_mem w) false (color_indicator w) w).
  destruct (parse_run_terminates (S (length (palette_mem w0)))
              (mk_parser 0 0 ("?"%char, "?"%char) PS_START w0))
    as (st & E & Hstop & Hce); [cbn [ps_world ps_p]; lia|].
  unfold parse_palette. rewrite E. cbn [bind].
  cbn [ps_world] in Hce. change (colors_enabled w0) with (colors_enabled w) in Hce.
  destruct (ps_state st); try discriminate Hstop.
  - exists (ps_world st). split; [reflexivity|].
    split; [discriminate|]. intros _. exact Hce.
  - eexists. split; [reflexivity|].
    cbn [colors_enabled set_colors_enabled stderr_log set_stderr].
    split; [|discriminate]. intros _. split; [reflexivity|].
    apply last_snoc.
Qed.

(** *** What parse_diff_color leaves alone *)

(** One turn of the loop writes nothing to [outfile], keeps
    [color_palette] null and the table of indicators at its length, and
    issues at most one diagnostic, with status 0, on its way to
    PS_FAIL. *)
Lemma parse_turn_frame st st' :
  parse_turn st = Continues st' ->
  trace (ps_world st') = trace (ps_world st)
  /\ room (ps_world st') = room (ps_world st)
  /\ last_context (ps_world st') = last_context (ps_world st)
  /\ color_palette (ps_world st') = color_palette (ps_world st)
  /\ length (color_indicator (ps_world st'))
     = length (color_indicator (ps_world st))
  /\ (stderr_log (ps_world st') = stderr_log (ps_world st)
      \/ (ps_state st' = PS_FAIL
          /\ exists d,
               stderr_log (ps_world st') = stderr_log (ps_world st) ++ [d]
               /\ d_status d = 0)).
Proof.
  destruct st as [buf p label state w].
  unfold parse_turn, after_funky, error, bind.
  cbn [ps_state ps_world ps_p ps_buf ps_label Z.eqb].
  destruct state.
  - destruct (peek (palette_mem w) p) as [[] [] [] [] [] [] [] []];
      intros [= <-]; cbn [ps_world set_palette trace room last_context
                          color_palette color_indicator stderr_log];
      repeat split; left; reflexivity.
  - destruct (negb _); intros [= <-]; cbn [ps_world];
      repeat split; left; reflexivity.
  - destruct (Ascii.eqb _ _);
      [|intros [= <-]; cbn [ps_world]; repeat split; left; reflexivity].
    destruct (find_indicator _ _ _) as [ind_no|].
    + destruct (fr_ok _); intros [= <-];
        cbn [ps_world ps_state set_palette set_stderr trace room last_context
             color_palette color_indicator stderr_log];
        rewrite ?length_insert; repeat split;
        first [left; reflexivity
              |right; split; [reflexivity|eexists; split; reflexivity]].
    + intros [= <-].
      cbn [ps_world ps_state set_stderr trace room last_context
           color_palette color_indicator stderr_log].
      repeat split. right. split; [reflexivity|].
      eexists; split; reflexivity.
  - destruct (Ascii.eqb _ _); intros [= <-];
      cbn [ps_world set_palette trace room last_context
           color_palette color_indicator stderr_log];
      repeat split; left; reflexivity.
  - intros [= <-]. repeat split. left; reflexivity.
  - intros [= <-]. repeat split. left; reflexivity.
Qed.

Lemma parse_run_frame fuel :
  forall st st',
    parse_run fuel st = Continues st' ->
    trace (ps_world st') = trace (ps_world st)
    /\ room (ps_world st') = room (ps_world st)
    /\ last_context (ps_world st') = last_context (ps_world st)
    /\ color_palette (ps_world st') = color_palette (ps_world st)
    /\ length (color_indicator (ps_world st'))
       = length (color_indicator (ps_world st))
    /\ (stderr_log (ps_world st') = stderr_log (ps_world st)
        \/ (ps_state st' = PS_FAIL
            /\ exists d,
                 stderr_log (ps_world st') = stderr_log (ps_world st) ++ [d]
                 /\ d_status d = 0)).
Proof.
  induction fuel as [|fuel IH]; intros st st'; cbn [parse_run].
  - intros [= <-]. repeat split. left; reflexivity.
  - destruct (parse_running (ps_state st)) eqn:Hrun;
      [|intros [= <-]; repeat split; left; reflexivity].
    destruct (parse_turn_effect st Hrun) as (st1 & E & _).
    rewrite E. cbn [bind]. intros Hrest.
    destruct (parse_turn_frame _ _ E) as (Ht & Hr & Hl & Hp & Hi & Hlog).
    destruct Hlog as [Hlog|(Hfail & d & Hlog & Hd)].
    + destruct (IH _ _ Hrest) as (Ht' & Hr' & Hl' & Hp' & Hi' & Hlog').
      rewrite <- Ht, <- Hr, <- Hl, <- Hp, <- Hi, <- Hlog.
      repeat split; assumption.
    + assert (Est : st' = st1).
      { destruct fuel; cbn [parse_run] in Hrest; rewrite ?Hfail in Hrest;
          cbn [parse_running] in Hrest; congruence. }
      subst st'. repeat split; try assumption.
      right. split; [exact Hfail|]. exists d. split; assumption.
Qed.

(** X14.  parse_diff_color processes a palette once: it leaves
    [color_palette] null, so that a second call changes nothing; a call
    with no palette or an empty palette changes nothing either. *)
Theorem parse_diff_color_once (w w' : world) :
  parse_diff_color w = Continues w' ->
  parse_diff_color w' = Continues w'
  /\ (color_palette w = false \/ peek (palette_mem w) 0 = NUL -> w' = w).
Proof.
  unfold parse_diff_color at 1.
  destruct (color_palette w) eqn:Hcp; cbn [negb orb].
  - destruct (Ascii.eqb_spec (peek (palette_mem w) 0) NUL) as [Hnul|Hnul].
    + intros [= <-]. split; [|reflexivity].
      unfold parse_diff_color. rewrite Hcp. cbn [negb orb].
      rewrite Hnul, Ascii.eqb_refl. reflexivity.
    + set (w0 := set_palette (palette_mem w) false (color_indicator w) w).
      unfold parse_palette.
      destruct (parse_run_terminates (S (length (palette_mem w0)))
                  (mk_parser 0 0 ("?"%char, "?"%char) PS_START w0))
        as (st & E & _); [cbn [ps_world ps_p]; lia|].
      rewrite E. cbn [bind].
      destruct (parse_run_frame _ _ _ E) as (_ & _ & _ & Hp & _).
      cbn [ps_world color_palette] in Hp.
      change (color_palette w0) with false in Hp.
      assert (Hnull : forall w1,
                 color_palette w1 = false ->
                 parse_diff_color w1 = Continues w1)
        by (intros w1 H1; unfold parse_diff_color; rewrite H1; reflexivity).
      intros Hres. split.
      * apply Hnull.
        destruct (ps_state st); cbn [error bind Z.eqb] in Hres;
          injection Hres as <-; exact Hp.
      * intros [H|H]; [discriminate H|contradiction].
  - intros [= <-]. split; [|reflexivity].
    unfold parse_diff_color. rewrite Hcp. reflexivity.
Qed.

(** X15.  parse_diff_color writes nothing to [outfile] and leaves the
    color context alone.  It issues no diagnostic when the palette
    parses, and at most two, all with status 0, when it does not. *)
Theorem parse_diff_color_quiet (w : world) :
  exists w',
    parse_diff_color w = Continues w'
    /\ trace w' = trace w /\ room w' = room w
    /\ last_context w' = last_context w
    /\ length (color_indicator w') = length (color_indicator w)
    /\ (palette_fails w = false -> stderr_log w' = stderr_log w)
    /\ exists ds,
         stderr_log w' = stderr_log w ++ ds
         /\ (length ds <= 2)%nat
         /\ Forall (fun d => d_status d = 0) ds.
Proof.
  unfold parse_diff_color, palette_fails.
  destruct (color_palette w); cbn [negb orb andb];
    [|exists w; do 6 (split; [reflexivity|]); exists []; rewrite app_nil_r;
      split; [reflexivity|]; split; [simpl; lia|constructor]].
  destruct (Ascii.eqb (peek (palette_mem w) 0) NUL); cbn [negb andb];
    [exists w; do 6 (split; [reflexivity|]); exists []; rewrite app_nil_r;
     split; [reflexivity|]; split; [simpl; lia|constructor]|].
  set (w0 := set_palette (palette_mem w) false (color_indicator w) w).
  unfold parse_palette.
  destruct (parse_run_terminates (S (length (palette_mem w0)))
              (mk_parser 0 0 ("?"%char, "?"%char) PS_START w0))
    as (st & E & Hstop & _); [cbn [ps_world ps_p]; lia|].
  rewrite E. cbn [bind].
  destruct (parse_run_frame _ _ _ E) as (Ht & Hr & Hl & _ & Hi & Hlog).
  cbn [ps_world] in Ht, Hr, Hl, Hi, Hlog.
  change (trace w0) with (trace w) in Ht.
  change (room w0) with (room w) in Hr.
  change (last_context w0) with (last_context w) in Hl.
  change (color_indicator w0) with (color_indicator w) in Hi.
  change (stderr_log w0) with (stderr_log w) in Hlog.
  destruct (ps_state st) eqn:Hs; try discriminate Hstop.
  - exists (ps_world st).
    destruct Hlog as [Hlog|(Hfail & _)]; [|discriminate Hfail].
    split; [reflexivity|]. split; [exact Ht|]. split; [exact Hr|].
    split; [exact Hl|]. split; [exact Hi|]. split; [intros _; exact Hlog|].
    exists []. rewrite app_nil_r.
    split; [exact Hlog|]. split; [simpl; lia|constructor].
  - eexists. split; [reflexivity|].
    cbn [set_colors_enabled set_stderr trace room last_context
         color_indicator stderr_log].
    split; [exact Ht|]. split; [exact Hr|].
    split; [exact Hl|]. split; [exact Hi|]. split; [discriminate|].
    destruct Hlog as [Hlog|(_ & d & Hlog & Hd)]; rewrite Hlog.
    + eexists. split; [reflexivity|]. split; [simpl; lia|].
      constructor; [reflexivity|constructor].
    + exists [d; mk_diag 0 "unparsable value for --palette" None].
      rewrite <- app_assoc. split; [reflexivity|]. split; [simpl; lia|].
      constructor; [exact Hd|]. constructor; [reflexivity|constructor].
Qed.

(** *** The indicators point into the palette *)

(** An indicator that points into the palette designates bytes before
    the offset [lim]. *)
Definition indicator_below (lim : nat) (b : bin_str) : Prop :=
  match bs_string b with
  | InPalette off => (off + bs_len b <= lim)%nat
  | _ => True
  end.

(** What the loop of parse_diff_color keeps true: [buf] has not passed
    [p] nor the end of the palette, [p] is inside the palette while the
    loop runs, and the indicators set so far lie before [buf]. *)
Definition parser_inv (st : parser) : Prop :=
  (ps_buf st <= ps_p st)%nat
  /\ (ps_buf st <= length (palette_mem (ps_world st)))%nat
  /\ (parse_running (ps_state st) = true ->
      (ps_p st <= length (palette_mem (ps_world st)))%nat)
  /\ Forall (indicator_below (ps_buf st)) (color_indicator (ps_world st)).

Lemma indicator_below_le lim lim' b :
  (lim <= lim')%nat -> indicator_below lim b -> indicator_below lim' b.
Proof.
  unfold indicator_below. intros Hle. destruct (bs_string b); auto. lia.
Qed.

Lemma indicator_below_new str lim :
  (str <= lim)%nat -> indicator_below lim (mk_bin_str (lim - str) (InPalette str)).
Proof. unfold indicator_below. simpl. lia. Qed.

Lemma parse_turn_inv st st' :
  parse_running (ps_state st) = true ->
  parser_inv st ->
  parse_turn st = Continues st' ->
  parser_inv st'
  /\ (ps_buf st <= ps_buf st')%nat
  /\ forall i, (i < ps_buf st)%nat ->
               palette_mem (ps_world st') !! i = palette_mem (ps_world st) !! i.
Proof.
  destruct st as [buf p label state w].
  unfold parser_inv. cbn [ps_state ps_world ps_p ps_buf].
  intros Hrun (Hbp & Hbl & Hpl & Hind). specialize (Hpl Hrun).
  pose proof (peek_lt (palette_mem w) p) as Hlt.
  (* a call of get_funky_string at [S p], made behind a byte that is
     not the NUL *)
  assert (Hfunky : forall eq ok ind,
    peek (palette_mem w) p <> NUL ->
    Forall (indicator_below
              (fr_dest (get_funky_string (palette_mem w) buf (S p) eq))) ind ->
    let st' := after_funky (get_funky_string (palette_mem w) buf (S p) eq)
                 ok ind (mk_parser buf p label state w) in
    ((ps_buf st' <= ps_p st')%nat
     /\ (ps_buf st' <= length (palette_mem (ps_world st')))%nat
     /\ (parse_running (ps_state st') = true ->
         (ps_p st' <= length (palette_mem (ps_world st')))%nat)
     /\ Forall (indicator_below (ps_buf st')) (color_indicator (ps_world st')))
    /\ (buf <= ps_buf st')%nat
    /\ forall i, (i < buf)%nat ->
                 palette_mem (ps_world st') !! i = palette_mem w !! i).
  { intros eq ok ind Hc Hi.
    destruct (get_funky_string_effect (palette_mem w) buf (S p) eq)
      as (Hd & Hs & Hadv & Hlen & Hfoot & Hbound).
    apply Hlt in Hc. destruct Hbound as [Hb1 Hb2]; [lia|lia|].
    unfold after_funky.
    cbn [ps_buf ps_p ps_state ps_world palette_mem color_indicator set_palette].
    rewrite Hlen. repeat split.
    - lia.
    - exact Hb1.
    - destruct (fr_ok _); [intros _; apply Hb2; reflexivity|discriminate].
    - exact Hi.
    - exact Hd.
    - intros i Hi'. apply Hfoot. left. exact Hi'. }
  assert (Hkeep : forall eq,
    Forall (indicator_below
              (fr_dest (get_funky_string (palette_mem w) buf (S p) eq)))
      (color_indicator w)).
  { intros eq. eapply List.Forall_impl; [|exact Hind].
    intros b. apply indicator_below_le.
    apply (get_funky_string_effect (palette_mem w) buf (S p) eq). }
  unfold parse_turn. cbn [ps_state ps_world ps_p ps_buf ps_label].
  destruct state; try discriminate Hrun; clear Hrun.
  - (* PS_START *)
    destruct (peek (palette_mem w) p) as [[] [] [] [] [] [] [] []] eqn:Hc;
      intros [= <-];
      try (cbn [ps_buf ps_p ps_state ps_world parse_running];
           repeat split;
           first [assumption | lia | discriminate
                 | intros _; assert (p < length (palette_mem w))%nat
                     by (apply Hlt; discriminate); lia]).
    apply Hfunky; [discriminate|apply Hkeep].
  - (* PS_2 *)
    destruct (Ascii.eqb_spec (peek (palette_mem w) p) NUL) as [Hc|Hc];
      cbn [negb]; intros [= <-];
      cbn [ps_buf ps_p ps_state ps_world parse_running];
      repeat split; first [assumption | lia | discriminate | idtac].
    intros _. apply Hlt in Hc. lia.
  - (* PS_3 *)
    destruct (Ascii.eqb_spec (peek (palette_mem w) p) "="%char) as [Hc|Hc].
    + assert (Hnn : peek (palette_mem w) p <> NUL)
        by (rewrite Hc; discriminate).
      destruct (find_indicator _ indicator_name 0) as [ind_no|].
      * destruct (fr_ok (get_funky_string (palette_mem w) buf (S p) false))
          eqn:Hok.
        -- intros [= <-]. apply Hfunky; [exact Hnn|].
           apply Forall_insert; [apply Hkeep|].
           apply indicator_below_new.
           apply (get_funky_string_effect (palette_mem w) buf (S p) false).
        -- cbn [error bind Z.eqb]. intros [= <-].
           destruct (Hfunky false PS_START (color_indicator w) Hnn
                       (Hkeep false)) as ((H1 & H2 & _ & H4) & H5 & H6).
           cbn [ps_buf ps_p ps_state ps_world parse_running
                palette_mem color_indicator set_stderr] in *.
           repeat split; first [assumption | discriminate].
      * cbn [error bind Z.eqb]. intros [= <-].
        cbn [ps_buf ps_p ps_state ps_world parse_running
             palette_mem color_indicator set_stderr].
        repeat split; first [assumption | lia | discriminate].
    + intros [= <-]. cbn [ps_buf ps_p ps_state ps_world parse_running].
      repeat split; first [assumption | lia | discriminate].
  - (* PS_4 *)
    destruct (Ascii.eqb_spec (peek (palette_mem w) p) "="%char) as [Hc|Hc].
    + intros [= <-]. apply Hfunky; [rewrite Hc; discriminate|apply Hkeep].
    + intros [= <-]. cbn [ps_buf ps_p ps_state ps_world parse_running].
      repeat split; first [assumption | lia | discriminate].
Qed.

Lemma parse_run_inv fuel :
  forall st st',
    parser_inv st ->
    parse_run fuel st = Continues st' ->
    parser_inv st'
    /\ length (palette_mem (ps_world st'))
       = length (palette_mem (ps_world st)).
Proof.
  induction fuel as [|fuel IH]; intros st st' Hinv; cbn [parse_run].
  - intros [= <-]. split; [exact Hinv|reflexivity].
  - destruct (parse_running (ps_state st)) eqn:Hrun;
      [|intros [= <-]; split; [exact Hinv|reflexivity]].
    destruct (parse_turn_effect st Hrun) as (st1 & E & Hlen & _).
    rewrite E. cbn [bind]. intros Hrest.
    destruct (IH st1 st') as [Hinv' Hlen'];
      [apply (parse_turn_inv st st1 Hrun Hinv E)|exact Hrest|].
    split; [exact Hinv'|congruence].
Qed.

(** X16.  When no indicator points into the palette before the call
    (they are the literals of the initial table), every indicator that
    does so after parse_diff_color designates bytes inside the palette
    buffer, and the table has as many entries as before. *)
Theorem parse_diff_color_indicators_in_palette (w w' : world) :
  Forall (indicator_below 0) (color_indicator w) ->
  parse_diff_color w = Continues w' ->
  length (palette_mem w') = length (palette_mem w)
  /\ length (color_indicator w') = length (color_indicator w)
  /\ Forall (indicator_below (length (palette_mem w'))) (color_indicator w').
Proof.
  intros Hind. unfold parse_diff_color.
  assert (Hsame : length (palette_mem w) = length (palette_mem w)
                  /\ length (color_indicator w) = length (color_indicator w)
                  /\ Forall (indicator_below (length (palette_mem w)))
                       (color_indicator w)).
  { split; [reflexivity|]. split; [reflexivity|].
    eapply List.Forall_impl; [|exact Hind].
    intros b. apply indicator_below_le. lia. }
  destruct (negb (color_palette w) || Ascii.eqb (peek (palette_mem w) 0) NUL);
    [intros [= <-]; exact Hsame|].
  set (w0 := set_palette (palette_mem w) false (color_indicator w) w).
  unfold parse_palette.
  destruct (parse_run_terminates (S (length (palette_mem w0)))
              (mk_parser 0 0 ("?"%char, "?"%char) PS_START w0))
    as (st & E & _); [cbn [ps_world ps_p]; lia|].
  rewrite E. cbn [bind].
  destruct (parse_run_inv (S (length (palette_mem w0)))
              (mk_parser 0 0 ("?"%char, "?"%char) PS_START w0) st)
    as [Hinv Hlen]; [|exact E|].
  { unfold parser_inv. cbn [ps_buf ps_p ps_world ps_state].
    repeat split; try lia. exact Hind. }
  destruct (parse_run_frame _ _ _ E) as (_ & _ & _ & _ & Hi & _).
  cbn [ps_world] in Hi, Hlen.
  change (color_indicator w0) with (color_indicator w) in Hi.
  change (palette_mem w0) with (palette_mem w) in Hlen.
  destruct Hinv as (_ & Hbl & _ & Hall).
  assert (Hres : length (palette_mem (ps_world st)) = length (palette_mem w)
                 /\ length (color_indicator (ps_world st))
                    = length (color_indicator w)
                 /\ Forall (indicator_below (length (palette_mem (ps_world st))))
                      (color_indicator (ps_world st))).
  { split; [exact Hlen|]. split; [exact Hi|].
    eapply List.Forall_impl; [|exact Hall].
    intros b. apply indicator_below_le. exact Hbl. }
  destruct (ps_state st); cbn [error bind Z.eqb]; intros [= <-];
    exact Hres.
Qed.

(** *** A palette without escapes *)

(** The text of a palette entry for the indicator with the index
    [fst e]: its label, an equals sign and the value [snd e]. *)
Definition entry_text (e : nat * list ascii) : list ascii :=
  list_ascii_of_string (nth (fst e) indicator_name ""%string)
  ++ "="%char :: snd e.

(** Entries, each with a colon before it. *)
Definition sep_text (es : list (nat * list ascii)) : list ascii :=
  flat_map (fun e => ":"%char :: entry_text e) es.

(** The text of a palette: its entries with colons between them. *)
Definition palette_text (es : list (nat * list ascii)) : list ascii :=
  match es with
  | [] => []
  | e :: es' => entry_text e ++ sep_text es'
  end.

(** An entry for one of the eight indicators, with a value that has no
    escape and no colon. *)
Definition plain_entry (e : nat * list ascii) : Prop :=
  (fst e < 8)%nat /\ forallb (funky_plain false) (snd e) = true.

(** The strings the indicators designate. *)
Definition indicator_bytes (w : world) : list (list ascii) :=
  bin_str_bytes w <$> color_indicator w.

Lemma drop_cons_inv {A} (l : list A) p x t :
  drop p l = x :: t -> l !! p = Some x /\ drop (S p) l = t.
Proof.
  intros H. split.
  - rewrite <- (Nat.add_0_r p), <- lookup_drop, H. reflexivity.
  - replace (S p) with (p + 1)%nat by lia.
    rewrite <- drop_drop, H. reflexivity.
Qed.

Lemma peek_drop mem p x t : drop p mem = x :: t -> x <> NUL -> peek mem p = x.
Proof.
  intros H _. apply drop_cons_inv in H as [H _]. unfold peek. rewrite H.
  reflexivity.
Qed.

Lemma parse_run_step fuel st st1 :
  parse_turn st = Continues st1 ->
  parse_running (ps_state st) = true ->
  parse_run (S fuel) st = parse_run fuel st1.
Proof. intros E Hrun. cbn [parse_run]. rewrite Hrun, E. reflexivity. Qed.

Lemma parse_turn_label buf p label w c :
  peek (palette_mem w) p = c ->
  c <> ":"%char -> c <> "*"%char -> c <> NUL ->
  parse_turn (mk_parser buf p label PS_START w)
  = Continues (mk_parser buf (S p) (c, snd label) PS_2 w).
Proof.
  intros Hc H1 H2 H3. unfold parse_turn.
  cbn [ps_state ps_world ps_p ps_buf ps_label]. rewrite Hc.
  unfold NUL in H3.
  destruct c as [[] [] [] [] [] [] [] []]; cbv beta iota zeta;
    first [congruence | reflexivity].
Qed.

Lemma parse_turn_colon buf p label w :
  peek (palette_mem w) p = ":"%char ->
  parse_turn (mk_parser buf p label PS_START w)
  = Continues (mk_parser buf (S p) label PS_START w).
Proof.
  intros Hc. unfold parse_turn.
  cbn [ps_state ps_world ps_p ps_buf ps_label]. rewrite Hc. reflexivity.
Qed.

Lemma parse_turn_done buf p label w :
  peek (palette_mem w) p = NUL ->
  parse_turn (mk_parser buf p label PS_START w)
  = Continues (mk_parser buf p label PS_DONE w).
Proof.
  intros Hc. unfold parse_turn.
  cbn [ps_state ps_world ps_p ps_buf ps_label]. rewrite Hc. reflexivity.
Qed.

Lemma parse_turn_second buf p label w c :
  peek (palette_mem w) p = c -> c <> NUL ->
  parse_turn (mk_parser buf p label PS_2 w)
  = Continues (mk_parser buf (S p) (fst label, c) PS_3 w).
Proof.
  intros Hc H. unfold parse_turn.
  cbn [ps_state ps_world ps_p ps_buf ps_label]. rewrite Hc.
  destruct (Ascii.eqb_spec c NUL); [contradiction|reflexivity].
Qed.

Lemma parse_turn_value buf p label w i :
  peek (palette_mem w) p = "="%char ->
  find_indicator (c_str [fst label; snd label]) indicator_name 0 = Some i ->
  fr_ok (get_funky_string (palette_mem w) buf (S p) false) = true ->
  parse_turn (mk_parser buf p label PS_3 w)
  = Continues
      (after_funky (get_funky_string (palette_mem w) buf (S p) false) PS_START
         (<[i := mk_bin_str
                   (fr_dest (get_funky_string (palette_mem w) buf (S p) false)
                    - buf)
                   (InPalette buf)]> (color_indicator w))
         (mk_parser buf p label PS_3 w)).
Proof.
  intros Hc Hf Hok. unfold parse_turn.
  cbn [ps_state ps_world ps_p ps_buf ps_label].
  rewrite Hc, Ascii.eqb_refl, Hf, Hok. reflexivity.
Qed.

Lemma bin_str_bytes_agree w w1 lim b :
  indicator_below lim b ->
  (forall j, (j < lim)%nat -> palette_mem w1 !! j = palette_mem w !! j) ->
  bin_str_bytes w1 b = bin_str_bytes w b.
Proof.
  unfold indicator_below, bin_str_bytes. intros Hb Hmem.
  destruct (bs_string b) as [|s|off]; try reflexivity.
  apply list_eq. intros k.
  destruct (decide (k < bs_len b)%nat) as [Hk|Hk].
  - rewrite !lookup_take_lt, !lookup_drop by exact Hk. apply Hmem. lia.
  - rewrite !lookup_take_ge by lia. reflexivity.
Qed.

(** The three turns of the loop on an entry that starts at [p]. *)
Lemma parse_entry_chars fuel buf p label w c1 c2 i v rest :
  c1 <> ":"%char -> c1 <> "*"%char -> c1 <> NUL -> c2 <> NUL ->
  find_indicator (c_str [c1; c2]) indicator_name 0 = Some i ->
  forallb (funky_plain false) v = true ->
  (buf <= p)%nat ->
  drop p (palette_mem w) = c1 :: c2 :: "="%char :: v ++ rest ->
  (rest = [] \/ head rest = Some ":"%char) ->
  Forall (indicator_below buf) (color_indicator w) ->
  exists w1,
    parse_run (3 + fuel) (mk_parser buf p label PS_START w)
    = parse_run fuel
        (mk_parser (buf + length v) (p + 3 + length v) (c1, c2) PS_START w1)
    /\ length (palette_mem w1) = length (palette_mem w)
    /\ drop (p + 3 + length v) (palette_mem w1) = rest
    /\ colors_enabled w1 = colors_enabled w
    /\ stderr_log w1 = stderr_log w
    /\ color_palette w1 = color_palette w
    /\ Forall (indicator_below (buf + length v)) (color_indicator w1)
    /\ indicator_bytes w1 = <[i := v]> (indicator_bytes w).
Proof.
  intros Hc1 Hc1' Hc1'' Hc2 Hfind Hplain Hbp Hdrop Hrest Hind.
  set (mem := palette_mem w) in *.
  pose proof (peek_drop _ _ _ _ Hdrop Hc1'') as Hp1.
  apply drop_cons_inv in Hdrop as [_ Hdrop].
  pose proof (peek_drop _ _ _ _ Hdrop Hc2) as Hp2.
  apply drop_cons_inv in Hdrop as [_ Hdrop].
  assert (Hp3 : peek mem (S (S p)) = "="%char)
    by (apply (peek_drop _ _ _ _ Hdrop); discriminate).
  apply drop_cons_inv in Hdrop as [_ Hdrop].
  assert (Hv : take (length v) (drop (S (S (S p))) mem) = v)
    by (rewrite Hdrop; apply take_app_length).
  assert (Hr : drop (S (S (S p)) + length v) mem = rest)
    by (rewrite <- drop_drop, Hdrop; apply drop_app_length).
  assert (Hterm : funky_terminator false
                    (peek mem (S (S (S p)) + length v)) = true).
  { unfold peek.
    rewrite <- (Nat.add_0_r (S (S (S p)) + length v)), <- lookup_drop, Hr.
    destruct Hrest as [->|Hh]; [reflexivity|].
    destruct rest as [|c rest]; [discriminate Hh|].
    injection Hh as ->. reflexivity. }
  destruct (get_funky_string_plain mem buf (S (S (S p))) false v)
    as (Hok & Hsrc & Hdest & Hout); [lia|exact Hv|exact Hplain|exact Hterm|].
  destruct (get_funky_string_effect mem buf (S (S (S p))) false)
    as (_ & _ & _ & Hlen & Hfoot & _).
  set (r := get_funky_string mem buf (S (S (S p))) false) in *.
  set (inds := <[i := mk_bin_str (fr_dest r - buf) (InPalette buf)]>
                 (color_indicator w)).
  exists (set_palette (fr_mem r) (color_palette w) inds w).
  split; [|split; [|split; [|split; [|split; [|split; [|split]]]]]].
  - change (3 + fuel)%nat with (S (S (S fuel))).
    rewrite (parse_run_step _ _ _
               (parse_turn_label buf p label w c1 Hp1 Hc1 Hc1' Hc1'')
               eq_refl).
    rewrite (parse_run_step _ _ _
               (parse_turn_second buf (S p) (c1, snd label) w c2 Hp2 Hc2)
               eq_refl).
    cbn [fst].
    rewrite (parse_run_step _ _ _
               (parse_turn_value buf (S (S p)) (c1, c2) w i Hp3 Hfind Hok)
               eq_refl).
    fold mem. fold r. fold inds. unfold after_funky.
    cbn [ps_label ps_world]. rewrite Hok, Hsrc, Hdest.
    replace (S (S (S p)) + length v)%nat with (p + 3 + length v)%nat by lia.
    reflexivity.
  - exact Hlen.
  - cbn [palette_mem set_palette]. rewrite <- Hr.
    replace (S (S (S p)) + length v)%nat with (p + 3 + length v)%nat by lia.
    apply list_eq. intros k. rewrite !lookup_drop. apply Hfoot. right. lia.
  - reflexivity.
  - reflexivity.
  - reflexivity.
  - cbn [color_indicator set_palette]. subst inds.
    apply Forall_insert.
    + eapply List.Forall_impl; [|exact Hind].
      intros b. apply indicator_below_le. lia.
    + rewrite Hdest. unfold indicator_below. cbn [bs_string bs_len]. lia.
  - unfold indicator_bytes. cbn [color_indicator set_palette]. subst inds.
    rewrite list_fmap_insert. f_equal.
    + unfold bin_str_bytes. cbn [bs_string bs_len palette_mem set_palette].
      rewrite Hdest. replace (buf + length v - buf)%nat with (length v) by lia.
      exact Hout.
    + apply Forall_fmap_ext. eapply List.Forall_impl; [|exact Hind].
      intros b Hb. apply (bin_str_bytes_agree _ _ buf); [exact Hb|].
      intros j Hj. cbn [palette_mem set_palette]. apply Hfoot. left. exact Hj.
Qed.

(** The same for the entry of the indicator with the index [i]. *)
Lemma parse_entry fuel buf p label w e rest :
  plain_entry e ->
  (buf <= p)%nat ->
  drop p (palette_mem w) = entry_text e ++ rest ->
  (rest = [] \/ head rest = Some ":"%char) ->
  Forall (indicator_below buf) (color_indicator w) ->
  exists label1 w1,
    parse_run (3 + fuel) (mk_parser buf p label PS_START w)
    = parse_run fuel
        (mk_parser (buf + length (snd e)) (p + 3 + length (snd e)) label1
           PS_START w1)
    /\ length (palette_mem w1) = length (palette_mem w)
    /\ drop (p + 3 + length (snd e)) (palette_mem w1) = rest
    /\ colors_enabled w1 = colors_enabled w
    /\ stderr_log w1 = stderr_log w
    /\ color_palette w1 = color_palette w
    /\ Forall (indicator_below (buf + length (snd e))) (color_indicator w1)
    /\ indicator_bytes w1 = <[fst e := snd e]> (indicator_bytes w).
Proof.
  destruct e as [i v]. unfold plain_entry, entry_text. cbn [fst snd].
  intros [Hi Hplain] Hbp Hdrop Hrest Hind.
  do 8 (destruct i as [|i];
        [cbn [nth indicator_name list_ascii_of_string app] in Hdrop;
         eexists;
         eapply (parse_entry_chars fuel buf p label w _ _ _ v rest);
         try eassumption; first [discriminate | reflexivity]|]).
  lia.
Qed.

Lemma entry_text_shape e :
  plain_entry e ->
  length (entry_text e) = (3 + length (snd e))%nat
  /\ exists c t, entry_text e = c :: t /\ c <> NUL.
Proof.
  destruct e as [i v]. unfold plain_entry, entry_text. cbn [fst snd].
  intros [Hi _].
  do 8 (destruct i as [|i];
        [cbn [nth indicator_name list_ascii_of_string app length];
         split; [reflexivity|]; eexists _, _; split; [reflexivity|discriminate]
        |]).
  lia.
Qed.

Lemma sep_text_head es : sep_text es = [] \/ head (sep_text es) = Some ":"%char.
Proof. destruct es; [left|right]; reflexivity. Qed.

(** The loop on the colons and entries that follow the first entry. *)
Lemma parse_run_entries es :
  forall fuel buf p label w,
    Forall plain_entry es ->
    (buf <= p)%nat ->
    drop p (palette_mem w) = sep_text es ->
    Forall (indicator_below buf) (color_indicator w) ->
    (length (palette_mem w) - p < fuel)%nat ->
    exists st',
      parse_run fuel (mk_parser buf p label PS_START w) = Continues st'
      /\ ps_state st' = PS_DONE
      /\ colors_enabled (ps_world st') = colors_enabled w
      /\ stderr_log (ps_world st') = stderr_log w
      /\ indicator_bytes (ps_world st')
         = foldl (fun t e => <[fst e := snd e]> t) (indicator_bytes w) es.
Proof.
  induction es as [|e es IH]; intros fuel buf p label w Hwf Hbp Hdrop Hind Hfuel.
  - destruct fuel as [|fuel]; [lia|].
    assert (Hpeek : peek (palette_mem w) p = NUL).
    { unfold peek. rewrite <- (Nat.add_0_r p), <- lookup_drop, Hdrop.
      reflexivity. }
    rewrite (parse_run_step _ _ _ (parse_turn_done _ _ label _ Hpeek) eq_refl).
    exists (mk_parser buf p label PS_DONE w).
    split; [destruct fuel; reflexivity|]. repeat split.
  - inversion Hwf as [|? ? He Hes]; subst.
    destruct (entry_text_shape e He) as [Hlen _].
    change (sep_text (e :: es))
      with (":"%char :: entry_text e ++ sep_text es) in Hdrop.
    assert (Hmem : (length (palette_mem w) - p
                    = 1 + (3 + length (snd e)) + length (sep_text es))%nat).
    { apply (f_equal length) in Hdrop. rewrite length_drop in Hdrop.
      cbn [length] in Hdrop. rewrite length_app, Hlen in Hdrop. lia. }
    assert (Hpeek : peek (palette_mem w) p = ":"%char)
      by (apply (peek_drop _ _ _ _ Hdrop); discriminate).
    apply drop_cons_inv in Hdrop as [_ Hdrop].
    destruct fuel as [|fuel]; [lia|].
    rewrite (parse_run_step _ _ _ (parse_turn_colon _ _ label _ Hpeek) eq_refl).
    replace fuel with (3 + (fuel - 3))%nat by lia.
    destruct (parse_entry (fuel - 3) buf (S p) label w e (sep_text es) He
                ltac:(lia) Hdrop (sep_text_head es) Hind)
      as (label1 & w1 & E & Hl1 & Hd1 & Hce1 & Hse1 & _ & Hi1 & Hb1).
    rewrite E.
    destruct (IH (fuel - 3)%nat (buf + length (snd e))%nat
                (S p + 3 + length (snd e))%nat label1 w1 Hes)
      as (st' & E' & Hdone & Hce & Hse & Hb); [lia|exact Hd1|exact Hi1|lia|].
    exists st'. split; [exact E'|]. split; [exact Hdone|].
    split; [congruence|]. split; [congruence|].
    cbn [foldl]. rewrite Hb, Hb1. reflexivity.
Qed.

(** X17.  A palette made of entries for the eight indicators, with
    colons between them and values that hold no escape and no colon, is
    accepted without a diagnostic: parse_diff_color leaves colors as
    they are and makes each indicator named by an entry designate the
    value of the last entry that names it; the other indicators keep
    their strings. *)
Theorem parse_diff_color_plain_palette (es : list (nat * list ascii))
    (w : world) :
  color_palette w = true ->
  palette_mem w = palette_text es ->
  Forall plain_entry es ->
  Forall (indicator_below 0) (color_indicator w) ->
  exists w',
    parse_diff_color w = Continues w'
    /\ colors_enabled w' = colors_enabled w
    /\ stderr_log w' = stderr_log w
    /\ indicator_bytes w'
       = foldl (fun t e => <[fst e := snd e]> t) (indicator_bytes w) es.
Proof.
  intros Hcp Hmem Hwf Hind. unfold parse_diff_color.
  rewrite Hcp. cbn [negb orb].
  destruct es as [|e es].
  - cbn [palette_text] in Hmem. rewrite Hmem. cbn.
    exists w. repeat split.
  - inversion Hwf as [|? ? He Hes]; subst.
    destruct (entry_text_shape e He) as (Hlen & c & t & Ht & Hc).
    cbn [palette_text] in Hmem.
    assert (Hpeek : peek (palette_mem w) 0 = c)
      by (rewrite Hmem, Ht; reflexivity).
    rewrite Hpeek.
    destruct (Ascii.eqb_spec c NUL) as [?|_]; [contradiction|].
    set (w0 := set_palette (palette_mem w) false (color_indicator w) w).
    assert (Hmem0 : (length (palette_mem w0)
                     = 3 + length (snd e) + length (sep_text es))%nat).
    { change (palette_mem w0) with (palette_mem w).
      rewrite Hmem, length_app, Hlen. reflexivity. }
    unfold parse_palette.
    replace (S (length (palette_mem w0)))
      with (3 + (length (palette_mem w0) - 2))%nat by lia.
    destruct (parse_entry (length (palette_mem w0) - 2) 0 0
                ("?"%char, "?"%char) w0 e (sep_text es) He (le_n 0))
      as (label1 & w1 & E & Hl1 & Hd1 & Hce1 & Hse1 & _ & Hi1 & Hb1);
      [rewrite drop_0; exact Hmem|apply sep_text_head|exact Hind|].
    rewrite E.
    destruct (parse_run_entries es (length (palette_mem w0) - 2)
                (0 + length (snd e)) (0 + 3 + length (snd e)) label1 w1 Hes)
      as (st' & E' & Hdone & Hce & Hse & Hb); [lia|exact Hd1|exact Hi1|lia|].
    rewrite E'. cbn [bind]. rewrite Hdone.
    exists (ps_world st'). split; [reflexivity|].
    split; [rewrite Hce, Hce1; reflexivity|].
    split; [rewrite Hse, Hse1; reflexivity|].
    cbn [foldl]. rewrite Hb, Hb1. reflexivity.
Qed.

(** *** Palettes with escapes *)

(** A palette entry whose value is given by its tokens, as the text of
    the label and the text of the value. *)
Definition raw_entry (e : nat * list token) : nat * list ascii :=
  (fst e, tokens_text (snd e)).

(** An entry for one of the eight indicators, with a value made of
    tokens. *)
Definition token_entry (e : nat * list token) : Prop :=
  (fst e < 8)%nat
  /\ forallb (token_ok false) (snd e) = true
  /\ separated (snd e) = true.

(** The three turns of the loop on an entry that starts at [p]. *)
Lemma parse_entry_tokens fuel buf p label w c1 c2 i ts rest :
  c1 <> ":"%char -> c1 <> "*"%char -> c1 <> NUL -> c2 <> NUL ->
  find_indicator (c_str [c1; c2]) indicator_name 0 = Some i ->
  forallb (token_ok false) ts = true ->
  separated ts = true ->
  (buf <= p)%nat ->
  drop p (palette_mem w) = c1 :: c2 :: "="%char :: tokens_text ts ++ rest ->
  (rest = [] \/ head rest = Some ":"%char) ->
  Forall (indicator_below buf) (color_indicator w) ->
  exists w1,
    parse_run (3 + fuel) (mk_parser buf p label PS_START w)
    = parse_run fuel
        (mk_parser (buf + length ts) (p + 3 + length (tokens_text ts))
           (c1, c2) PS_START w1)
    /\ length (palette_mem w1) = length (palette_mem w)
    /\ drop (p + 3 + length (tokens_text ts)) (palette_mem w1) = rest
    /\ colors_enabled w1 = colors_enabled w
    /\ stderr_log w1 = stderr_log w
    /\ color_palette w1 = color_palette w
    /\ Forall (indicator_below (buf + length ts)) (color_indicator w1)
    /\ indicator_bytes w1 = <[i := token_byte <$> ts]> (indicator_bytes w).
Proof.
  intros Hc1 Hc1' Hc1'' Hc2 Hfind Htok Hsep Hbp Hdrop Hrest Hind.
  set (mem := palette_mem w) in *.
  set (v := tokens_text ts) in *.
  pose proof (tokens_text_length ts) as Hts. fold v in Hts.
  pose proof (peek_drop _ _ _ _ Hdrop Hc1'') as Hp1.
  apply drop_cons_inv in Hdrop as [_ Hdrop].
  pose proof (peek_drop _ _ _ _ Hdrop Hc2) as Hp2.
  apply drop_cons_inv in Hdrop as [_ Hdrop].
  assert (Hp3 : peek mem (S (S p)) = "="%char)
    by (apply (peek_drop _ _ _ _ Hdrop); discriminate).
  apply drop_cons_inv in Hdrop as [_ Hdrop].
  assert (Hv : take (length v) (drop (S (S (S p))) mem) = v)
    by (rewrite Hdrop; apply take_app_length).
  assert (Hr : drop (S (S (S p)) + length v) mem = rest)
    by (rewrite <- drop_drop, Hdrop; apply drop_app_length).
  assert (Hterm : funky_terminator false
                    (peek mem (S (S (S p)) + length v)) = true).
  { unfold peek.
    rewrite <- (Nat.add_0_r (S (S (S p)) + length v)), <- lookup_drop, Hr.
    destruct Hrest as [->|Hh]; [reflexivity|].
    destruct rest as [|c rest]; [discriminate Hh|].
    injection Hh as ->. reflexivity. }
  destruct (get_funky_string_tokens mem buf (S (S (S p))) false ts)
    as (Hok & Hsrc & Hdest & Hout); [lia|exact Htok|exact Hsep|exact Hv
                                     |exact Hterm|].
  destruct (get_funky_string_effect mem buf (S (S (S p))) false)
    as (_ & _ & _ & Hlen & Hfoot & _).
  fold v in Hsrc.
  set (r := get_funky_string mem buf (S (S (S p))) false) in *.
  set (inds := <[i := mk_bin_str (fr_dest r - buf) (InPalette buf)]>
                 (color_indicator w)).
  exists (set_palette (fr_mem r) (color_palette w) inds w).
  split; [|split; [|split; [|split; [|split; [|split; [|split]]]]]].
  - change (3 + fuel)%nat with (S (S (S fuel))).
    rewrite (parse_run_step _ _ _
               (parse_turn_label buf p label w c1 Hp1 Hc1 Hc1' Hc1'')
               eq_refl).
    rewrite (parse_run_step _ _ _
               (parse_turn_second buf (S p) (c1, snd label) w c2 Hp2 Hc2)
               eq_refl).
    cbn [fst].
    rewrite (parse_run_step _ _ _
               (parse_turn_value buf (S (S p)) (c1, c2) w i Hp3 Hfind Hok)
               eq_refl).
    fold mem. fold r. fold inds. unfold after_funky.
    cbn [ps_label ps_world]. rewrite Hok, Hsrc, Hdest.
    replace (S (S (S p)) + length v)%nat with (p + 3 + length v)%nat by lia.
    reflexivity.
  - exact Hlen.
  - cbn [palette_mem set_palette]. rewrite <- Hr.
    replace (S (S (S p)) + length v)%nat with (p + 3 + length v)%nat by lia.
    apply list_eq. intros k. rewrite !lookup_drop. apply Hfoot. right. lia.
  - reflexivity.
  - reflexivity.
  - reflexivity.
  - cbn [color_indicator set_palette]. subst inds.
    apply Forall_insert.
    + eapply List.Forall_impl; [|exact Hind].
      intros b. apply indicator_below_le. lia.
    + rewrite Hdest. unfold indicator_below. cbn [bs_string bs_len]. lia.
  - unfold indicator_bytes. cbn [color_indicator set_palette]. subst inds.
    rewrite list_fmap_insert. f_equal.
    + unfold bin_str_bytes. cbn [bs_string bs_len palette_mem set_palette].
      rewrite Hdest. replace (buf + length ts - buf)%nat with (length ts) by lia.
      exact Hout.
    + apply Forall_fmap_ext. eapply List.Forall_impl; [|exact Hind].
      intros b Hb. apply (bin_str_bytes_agree _ _ buf); [exact Hb|].
      intros j Hj. cbn [palette_mem set_palette]. apply Hfoot. left. exact Hj.
Qed.

(** The same for the entry of the indicator with the index [fst e]. *)
Lemma parse_token_entry fuel buf p label w e rest :
  token_entry e ->
  (buf <= p)%nat ->
  drop p (palette_mem w) = entry_text (raw_entry e) ++ rest ->
  (rest = [] \/ head rest = Some ":"%char) ->
  Forall (indicator_below buf) (color_indicator w) ->
  exists label1 w1,
    parse_run (3 + fuel) (mk_parser buf p label PS_START w)
    = parse_run fuel
        (mk_parser (buf + length (snd e))
           (p + 3 + length (tokens_text (snd e))) label1 PS_START w1)
    /\ length (palette_mem w1) = length (palette_mem w)
    /\ drop (p + 3 + length (tokens_text (snd e))) (palette_mem w1) = rest
    /\ colors_enabled w1 = colors_enabled w
    /\ stderr_log w1 = stderr_log w
    /\ color_palette w1 = color_palette w
    /\ Forall (indicator_below (buf + length (snd e))) (color_indicator w1)
    /\ indicator_bytes w1
       = <[fst e := token_byte <$> snd e]> (indicator_bytes w).
Proof.
  destruct e as [i ts]. unfold token_entry, raw_entry, entry_text.
  cbn [fst snd].
  intros (Hi & Htok & Hsep) Hbp Hdrop Hrest Hind.
  rewrite <- app_assoc in Hdrop.
  do 8 (destruct i as [|i];
        [cbn [nth indicator_name list_ascii_of_string app] in Hdrop;
         eexists;
         eapply (parse_entry_tokens fuel buf p label w _ _ _ ts rest);
         try eassumption; first [discriminate | reflexivity]|]).
  lia.
Qed.

Lemma raw_entry_shape e :
  token_entry e ->
  length (entry_text (raw_entry e)) = (3 + length (tokens_text (snd e)))%nat
  /\ exists c t, entry_text (raw_entry e) = c :: t /\ c <> NUL.
Proof.
  destruct e as [i ts]. unfold token_entry, raw_entry, entry_text.
  cbn [fst snd].
  intros (Hi & _).
  do 8 (destruct i as [|i];
        [cbn [nth indicator_name list_ascii_of_string app length];
         split; [reflexivity|]; eexists _, _; split; [reflexivity|discriminate]
        |]).
  lia.
Qed.

(** The loop on the colons and entries that follow the first entry. *)
Lemma parse_run_token_entries es :
  forall fuel buf p label w,
    Forall token_entry es ->
    (buf <= p)%nat ->
    drop p (palette_mem w) = sep_text (raw_entry <$> es) ->
    Forall (indicator_below buf) (color_indicator w) ->
    (length (palette_mem w) - p < fuel)%nat ->
    exists st',
      parse_run fuel (mk_parser buf p label PS_START w) = Continues st'
      /\ ps_state st' = PS_DONE
      /\ colors_enabled (ps_world st') = colors_enabled w
      /\ stderr_log (ps_world st') = stderr_log w
      /\ indicator_bytes (ps_world st')
         = foldl (fun t e => <[fst e := token_byte <$> snd e]> t)
             (indicator_bytes w) es.
Proof.
  induction es as [|e es IH]; intros fuel buf p label w Hwf Hbp Hdrop Hind Hfuel.
  - destruct fuel as [|fuel]; [lia|].
    assert (Hpeek : peek (palette_mem w) p = NUL).
    { unfold peek. rewrite <- (Nat.add_0_r p), <- lookup_drop, Hdrop.
      reflexivity. }
    rewrite (parse_run_step _ _ _ (parse_turn_done _ _ label _ Hpeek) eq_refl).
    exists (mk_parser buf p label PS_DONE w).
    split; [destruct fuel; reflexivity|]. repeat split.
  - inversion Hwf as [|? ? He Hes]; subst.
    destruct (raw_entry_shape e He) as [Hlen _].
    rewrite fmap_cons in Hdrop.
    change (sep_text (raw_entry e :: (raw_entry <$> es)))
      with (":"%char :: entry_text (raw_entry e)
              ++ sep_text (raw_entry <$> es)) in Hdrop.
    assert (Hmem : (length (palette_mem w) - p
                    = 1 + (3 + length (tokens_text (snd e)))
                      + length (sep_text (raw_entry <$> es)))%nat).
    { apply (f_equal length) in Hdrop. rewrite length_drop in Hdrop.
      cbn [length] in Hdrop. rewrite length_app, Hlen in Hdrop. lia. }
    assert (Hpeek : peek (palette_mem w) p = ":"%char)
      by (apply (peek_drop _ _ _ _ Hdrop); discriminate).
    apply drop_cons_inv in Hdrop as [_ Hdrop].
    destruct fuel as [|fuel]; [lia|].
    rewrite (parse_run_step _ _ _ (parse_turn_colon _ _ label _ Hpeek) eq_refl).
    replace fuel with (3 + (fuel - 3))%nat by lia.
    destruct (parse_token_entry (fuel - 3) buf (S p) label w e
                (sep_text (raw_entry <$> es)) He
                ltac:(lia) Hdrop (sep_text_head _) Hind)
      as (label1 & w1 & E & Hl1 & Hd1 & Hce1 & Hse1 & _ & Hi1 & Hb1).
    rewrite E.
    destruct (IH (fuel - 3)%nat (buf + length (snd e))%nat
                (S p + 3 + length (tokens_text (snd e)))%nat label1 w1 Hes)
      as (st' & E' & Hdone & Hce & Hse & Hb);
      [pose proof (tokens_text_length (snd e)); lia|exact Hd1|exact Hi1|lia|].
    exists st'. split; [exact E'|]. split; [exact Hdone|].
    split; [congruence|]. split; [congruence|].
    cbn [foldl]. rewrite Hb, Hb1. reflexivity.
Qed.

(** X24.  A palette whose values hold escapes is decoded in place.  For
    a palette made of entries for the eight indicators with colons
    between them, each value made of pieces as get_funky_string decodes
    them, parse_diff_color issues no diagnostic, leaves colors as they
    are and makes each indicator named by an entry designate the
    decoded bytes of the last entry that names it; the other indicators
    keep their strings. *)
Theorem parse_diff_color_decodes_palette (es : list (nat * list token))
    (w : world) :
  color_palette w = true ->
  palette_mem w = palette_text (raw_entry <$> es) ->
  Forall token_entry es ->
  Forall (indicator_below 0) (color_indicator w) ->
  exists w',
    parse_diff_color w = Continues w'
    /\ colors_enabled w' = colors_enabled w
    /\ stderr_log w' = stderr_log w
    /\ indicator_bytes w'
       = foldl (fun t e => <[fst e := token_byte <$> snd e]> t)
           (indicator_bytes w) es.
Proof.
  intros Hcp Hmem Hwf Hind. unfold parse_diff_color.
  rewrite Hcp. cbn [negb orb].
  destruct es as [|e es].
  - cbn [palette_text fmap list_fmap] in Hmem. rewrite Hmem. cbn.
    exists w. repeat split.
  - inversion Hwf as [|? ? He Hes]; subst.
    destruct (raw_entry_shape e He) as (Hlen & c & t & Ht & Hc).
    rewrite fmap_cons in Hmem. cbn [palette_text] in Hmem.
    assert (Hpeek : peek (palette_mem w) 0 = c)
      by (rewrite Hmem, Ht; reflexivity).
    rewrite Hpeek.
    destruct (Ascii.eqb_spec c NUL) as [?|_]; [contradiction|].
    set (w0 := set_palette (palette_mem w) false (color_indicator w) w).
    assert (Hmem0 : (length (palette_mem w0)
                     = 3 + length (tokens_text (snd e))
                       + length (sep_text (raw_entry <$> es)))%nat).
    { change (palette_mem w0) with (palette_mem w).
      rewrite Hmem, length_app, Hlen. reflexivity. }
    unfold parse_palette.
    replace (S (length (palette_mem w0)))
      with (3 + (length (palette_mem w0) - 2))%nat by lia.
    destruct (parse_token_entry (length (palette_mem w0) - 2) 0 0
                ("?"%char, "?"%char) w0 e (sep_text (raw_entry <$> es)) He
                (le_n 0))
      as (label1 & w1 & E & Hl1 & Hd1 & Hce1 & Hse1 & _ & Hi1 & Hb1);
      [rewrite drop_0; exact Hmem|apply sep_text_head|exact Hind|].
    rewrite E.
    destruct (parse_run_token_entries es (length (palette_mem w0) - 2)
                (0 + length (snd e)) (0 + 3 + length (tokens_text (snd e)))
                label1 w1 Hes)
      as (st' & E' & Hdone & Hce & Hse & Hb);
      [pose proof (tokens_text_length (snd e)); lia|exact Hd1|exact Hi1|lia|].
    rewrite E'. cbn [bind]. rewrite Hdone.
    exists (ps_world st'). split; [reflexivity|].
    split; [rewrite Hce, Hce1; reflexivity|].
    split; [rewrite Hse, Hse1; reflexivity|].
    cbn [foldl]. rewrite Hb, Hb1. reflexivity.
Qed.

(** *** Entries that parse_diff_color rejects *)

(** Entries, each with a colon after it. *)
Definition entries_text (es : list (nat * list ascii)) : list ascii :=
  flat_map (fun e => entry_text e ++ [":"%char]) es.

(** A value that get_funky_string rejects: tokens, and then a backslash
    that is the last byte or a caret before a byte that may not follow
    it. *)
Definition bad_value (v : list ascii) : Prop :=
  exists ts,
    forallb (token_ok false) ts = true
    /\ separated ts = true
    /\ take (length (tokens_text ts)) v = tokens_text ts
    /\ ((peek v (length (tokens_text ts)) = "\"%char
         /\ peek v (S (length (tokens_text ts))) = NUL)
        \/ (peek v (length (tokens_text ts)) = "^"%char
            /\ caret_ok (peek v (S (length (tokens_text ts)))) = false)).

Lemma parse_run_stopped fuel st :
  parse_running (ps_state st) = false -> parse_run fuel st = Continues st.
Proof. intros H. destruct fuel; cbn [parse_run]; rewrite ?H; reflexivity. Qed.

Lemma parse_turn_unknown buf p label w :
  peek (palette_mem w) p = "="%char ->
  find_indicator (c_str [fst label; snd label]) indicator_name 0 = None ->
  parse_turn (mk_parser buf p label PS_3 w)
  = Continues
      (mk_parser buf (S p) label PS_FAIL
         (set_stderr
            (stderr_log w
             ++ [mk_diag 0 "unrecognized prefix: %s"
                   (Some [fst label; snd label])]) w)).
Proof.
  intros Hc Hf. unfold parse_turn.
  cbn [ps_state ps_world ps_p ps_buf ps_label].
  rewrite Hc, Ascii.eqb_refl, Hf. reflexivity.
Qed.

Lemma parse_turn_bad_value buf p label w i :
  peek (palette_mem w) p = "="%char ->
  find_indicator (c_str [fst label; snd label]) indicator_name 0 = Some i ->
  fr_ok (get_funky_string (palette_mem w) buf (S p) false) = false ->
  exists st',
    parse_turn (mk_parser buf p label PS_3 w) = Continues st'
    /\ ps_state st' = PS_FAIL
    /\ colors_enabled (ps_world st') = colors_enabled w
    /\ stderr_log (ps_world st')
       = stderr_log w
         ++ [mk_diag 0 "unrecognized prefix: %s"
               (Some [fst label; snd label])].
Proof.
  intros Hc Hf Hok. unfold parse_turn.
  cbn [ps_state ps_world ps_p ps_buf ps_label].
  rewrite Hc, Ascii.eqb_refl, Hf, Hok.
  unfold after_funky. rewrite Hok.
  cbn [ps_world ps_buf ps_p error Z.eqb bind].
  eexists. split; [reflexivity|]. repeat split.
Qed.

(** The loop on entries that are each followed by a colon. *)
Lemma parse_run_token_prefix es :
  forall fuel buf p label w tail,
    Forall token_entry es ->
    (buf <= p)%nat ->
    drop p (palette_mem w) = entries_text (raw_entry <$> es) ++ tail ->
    Forall (indicator_below buf) (color_indicator w) ->
    exists buf1 label1 w1,
      parse_run (4 * length es + fuel) (mk_parser buf p label PS_START w)
      = parse_run fuel
          (mk_parser buf1 (p + length (entries_text (raw_entry <$> es)))
             label1 PS_START w1)
      /\ (buf1 <= p + length (entries_text (raw_entry <$> es)))%nat
      /\ (4 * length es <= length (entries_text (raw_entry <$> es)))%nat
      /\ length (palette_mem w1) = length (palette_mem w)
      /\ drop (p + length (entries_text (raw_entry <$> es))) (palette_mem w1)
         = tail
      /\ colors_enabled w1 = colors_enabled w
      /\ stderr_log w1 = stderr_log w
      /\ Forall (indicator_below buf1) (color_indicator w1).
Proof.
  induction es as [|e es IH]; intros fuel buf p label w tail Hwf Hbp Hdrop Hind.
  - cbn [entries_text fmap list_fmap flat_map length app] in *.
    rewrite Nat.add_0_r. exists buf, label, w.
    split; [reflexivity|]. split; [exact Hbp|]. split; [lia|].
    split; [reflexivity|]. split; [exact Hdrop|]. auto.
  - inversion Hwf as [|? ? He Hes]; subst.
    destruct (raw_entry_shape e He) as [Hlen _].
    pose proof (tokens_text_length (snd e)) as Hts.
    rewrite fmap_cons in *.
    change (entries_text (raw_entry e :: (raw_entry <$> es)))
      with ((entry_text (raw_entry e) ++ [":"%char])
              ++ entries_text (raw_entry <$> es)) in *.
    rewrite !length_app, Hlen. cbn [length].
    rewrite <- !app_assoc in Hdrop. cbn [app] in Hdrop.
    replace (4 * S (length es) + fuel)%nat
      with (3 + (1 + (4 * length es + fuel)))%nat by lia.
    destruct (parse_token_entry (1 + (4 * length es + fuel)) buf p label w e
                (":"%char :: entries_text (raw_entry <$> es) ++ tail) He Hbp
                Hdrop (or_intror eq_refl) Hind)
      as (label1 & w1 & E & Hl1 & Hd1 & Hce1 & Hse1 & _ & Hi1 & _).
    rewrite E.
    assert (Hpeek : peek (palette_mem w1)
                      (p + 3 + length (tokens_text (snd e))) = ":"%char)
      by (apply (peek_drop _ _ _ _ Hd1); discriminate).
    apply drop_cons_inv in Hd1 as [_ Hd1].
    change (1 + (4 * length es + fuel))%nat
      with (S (4 * length es + fuel)).
    rewrite (parse_run_step _ _ _ (parse_turn_colon _ _ label1 _ Hpeek)
               eq_refl).
    destruct (IH fuel (buf + length (snd e))%nat
                (S (p + 3 + length (tokens_text (snd e)))) label1 w1 tail Hes)
      as (buf2 & label2 & w2 & E2 & Hb2 & Hn2 & Hl2 & Hd2 & Hce2 & Hse2 & Hi2);
      [lia|exact Hd1|exact Hi1|].
    exists buf2, label2, w2.
    split; [|split; [|split; [|split; [|split; [|split; [|split]]]]]].
    + rewrite E2. do 2 f_equal. lia.
    + lia.
    + lia.
    + congruence.
    + rewrite <- Hd2. f_equal. lia.
    + congruence.
    + congruence.
    + exact Hi2.
Qed.

(** X25.  parse_diff_color reports an entry by its label, whether the
    label or the value is at fault.  After any number of well-formed
    entries, each followed by a colon, let an entry have a label of two
    bytes and an equals sign, and let the label be none of the eight
    names, or let it be one of them and the value be one that
    get_funky_string rejects.  Then parse_diff_color issues the two
    diagnostics "unrecognized prefix: " with the label and "unparsable
    value for --palette", both with status 0, and turns colors off. *)
Theorem parse_diff_color_unrecognized_prefix (es : list (nat * list token))
    (c1 c2 : ascii) (rest : list ascii) (w : world) :
  color_palette w = true ->
  palette_mem w
  = entries_text (raw_entry <$> es) ++ c1 :: c2 :: "="%char :: rest ->
  Forall token_entry es ->
  Forall (indicator_below 0) (color_indicator w) ->
  c1 <> ":"%char -> c1 <> "*"%char -> c1 <> NUL -> c2 <> NUL ->
  find_indicator (c_str [c1; c2]) indicator_name 0 = None \/ bad_value rest ->
  exists w',
    parse_diff_color w = Continues w'
    /\ colors_enabled w' = false
    /\ stderr_log w'
       = stderr_log w
         ++ [mk_diag 0 "unrecognized prefix: %s" (Some [c1; c2]);
             mk_diag 0 "unparsable value for --palette" None].
Proof.
  intros Hcp Hmem Hwf Hind Hc1 Hc1' Hc1'' Hc2 Hbad.
  unfold parse_diff_color. rewrite Hcp. cbn [negb orb].
  assert (Hfirst : peek (palette_mem w) 0 <> NUL).
  { rewrite Hmem. destruct es as [|e es]; [exact Hc1''|].
    inversion Hwf as [|? ? He Hes]; subst.
    destruct (raw_entry_shape e He) as (_ & c & t & Ht & Hc).
    rewrite fmap_cons.
    change (entries_text (raw_entry e :: (raw_entry <$> es)))
      with ((entry_text (raw_entry e) ++ [":"%char])
              ++ entries_text (raw_entry <$> es)).
    rewrite Ht. exact Hc. }
  destruct (Ascii.eqb_spec (peek (palette_mem w) 0) NUL) as [?|_];
    [contradiction|].
  set (w0 := set_palette (palette_mem w) false (color_indicator w) w).
  set (n := length (entries_text (raw_entry <$> es))).
  assert (Hlen0 : length (palette_mem w0) = (n + (3 + length rest))%nat).
  { change (palette_mem w0) with (palette_mem w).
    rewrite Hmem, length_app. reflexivity. }
  destruct (parse_run_token_prefix es
              (S (length (palette_mem w0)) - 4 * length es) 0 0
              ("?"%char, "?"%char) w0 (c1 :: c2 :: "="%char :: rest) Hwf
              (le_n 0))
    as (buf1 & label1 & w1 & E & Hb1 & Hn1 & Hl1 & Hd1 & Hce1 & Hse1 & Hi1);
    [rewrite drop_0; exact Hmem|exact Hind|].
  fold n in E, Hb1, Hn1, Hd1. cbn [Nat.add] in E, Hb1, Hd1.
  unfold parse_palette.
  replace (S (length (palette_mem w0)))
    with (4 * length es + (S (length (palette_mem w0)) - 4 * length es))%nat
    by lia.
  rewrite E.
  replace (S (length (palette_mem w0)) - 4 * length es)%nat
    with (S (S (S (S (length (palette_mem w0)) - 4 * length es - 3))))
    by lia.
  pose proof (peek_drop _ _ _ _ Hd1 Hc1'') as Hp1.
  apply drop_cons_inv in Hd1 as [_ Hd1].
  pose proof (peek_drop _ _ _ _ Hd1 Hc2) as Hp2.
  apply drop_cons_inv in Hd1 as [_ Hd1].
  assert (Hp3 : peek (palette_mem w1) (S (S n)) = "="%char)
    by (apply (peek_drop _ _ _ _ Hd1); discriminate).
  apply drop_cons_inv in Hd1 as [_ Hd1].
  rewrite (parse_run_step _ _ _
             (parse_turn_label buf1 n label1 w1 c1 Hp1 Hc1 Hc1' Hc1'')
             eq_refl).
  rewrite (parse_run_step _ _ _
             (parse_turn_second buf1 (S n) (c1, snd label1) w1 c2 Hp2 Hc2)
             eq_refl).
  cbn [fst].
  assert (Hturn : exists st',
             parse_turn (mk_parser buf1 (S (S n)) (c1, c2) PS_3 w1)
             = Continues st'
             /\ ps_state st' = PS_FAIL
             /\ colors_enabled (ps_world st') = colors_enabled w1
             /\ stderr_log (ps_world st')
                = stderr_log w1
                  ++ [mk_diag 0 "unrecognized prefix: %s" (Some [c1; c2])]).
  { destruct (find_indicator (c_str [c1; c2]) indicator_name 0) as [i|]
      eqn:Hfind.
    - destruct Hbad as [Hbad|(ts & Htok & Hsep & Hv & Hend)];
        [discriminate Hbad|].
      apply (parse_turn_bad_value buf1 (S (S n)) (c1, c2) w1 i Hp3 Hfind).
      assert (Hsame : forall k, peek (palette_mem w1) (S (S (S n)) + k)
                                = peek rest k).
      { intros k. unfold peek. rewrite <- lookup_drop, Hd1. reflexivity. }
      apply (get_funky_string_bad (palette_mem w1) buf1 (S (S (S n))) false
               ts); [lia|exact Htok|exact Hsep|rewrite Hd1; exact Hv|].
      cbv zeta.
      replace (S (S (S (S n)) + length (tokens_text ts)))
        with (S (S (S n)) + S (length (tokens_text ts)))%nat by lia.
      rewrite !Hsame. exact Hend.
    - eexists. split; [apply (parse_turn_unknown _ _ (c1, c2) _ Hp3 Hfind)|].
      repeat split. }
  destruct Hturn as (st' & Eturn & Hfail & Hce & Hse).
  rewrite (parse_run_step _ _ _ Eturn eq_refl).
  rewrite parse_run_stopped by (rewrite Hfail; reflexivity).
  cbn [bind]. rewrite Hfail. cbn [error Z.eqb bind].
  eexists. split; [reflexivity|].
  cbn [colors_enabled set_colors_enabled stderr_log set_stderr].
  split; [reflexivity|].
  rewrite Hse, Hse1. change (stderr_log w0) with (stderr_log w).
  rewrite <- app_assoc. reflexivity.
Qed.

(** ** print_script

    The edit script lives in memory: a finite map from the addresses of
    the [struct change] objects to their contents.  [hunkfun] and
    [printfun] are the two function pointers; [printfun] may write to
    [outfile] and may change the memory. *)

Section PrintScript.

Variable hunkfun : gmap positive change -> ptr -> option ptr.
Variable printfun :
  ptr -> gmap positive change -> world -> gmap positive change * world.

(** [c->link = l] *)
Definition set_link (l : option ptr) (c : change) : change :=
  mk_change l (inserted c) (deleted c) (line0 c) (line1 c).

(** find_change returns its argument. *)
Definition find_change (h : gmap positive change) (script : ptr) : option ptr :=
  Some script.

(** The loop of print_script.  The result is [None] when the loop
    dereferences a pointer that is null or is no change, and when the
    fuel does not cover the turns of the loop. *)
Fixpoint print_script (fuel : nat) (next : option ptr)
    (h : gmap positive change) (w : world)
    : option (gmap positive change * world) :=
  match next with
  | None => Some (h, w)
  | Some this =>
      match fuel with
      | O => None
      | S fuel' =>
          (* Find a set of changes that belong together.  *)
          end_ ← hunkfun h this;
          c ← h !! end_;
          (* Disconnect them from the rest of the changes,
             making them a hunk, and remember the rest for next iteration.  *)
          let next := link c in
          let h := <[end_ := set_link None c]> h in
          (* Print this hunk.  *)
          let '(h, w) := printfun this h w in
          (* Reconnect the script so it will all be freed properly.  *)
          c ← h !! end_;
          print_script fuel' next (<[end_ := set_link next c]> h) w
      end
  end.

(** [chain h p l]: following [link] from [p] visits the changes at the
    addresses [l], in this order, and then meets a null link. *)
Inductive chain (h : gmap positive change) : option ptr -> list ptr -> Prop :=
  | chain_nil : chain h None []
  | chain_cons a c l :
      h !! a = Some c -> chain h (link c) l -> chain h (Some a) (a :: l).

(** The link field of every change in memory. *)
Definition links (h : gmap positive change) : gmap positive (option ptr) :=
  link <$> h.

Lemma links_lookup h a : links h !! a = link <$> (h !! a).
Proof. unfold links. apply lookup_fmap. Qed.

Lemma chain_links h h' p l : links h = links h' -> chain h p l -> chain h' p l.
Proof.
  intros Hl Hc. induction Hc as [|a c l Ha _ IH]; [constructor|].
  assert (Hla : links h' !! a = Some (link c))
    by (rewrite <- Hl, links_lookup, Ha; reflexivity).
  rewrite links_lookup in Hla.
  destruct (h' !! a) as [c'|] eqn:Ha'; [|discriminate].
  injection Hla as Hlink. econstructor; [exact Ha'|].
  rewrite Hlink. exact IH.
Qed.

Lemma chain_functional h p l1 :
  chain h p l1 -> forall l2, chain h p l2 -> l1 = l2.
Proof.
  induction 1 as [|a c l Ha _ IH]; intros l2 H2.
  - inversion H2. reflexivity.
  - inversion H2 as [|a' c' l' Ha' Hc']; subst.
    rewrite Ha in Ha'. injection Ha' as <-. f_equal. apply IH, Hc'.
Qed.

Lemma chain_suffix h l1 :
  forall p a l2,
    chain h p (l1 ++ a :: l2) -> chain h (Some a) (a :: l2).
Proof.
  induction l1 as [|b l1 IH]; intros p a l2 H.
  - simpl in H. inversion H; subst. econstructor; eassumption.
  - simpl in H. inversion H; subst. eapply IH. eassumption.
Qed.

(** A chain that ends in a null link visits no change twice. *)
Lemma chain_NoDup h p l : chain h p l -> NoDup l.
Proof.
  induction 1 as [|a c l Ha Hc IH]; [constructor|].
  apply NoDup_cons. split; [|exact IH].
  intros Hin. apply list_elem_of_split in Hin as (l1 & l2 & ->).
  pose proof (chain_suffix _ _ _ _ _ Hc) as Hs.
  assert (Hall : chain h (Some a) (a :: l1 ++ a :: l2))
    by (econstructor; eassumption).
  pose proof (chain_functional _ _ _ Hs _ Hall) as E.
  apply (f_equal length) in E. simpl in E. rewrite length_app in E.
  simpl in E. lia.
Qed.

(** Cutting the chain after the change at [a]. *)
Lemma chain_cut h l1 :
  forall p a l2,
    chain h p (l1 ++ a :: l2) ->
    exists c,
      h !! a = Some c
      /\ chain h (link c) l2
      /\ chain (<[a := set_link None c]> h) p (l1 ++ [a]).
Proof.
  induction l1 as [|b l1 IH]; intros p a l2 H.
  - simpl in H. inversion H as [|a' c l' Ha Hc]; subst.
    exists c. split; [exact Ha|]. split; [exact Hc|].
    simpl. econstructor; [apply lookup_insert_eq|]. constructor.
  - pose proof (chain_NoDup _ _ _ H) as Hnd.
    simpl in H, Hnd. inversion H as [|b' cb l' Hb Hc]; subst.
    apply NoDup_cons in Hnd as [Hnotin _].
    assert (Hba : a <> b).
    { intros ->. apply Hnotin. apply elem_of_app. right. left. }
    destruct (IH _ _ _ Hc) as (c & Ha & Hrest & Hcut).
    exists c. split; [exact Ha|]. split; [exact Hrest|].
    simpl. econstructor; [rewrite lookup_insert_ne by exact Hba; exact Hb|].
    exact Hcut.
Qed.

(** One turn of the loop: the hunk from [this] to the change [hunkfun]
    returns is cut off by a null link while [printfun] runs, and the
    link is put back before the next turn. *)
Lemma print_script_turn fuel this h w l1 end_ l2 :
  chain h (Some this) (l1 ++ end_ :: l2) ->
  hunkfun h this = Some end_ ->
  exists c,
    h !! end_ = Some c
    /\ chain h (link c) l2
    /\ chain (<[end_ := set_link None c]> h) (Some this) (l1 ++ [end_])
    /\ print_script (S fuel) (Some this) h w
       = (let '(h', w') := printfun this (<[end_ := set_link None c]> h) w in
          c' ← h' !! end_;
          print_script fuel (link c) (<[end_ := set_link (link c) c']> h') w').
Proof.
  intros Hc Hend. destruct (chain_cut _ _ _ _ _ Hc) as (c & Hc_end & Hrest & Hcut).
  exists c. split; [exact Hc_end|]. split; [exact Hrest|]. split; [exact Hcut|].
  cbn [print_script]. rewrite Hend. cbn [mbind option_bind].
  rewrite Hc_end. reflexivity.
Qed.

Section Frame.

Variable h0 : gmap positive change.

(** [hunkfun] returns a change of the chain it is given. *)
Hypothesis hunkfun_in_chain :
  forall h this l,
    links h = links h0 -> chain h (Some this) l ->
    exists end_, hunkfun h this = Some end_ /\ end_ ∈ l.

(** [printfun], given a hunk that ends in a null link, leaves the link
    fields as they are. *)
Hypothesis printfun_keeps_links :
  forall this h w hunk,
    chain h (Some this) hunk -> links (fst (printfun this h w)) = links h.

Lemma print_script_frame fuel :
  forall next h w l,
    links h = links h0 -> chain h next l -> (length l <= fuel)%nat ->
    exists h' w',
      print_script fuel next h w = Some (h', w') /\ links h' = links h0.
Proof using hunkfun_in_chain printfun_keeps_links.
  induction fuel as [|fuel IH]; intros next h w l Hl Hc Hfuel.
  - destruct l; [|simpl in Hfuel; lia]. inversion Hc; subst.
    exists h, w. split; [reflexivity|exact Hl].
  - destruct Hc as [|this c0 l Hthis Hc].
    { exists h, w. split; [reflexivity|exact Hl]. }
    assert (Hall : chain h (Some this) (this :: l))
      by (econstructor; eassumption).
    destruct (hunkfun_in_chain h this _ Hl Hall) as (end_ & Hend & Hin).
    apply list_elem_of_split in Hin as (l1 & l2 & Esplit).
    rewrite Esplit in Hall.
    destruct (chain_cut _ _ _ _ _ Hall) as (c & Hc_end & Hrest & Hcut).
    cbn [print_script]. rewrite Hend. cbn [mbind option_bind].
    rewrite Hc_end. cbn [mbind option_bind].
    pose proof (printfun_keeps_links this _ w _ Hcut) as Hkeep.
    destruct (printfun this (<[end_:=set_link None c]> h) w) as [h2 w2].
    cbn [fst] in Hkeep.
    assert (Hl2 : links h2 !! end_ = Some None).
    { rewrite Hkeep, links_lookup, lookup_insert_eq. reflexivity. }
    rewrite links_lookup in Hl2.
    destruct (h2 !! end_) as [c2|] eqn:Hc2; [|discriminate].
    cbn [mbind option_bind].
    assert (Hl3 : links (<[end_:=set_link (link c) c2]> h2) = links h).
    { unfold links in *. rewrite fmap_insert, Hkeep, fmap_insert.
      rewrite insert_insert_eq. apply insert_id.
      rewrite lookup_fmap, Hc_end. reflexivity. }
    apply (IH _ _ _ l2).
    + congruence.
    + eapply chain_links; [symmetry; exact Hl3|exact Hrest].
    + apply (f_equal length) in Esplit. rewrite length_app in Esplit.
      simpl in Esplit, Hfuel. lia.
Qed.

End Frame.

(** C9.  print_script returns with every link field as it was before
    the call, and the whole chain can still be followed from its head. *)
Theorem print_script_keeps_chain (script : option ptr)
    (h0 : gmap positive change) (w : world) (l : list ptr) (fuel : nat) :
  chain h0 script l ->
  (forall h this l',
      links h = links h0 -> chain h (Some this) l' ->
      exists end_, hunkfun h this = Some end_ /\ end_ ∈ l') ->
  (forall this h w' hunk,
      chain h (Some this) hunk -> links (fst (printfun this h w')) = links h) ->
  (length l <= fuel)%nat ->
  exists h' w',
    print_script fuel script h0 w = Some (h', w')
    /\ (forall a, link <$> (h' !! a) = link <$> (h0 !! a))
    /\ chain h' script l.
Proof.
  intros Hc Hhunk Hprint Hfuel.
  destruct (print_script_frame h0 Hhunk Hprint fuel script h0 w l eq_refl
              Hc Hfuel) as (h' & w' & E & Hl).
  exists h', w'. split; [exact E|]. split.
  - intros a. rewrite <- !links_lookup, Hl. reflexivity.
  - eapply chain_links; [symmetry; exact Hl|exact Hc].
Qed.

(** *** The hunks print_script prints *)

(** The memory [printfun] is given for a hunk that ends at the change
    [end_]: the link of this change is null. *)
Definition cut_after (end_ : ptr) (h : gmap positive change)
    : gmap positive change :=
  alter (set_link None) end_ h.

(** The call of [printfun] for one hunk, given by the addresses of its
    changes. *)
Definition print_hunk (h : gmap positive change) (hunk : list ptr)
    (w : world) : world :=
  match head hunk, last hunk with
  | Some this, Some end_ => snd (printfun this (cut_after end_ h) w)
  | _, _ => w
  end.

Lemma cut_after_insert h end_ c :
  h !! end_ = Some c -> cut_after end_ h = <[end_ := set_link None c]> h.
Proof.
  intros Hc. unfold cut_after. apply map_eq. intros a.
  destruct (decide (a = end_)) as [->|Hne].
  - rewrite lookup_alter_eq, lookup_insert_eq, Hc. reflexivity.
  - rewrite lookup_alter_ne, lookup_insert_ne by congruence. reflexivity.
Qed.

Lemma set_link_back c : set_link (link c) (set_link None c) = c.
Proof. destruct c. reflexivity. Qed.

Section Hunks.

Variable h0 : gmap positive change.

(** [hunkfun] returns a change of the chain it is given. *)
Hypothesis hunkfun_in_chain :
  forall this l,
    chain h0 (Some this) l ->
    exists end_, hunkfun h0 this = Some end_ /\ end_ ∈ l.

(** [printfun] leaves the memory as it is. *)
Hypothesis printfun_keeps_memory :
  forall this h w, fst (printfun this h w) = h.

Lemma print_script_hunks fuel :
  forall next w l,
    chain h0 next l -> (length l <= fuel)%nat ->
    exists hs,
      concat hs = l
      /\ Forall (fun hunk =>
                   exists this end_,
                     head hunk = Some this /\ last hunk = Some end_
                     /\ hunkfun h0 this = Some end_) hs
      /\ print_script fuel next h0 w
         = Some (h0, foldl (fun w hunk => print_hunk h0 hunk w) w hs).
Proof using hunkfun_in_chain printfun_keeps_memory.
  induction fuel as [|fuel IH]; intros next w l Hc Hfuel.
  - destruct l; [|simpl in Hfuel; lia]. inversion Hc; subst.
    exists []. split; [reflexivity|]. split; [constructor|reflexivity].
  - destruct Hc as [|this c0 l Hthis Hc].
    { exists []. split; [reflexivity|]. split; [constructor|reflexivity]. }
    assert (Hall : chain h0 (Some this) (this :: l))
      by (econstructor; eassumption).
    destruct (hunkfun_in_chain this _ Hall) as (end_ & Hend & Hin).
    apply list_elem_of_split in Hin as (l1 & l2 & Esplit).
    rewrite Esplit in Hall.
    destruct (chain_cut _ _ _ _ _ Hall) as (c & Hc_end & Hrest & _).
    assert (Hhead : head (l1 ++ [end_]) = Some this).
    { destruct l1 as [|a l1]; simpl in Esplit |- *; congruence. }
    assert (Hw1 : print_hunk h0 (l1 ++ [end_]) w
                  = snd (printfun this (<[end_:=set_link None c]> h0) w)).
    { unfold print_hunk. rewrite Hhead, last_snoc.
      rewrite (cut_after_insert _ _ _ Hc_end). reflexivity. }
    destruct (IH (link c) (print_hunk h0 (l1 ++ [end_]) w) l2 Hrest)
      as (hs & Hcat & Hhs & Hrun).
    { apply (f_equal length) in Esplit. rewrite length_app in Esplit.
      simpl in Esplit, Hfuel. lia. }
    exists ((l1 ++ [end_]) :: hs). split; [|split].
    + cbn [concat]. rewrite Hcat, Esplit, <- app_assoc. reflexivity.
    + constructor; [|exact Hhs].
      exists this, end_. split; [exact Hhead|].
      split; [apply last_snoc|exact Hend].
    + cbn [print_script foldl]. rewrite Hend. cbn [mbind option_bind].
      rewrite Hc_end. cbn [mbind option_bind].
      pose proof (printfun_keeps_memory this
                    (<[end_:=set_link None c]> h0) w) as Hkeep.
      rewrite <- Hrun, Hw1.
      destruct (printfun this (<[end_:=set_link None c]> h0) w) as [h2 w2].
      cbn [fst snd] in Hkeep |- *. subst h2.
      rewrite lookup_insert_eq. cbn [mbind option_bind].
      rewrite set_link_back, insert_insert_eq, (insert_id _ _ _ Hc_end).
      reflexivity.
Qed.

End Hunks.

(** X18.  print_script cuts the chain into consecutive hunks, each from
    the change the loop has reached to the change [hunkfun] returns for
    it, and calls [printfun] once for each hunk, in the order of the
    chain, on a memory in which the last link of that hunk is null.
    With a [printfun] that leaves the memory alone, the memory is the
    same after the call. *)
Theorem print_script_prints_hunks (script : option ptr)
    (h0 : gmap positive change) (w : world) (l : list ptr) (fuel : nat) :
  chain h0 script l ->
  (forall this l',
      chain h0 (Some this) l' ->
      exists end_, hunkfun h0 this = Some end_ /\ end_ ∈ l') ->
  (forall this h w', fst (printfun this h w') = h) ->
  (length l <= fuel)%nat ->
  exists hs,
    concat hs = l
    /\ Forall (fun hunk =>
                 exists this end_,
                   head hunk = Some this /\ last hunk = Some end_
                   /\ hunkfun h0 this = Some end_) hs
    /\ print_script fuel script h0 w
       = Some (h0, foldl (fun w hunk => print_hunk h0 hunk w) w hs).
Proof.
  intros Hc Hhunk Hprint Hfuel.
  exact (print_script_hunks h0 Hhunk Hprint fuel script w l Hc Hfuel).
Qed.

End PrintScript.

(** ** Messages: message, print_message_queue, fatal

    With -l the one-line messages are kept in a queue and printed at
    the end.  The queue is the list of its [struct msg] objects, first
    to last; the arguments of a message are C strings, each given by the
    bytes at its address. *)

Section Messages.

Variable paginate : bool.              (* diff.h *)
Variable sdiff_merge_assist : bool.    (* diff.h *)
Variable EXIT_TROUBLE : Z.             (* system.h *)

(** [strlen]: the bytes before the first NUL. *)
Fixpoint strlen (s : list ascii) : nat :=
  match s with
  | [] => 0
  | c :: s' => if Ascii.eqb c NUL then 0 else S (strlen s')
  end.

(** The C string at an address. *)
Definition c_string (s : list ascii) : list ascii := take (strlen s) s.

(** [struct msg], without its [next] field. *)
Record msg : Type := mk_msg {
  m_msgid : string;
  m_argbytes : nat;
  m_args : list ascii
}.

(** [msg_chain]: the queue, or a pointer left dangling by the [free]
    calls of print_message_queue. *)
Inductive queue : Type :=
  | Queued (l : list msg)
  | Freed.

(** What is done to stdout. *)
Inductive stdout_event : Type :=
  | Printf (format : list ascii) (args : list (list ascii))
  | Putchar (c : ascii).

Record messages : Type := mk_messages {
  msg_chain : queue;
  stdout : list stdout_event
}.

(** The loop over the format in message: the arguments it takes from
    [ap], one for each percent sign that is not followed by a second
    one.  The result is [None] when [ap] has too few arguments. *)
Fixpoint format_args (m : list ascii) (ap : list (list ascii))
    : option (list (list ascii)) :=
  match m with
  | [] => Some []
  | c :: m' =>
      if Ascii.eqb c NUL then Some []
      else if Ascii.eqb c "%"%char then
        match m' with
        | c' :: m'' =>
            if Ascii.eqb c' "%"%char then format_args m'' ap
            else
              match ap with
              | a :: ap' => cons a <$> format_args m' ap'
              | [] => None
              end
        | [] =>
            match ap with
            | a :: _ => Some [a]
            | [] => None
            end
        end
      else format_args m' ap
  end.

(** The two passes of message over its arguments: the size of [args],
    and its bytes. *)
Definition args_size (taken : list (list ascii)) : nat :=
  foldr (fun a n => strlen a + 1 + n)%nat 0%nat taken.

Definition args_bytes (taken : list (list ascii)) : list ascii :=
  foldr (fun a bs => c_string a ++ NUL :: bs) [] taken.

(** The result is [None] when the format asks for an argument that is
    not there, and when the queue has been freed. *)
Definition message (format_msgid : string) (ap : list (list ascii))
    (st : messages) : option messages :=
  if paginate then
    taken ← format_args (list_ascii_of_string format_msgid) ap;
    match msg_chain st with
    | Queued l =>
        let new := mk_msg format_msgid (args_size taken) (args_bytes taken) in
        Some (mk_messages (Queued (l ++ [new])) (stdout st))
    | Freed => None
    end
  else
    Some (mk_messages (msg_chain st)
            (stdout st
             ++ (if sdiff_merge_assist then [Putchar " "%char] else [])
             ++ [Printf (gettext format_msgid) ap])).

(** [p += p < plim ? strlen (p) + 1 : 0] *)
Definition next_arg (m : msg) (p : nat) : nat :=
  if Nat.ltb p (m_argbytes m)
  then (p + strlen (drop p (m_args m)) + 1)%nat else p.

(** The string an argument pointer into [args] designates. *)
Definition arg_at (m : msg) (p : nat) : list ascii :=
  c_string (drop p (m_args m)).

(** One turn of the loop of print_message_queue.  [dassert] comes from
    system.h, which is not among the sources: a turn in which its
    condition is false has no result here. *)
Definition print_message (m : msg) (out : list stdout_event)
    : option (list stdout_event) :=
  let p := 0%nat in
  let plim := m_argbytes m in
  let arg0 := p in let p := next_arg m p in
  let arg1 := p in let p := next_arg m p in
  let arg2 := p in let p := next_arg m p in
  let arg3 := p in let p := next_arg m p in
  let out :=
    out ++ [Printf (gettext (m_msgid m))
              [arg_at m arg0; arg_at m arg1; arg_at m arg2; arg_at m arg3]] in
  if Nat.leb plim p then Some out else None.

Fixpoint print_messages (l : list msg) (out : list stdout_event)
    : option (list stdout_event) :=
  match l with
  | [] => Some out
  | m :: l' => out ← print_message m out; print_messages l' out
  end.

(** The messages are freed as they are printed, and [msg_chain] is not
    reset: after a queue that is not empty it dangles. *)
Definition print_message_queue (st : messages) : option messages :=
  match msg_chain st with
  | Queued [] => Some st
  | Queued l =>
      out ← print_messages l (stdout st);
      Some (mk_messages Freed out)
  | Freed => None
  end.

Definition fatal (msgid : string) (st : messages) (w : world)
    : option (messages * outcome world) :=
  st ← print_message_queue st;
  Some (st, error EXIT_TROUBLE "%s" (Some (gettext msgid)) w).

(** Calls of message, one after the other. *)
Fixpoint messages_of (calls : list (string * list (list ascii)))
    (st : messages) : option messages :=
  match calls with
  | [] => Some st
  | (format_msgid, ap) :: calls' =>
      st ← message format_msgid ap st; messages_of calls' st
  end.

(** *** What was queued is what is printed *)

(** The four arguments print_message_queue gives [printf] for a
    message queued with the arguments [taken]: their strings, and the
    empty string at the end of [args] for the ones that are missing. *)
Definition printed_args (taken : list (list ascii)) : list (list ascii) :=
  take 4 ((c_string <$> taken) ++ repeat [] 4).

Definition printed (call : string * list (list ascii)) : stdout_event :=
  Printf (gettext (fst call))
    (printed_args
       (default [] (format_args (list_ascii_of_string (fst call)) (snd call)))).

(** A call of message that finds its arguments, four at most. *)
Definition well_formed_call (call : string * list (list ascii)) : Prop :=
  exists taken,
    format_args (list_ascii_of_string (fst call)) (snd call) = Some taken
    /\ (length taken <= 4)%nat.

Lemma strlen_c_string a bs : strlen (c_string a ++ NUL :: bs) = strlen a.
Proof.
  unfold c_string. induction a as [|c a IH]; [reflexivity|].
  cbn [strlen]. destruct (Ascii.eqb c NUL) eqn:Hc; [reflexivity|].
  cbn [take app strlen]. rewrite Hc, IH. reflexivity.
Qed.

Lemma length_c_string a : length (c_string a) = strlen a.
Proof.
  unfold c_string. induction a as [|c a IH]; [reflexivity|].
  cbn [strlen]. destruct (Ascii.eqb c NUL); [reflexivity|].
  cbn [take length]. rewrite IH. reflexivity.
Qed.

Lemma c_string_c_string a bs : c_string (c_string a ++ NUL :: bs) = c_string a.
Proof.
  unfold c_string at 1. rewrite strlen_c_string, <- length_c_string.
  apply take_app_length.
Qed.

Lemma drop_c_string a bs :
  drop (strlen a + 1) (c_string a ++ NUL :: bs) = bs.
Proof.
  rewrite <- length_c_string.
  replace (length (c_string a) + 1)%nat with (S (length (c_string a))) by lia.
  change (NUL :: bs) with ([NUL] ++ bs). rewrite app_assoc.
  replace (S (length (c_string a))) with (length (c_string a ++ [NUL]))
    by (rewrite length_app; simpl; lia).
  apply drop_app_length.
Qed.

Lemma length_args_bytes taken : length (args_bytes taken) = args_size taken.
Proof.
  induction taken as [|a taken IH]; [reflexivity|].
  cbn [args_bytes args_size foldr]. rewrite length_app, length_c_string.
  cbn [length]. fold (args_bytes taken). fold (args_size taken). lia.
Qed.

(** The argument pointers, started at the offset [p] where the bytes of
    [taken] begin. *)
Lemma next_arg_taken fmt pre a taken :
  let m := mk_msg fmt (args_size (pre ++ a :: taken))
                  (args_bytes (pre ++ a :: taken)) in
  next_arg m (args_size pre) = args_size (pre ++ [a])
  /\ arg_at m (args_size pre) = c_string a.
Proof.
  assert (Hsize : forall l1 l2,
             args_size (l1 ++ l2) = (args_size l1 + args_size l2)%nat).
  { intros l1 l2. induction l1 as [|x l1 IH]; [reflexivity|].
    cbn [app args_size foldr]. fold (args_size (l1 ++ l2)).
    fold (args_size l1). lia. }
  assert (Hbytes : forall l1 l2,
             args_bytes (l1 ++ l2) = args_bytes l1 ++ args_bytes l2).
  { intros l1 l2. induction l1 as [|x l1 IH]; [reflexivity|].
    cbn [app args_bytes foldr]. fold (args_bytes (l1 ++ l2)).
    fold (args_bytes l1). rewrite IH, <- app_assoc. reflexivity. }
  cbv zeta. unfold next_arg, arg_at. cbn [m_argbytes m_args].
  rewrite Hbytes, <- length_args_bytes, drop_app_length.
  cbn [args_bytes foldr]. fold (args_bytes taken).
  rewrite strlen_c_string, c_string_c_string. split; [|reflexivity].
  rewrite length_args_bytes, !Hsize. cbn [args_size foldr].
  match goal with
  | |- context [Nat.ltb ?x ?y] => destruct (Nat.ltb_spec x y)
  end; lia.
Qed.

Lemma next_arg_end fmt taken :
  let m := mk_msg fmt (args_size taken) (args_bytes taken) in
  next_arg m (args_size taken) = args_size taken
  /\ arg_at m (args_size taken) = [].
Proof.
  cbv zeta. unfold next_arg, arg_at. cbn [m_argbytes m_args].
  rewrite Nat.ltb_irrefl, <- length_args_bytes, drop_all. auto.
Qed.

Lemma print_message_taken fmt taken out :
  (length taken <= 4)%nat ->
  print_message (mk_msg fmt (args_size taken) (args_bytes taken)) out
  = Some (out ++ [Printf (gettext fmt) (printed_args taken)]).
Proof.
  intros Hlen. unfold print_message. cbv zeta.
  pose proof (next_arg_end fmt taken) as Hend. cbv zeta in Hend.
  destruct taken as [|a0 taken].
  { destruct Hend as [Hn Ha]. cbn [args_size args_bytes foldr] in *.
    rewrite !Hn, !Ha. cbn [m_argbytes m_msgid Nat.leb]. reflexivity. }
  destruct (next_arg_taken fmt [] a0 taken) as [Hn0 Ha0]. cbn [app] in Hn0, Ha0.
  change (args_size []) with 0%nat in Hn0, Ha0. rewrite Hn0, Ha0.
  destruct taken as [|a1 taken].
  { destruct Hend as [Hn Ha]. rewrite !Hn, !Ha.
    cbn [m_argbytes m_msgid]. rewrite Nat.leb_refl. reflexivity. }
  destruct (next_arg_taken fmt [a0] a1 taken) as [Hn1 Ha1].
  cbn [app] in Hn1, Ha1. rewrite Hn1, Ha1.
  destruct taken as [|a2 taken].
  { destruct Hend as [Hn Ha]. rewrite !Hn, !Ha.
    cbn [m_argbytes m_msgid]. rewrite Nat.leb_refl. reflexivity. }
  destruct (next_arg_taken fmt [a0; a1] a2 taken) as [Hn2 Ha2].
  cbn [app] in Hn2, Ha2. rewrite Hn2, Ha2.
  destruct taken as [|a3 taken].
  { destruct Hend as [Hn Ha]. rewrite !Hn, !Ha.
    cbn [m_argbytes m_msgid]. rewrite Nat.leb_refl. reflexivity. }
  destruct (next_arg_taken fmt [a0; a1; a2] a3 taken) as [Hn3 Ha3].
  cbn [app] in Hn3, Ha3. rewrite Hn3, Ha3.
  destruct taken as [|a4 taken]; [|simpl in Hlen; lia].
  cbn [m_argbytes m_msgid]. rewrite Nat.leb_refl. reflexivity.
Qed.

Hypothesis with_paginate : paginate = true.

(** Queueing the calls, and then printing the queue. *)
Lemma messages_of_queued calls :
  forall l out,
    Forall well_formed_call calls ->
    exists l',
      messages_of calls (mk_messages (Queued l) out)
      = Some (mk_messages (Queued (l ++ l')) out)
      /\ length l' = length calls
      /\ forall out',
           print_messages l' out' = Some (out' ++ (printed <$> calls)).
Proof using with_paginate.
  induction calls as [|[fmt ap] calls IH]; intros l out Hwf.
  - exists []. rewrite app_nil_r. split; [reflexivity|].
    split; [reflexivity|]. intros out'. cbn. rewrite app_nil_r. reflexivity.
  - inversion Hwf as [|? ? (taken & Htaken & Hlen) Hrest]; subst.
    cbn [fst snd] in Htaken.
    cbn [messages_of]. unfold message. rewrite with_paginate, Htaken.
    cbn [mbind option_bind msg_chain stdout].
    destruct (IH (l ++ [mk_msg fmt (args_size taken) (args_bytes taken)])
                out Hrest) as (l' & E & Hl' & Hprint).
    exists (mk_msg fmt (args_size taken) (args_bytes taken) :: l').
    split; [rewrite E, <- app_assoc; reflexivity|].
    split; [simpl; lia|].
    intros out'. cbn [print_messages].
    rewrite (print_message_taken fmt taken out' Hlen).
    cbn [mbind option_bind]. rewrite Hprint, <- app_assoc.
    cbn [fmap list_fmap app]. unfold printed at 2. cbn [fst snd].
    rewrite Htaken. reflexivity.
Qed.

Lemma print_message_queue_queued l out printed_calls :
  (forall out', print_messages l out' = Some (out' ++ printed_calls)) ->
  exists st2,
    print_message_queue (mk_messages (Queued l) out) = Some st2
    /\ stdout st2 = out ++ printed_calls.
Proof.
  intros Hprint. unfold print_message_queue. cbn [msg_chain stdout].
  destruct l as [|m l].
  - specialize (Hprint out). cbn [print_messages] in Hprint.
    injection Hprint as Hprint. eexists. split; [reflexivity|exact Hprint].
  - rewrite Hprint. cbn [mbind option_bind].
    eexists. split; reflexivity.
Qed.

(** X19.  With -l, what message is given is what print_message_queue
    prints: the calls of message write nothing, and the queue is then
    printed in the order of the calls, each message with the format of
    its msgid and the strings it was called with (a message takes one
    argument for each percent sign of its msgid that is not doubled,
    four at most). *)
Theorem message_queue_in_order (calls : list (string * list (list ascii)))
    (st : messages) :
  msg_chain st = Queued [] ->
  Forall well_formed_call calls ->
  exists st1 st2,
    messages_of calls st = Some st1
    /\ stdout st1 = stdout st
    /\ print_message_queue st1 = Some st2
    /\ stdout st2 = stdout st ++ (printed <$> calls).
Proof using with_paginate.
  destruct st as [q out]. cbn [msg_chain stdout]. intros -> Hwf.
  destruct (messages_of_queued calls [] out Hwf) as (l' & E & _ & Hprint).
  cbn [app] in E.
  destruct (print_message_queue_queued l' out _ Hprint) as (st2 & E2 & Hout).
  exists (mk_messages (Queued l') out), st2.
  split; [exact E|]. split; [reflexivity|]. split; assumption.
Qed.

(** X20.  fatal prints the queued messages, in order, before its own
    message goes to stderr, and it ends the program with the status
    EXIT_TROUBLE. *)
Theorem fatal_prints_queue_and_exits (msgid : string)
    (calls : list (string * list (list ascii))) (st : messages) (w : world) :
  EXIT_TROUBLE <> 0 ->
  msg_chain st = Queued [] ->
  Forall well_formed_call calls ->
  exists st1 st2 w',
    messages_of calls st = Some st1
    /\ fatal msgid st1 w = Some (st2, Exits EXIT_TROUBLE w')
    /\ stdout st2 = stdout st ++ (printed <$> calls)
    /\ stderr_log w'
       = stderr_log w ++ [mk_diag EXIT_TROUBLE "%s" (Some (gettext msgid))]
    /\ trace w' = trace w.
Proof using with_paginate.
  destruct st as [q out]. cbn [msg_chain stdout]. intros Hexit -> Hwf.
  destruct (messages_of_queued calls [] out Hwf) as (l' & E & _ & Hprint).
  cbn [app] in E.
  destruct (print_message_queue_queued l' out _ Hprint) as (st2 & E2 & Hout).
  exists (mk_messages (Queued l') out), st2.
  eexists. split; [exact E|]. unfold fatal. rewrite E2.
  cbn [mbind option_bind]. unfold error.
  destruct (Z.eqb_spec EXIT_TROUBLE 0) as [H0|_]; [contradiction|].
  split; [reflexivity|]. split; [exact Hout|]. split; reflexivity.
Qed.

End Messages.

(** ** check_color_output

    The call of install_signal_handlers is the last thing the function
    does; the signal handlers themselves are not part of this
    development, and the result says whether the call is made. *)

(** The values of [enum colors_style] (diff.h); util.c only compares
    them with each other. *)
Inductive colors_style_t : Type := NEVER | AUTO | ALWAYS.

Definition colors_style_eqb (a b : colors_style_t) : bool :=
  match a, b with
  | NEVER, NEVER | AUTO, AUTO | ALWAYS, ALWAYS => true
  | _, _ => false
  end.

Section ColorOutput.

Variable colors_style : colors_style_t.    (* diff.h *)
Variable presume_output_tty : bool.        (* diff.h *)
Variable outfile_isatty : bool.            (* isatty (fileno (outfile)) *)

(** [outfile_open]: [outfile] is not null.  The second component of the
    result: install_signal_handlers is called. *)
Definition check_color_output (is_pipe : bool) (outfile_open : bool)
    (w : world) : outcome (world * bool) :=
  if negb outfile_open || colors_style_eqb colors_style NEVER
  then Continues (w, false)
  else
    let output_is_tty :=
      presume_output_tty || (negb is_pipe && outfile_isatty) in
    let w :=
      set_colors_enabled
        (colors_style_eqb colors_style ALWAYS
         || (colors_style_eqb colors_style AUTO && output_is_tty)) w in
    bind (if colors_enabled w then parse_diff_color w else Continues w)
      (fun w => Continues (w, output_is_tty)).

(** parse_diff_color comes back, says whether the palette failed, and
    has written nothing. *)
Lemma parse_diff_color_result w :
  exists w',
    parse_diff_color w = Continues w'
    /\ colors_enabled w' = colors_enabled w && negb (palette_fails w)
    /\ trace w' = trace w.
Proof.
  unfold parse_diff_color, palette_fails.
  destruct (color_palette w); cbn [negb orb andb];
    [|exists w; rewrite andb_true_r; repeat split; reflexivity].
  destruct (Ascii.eqb (peek (palette_mem w) 0) NUL); cbn [negb andb];
    [exists w; rewrite andb_true_r; repeat split; reflexivity|].
  set (w0 := set_palette (palette_mem w) false (color_indicator w) w).
  destruct (parse_run_terminates (S (length (palette_mem w0)))
              (mk_parser 0 0 ("?"%char, "?"%char) PS_START w0))
    as (st & E & Hstop & Hce); [cbn [ps_world ps_p]; lia|].
  unfold parse_palette. rewrite E. cbn [bind].
  destruct (parse_run_frame _ _ _ E) as (Ht & _).
  cbn [ps_world] in Hce, Ht.
  change (colors_enabled w0) with (colors_enabled w) in Hce.
  change (trace w0) with (trace w) in Ht.
  destruct (ps_state st); try discriminate Hstop.
  - exists (ps_world st). rewrite andb_true_r.
    split; [reflexivity|]. split; assumption.
  - eexists. split; [reflexivity|].
    cbn [colors_enabled set_colors_enabled set_stderr negb trace].
    rewrite andb_false_r. split; [reflexivity|exact Ht].
Qed.


End ColorOutput.

End Util.

Arguments Continues {A} a.
Arguments Exits {A} status w.

(** * Concrete runs

    The library functions are instantiated for the C locale, where every
    character is one byte, and [lin] has 64 bits.  The search for a
    regular expression is instantiated for patterns without special
    characters, which match where they occur literally. *)

Definition bytes (s : string) : list ascii := list_ascii_of_string s.

(** A line with its newline. *)
Definition text_line (s : string) : list ascii := bytes s ++ [newline].

(** The enumerators of [enum DIFF_white_space], numbered as in GNU
    diff's diff.h. *)
Definition IGNORE_NO_WHITE_SPACE : Z := 0.
Definition IGNORE_TRAILING_SPACE : Z := 1.
Definition IGNORE_TAB_EXPANSION : Z := 2.
Definition IGNORE_TAB_EXPANSION_AND_TRAILING_SPACE : Z := 3.
Definition IGNORE_SPACE_CHANGE : Z := 4.
Definition IGNORE_ALL_SPACE : Z := 5.

(** gnulib's mcel.h has [MCEL_LEN_MAX] at most 4. *)
Definition C_MCEL_LEN_MAX : nat := 4.

Definition c_mcel_scan (s : list ascii) : mcel_t :=
  match s with
  | [] => mk_mcel 0 false 1
  | c :: _ =>
      mk_mcel (Z.of_N (N_of_ascii c)) (128 <=? Z.of_N (N_of_ascii c)) 1
  end.

Definition c_isspace (ch : Z) : bool :=
  (ch =? 32) || ((9 <=? ch) && (ch <=? 13)).

Definition c_isprint (ch : Z) : bool := (32 <=? ch) && (ch <? 127).

Definition c_width (ch : Z) : Z := 1.

Definition c_gettext (msgid : string) : list ascii := bytes msgid.

Fixpoint is_prefix (pat s : list ascii) : bool :=
  match pat, s with
  | [], _ => true
  | _ :: _, [] => false
  | a :: pat', b :: s' => Ascii.eqb a b && is_prefix pat' s'
  end.

Fixpoint search_from (fuel : nat) (pat s : list ascii) (i : Z) : Z :=
  match fuel with
  | O => -1
  | S fuel' =>
      if is_prefix pat s then i else search_from fuel' pat (tl s) (i + 1)
  end.

(** The first offset from [start] to [start + range] at which [pat]
    occurs in [s], or -1. *)
Definition literal_search (pat : string) (s : list ascii) (start range : Z) : Z :=
  search_from (S (Z.to_nat range)) (bytes pat) (drop (Z.to_nat start) s) start.

(** The lines of a file, without prefix lines. *)
Definition file_of (lines : list (list ascii)) : file_data :=
  mk_file_data (fun i => if i <? 0 then [] else nth (Z.to_nat i) lines []) 0.

Definition plain_options : options :=
  mk_options false IGNORE_NO_WHITE_SPACE false false 8 false false.

(** A terminal that accepts 4096 bytes, with colors off or on, in the
    middle of an inserted line. *)
Definition terminal (colors : bool) (palette : string) : world :=
  mk_world [] 4096 colors ADD_CONTEXT initial_color_indicator
           (bytes palette) true [].

Lemma in_lin_64 z : - 2 ^ 63 <= z <= 2 ^ 63 - 1 -> in_lin 64 z.
Proof. intros H. exact H. Qed.

(** ** Line numbers *)

Definition numbered_file : file_data := mk_file_data (fun _ => []) 10.

Lemma translate_line_number_range_spec_witness :
  in_lin 64 (4 + prefix_lines numbered_file + 1)
  /\ in_lin 64 (2 + prefix_lines numbered_file + 1)
  /\ in_lin 64 (6 + prefix_lines numbered_file + 1)
  /\ translate_line_number 64 numbered_file 4 = 15
  /\ translate_range 64 numbered_file 2 6 = (13, 17).
Proof.
  assert (H4 : in_lin 64 (4 + prefix_lines numbered_file + 1))
    by (apply in_lin_64; simpl; lia).
  assert (H2 : in_lin 64 (2 + prefix_lines numbered_file + 1))
    by (apply in_lin_64; simpl; lia).
  assert (H6 : in_lin 64 (6 + prefix_lines numbered_file + 1))
    by (apply in_lin_64; simpl; lia).
  split; [exact H4|]. split; [exact H2|]. split; [exact H6|].
  apply (translate_line_number_range_spec 64 ltac:(lia) numbered_file 4 2 6);
    assumption.
Defined.

Lemma print_number_range_spec_witness :
  in_lin 64 (2 + prefix_lines numbered_file + 1)
  /\ in_lin 64 (6 + prefix_lines numbered_file + 1)
  /\ 2 < 6
  /\ output_bytes
       (trace (print_number_range 64 ","%char numbered_file 2 6
                 (terminal false "")))
     = bytes "13,17".
Proof.
  assert (H2 : in_lin 64 (2 + prefix_lines numbered_file + 1))
    by (apply in_lin_64; simpl; lia).
  assert (H6 : in_lin 64 (6 + prefix_lines numbered_file + 1))
    by (apply in_lin_64; simpl; lia).
  split; [exact H2|]. split; [exact H6|]. split; [lia|].
  refine (eq_trans
            (proj2 (print_number_range_spec 64 ltac:(lia) ","%char
                      numbered_file 2 6 (terminal false "") H2 H6 _) _) _).
  - vm_compute. lia.
  - lia.
  - reflexivity.
Defined.

Example print_number_range_single :
  output_bytes
    (trace (print_number_range 64 ","%char numbered_file 4 4
              (terminal false "")))
  = bytes "15".
Proof. reflexivity. Qed.

Example print_number_range_empty :
  output_bytes
    (trace (print_number_range 64 ","%char numbered_file 5 4
              (terminal false "")))
  = bytes "15".
Proof. reflexivity. Qed.

(** ** Hunks *)

(** The old file has a comment line and an empty line more than the
    new one. *)
Definition old_file : file_data :=
  file_of [text_line "a"; text_line "# note"; text_line "b"; text_line "";
           text_line "c"].

Definition new_file : file_data :=
  file_of [text_line "a"; text_line "b"; text_line "c"].

(** The change that deletes line 1 of the old file. *)
Definition delete_note : change := mk_change None 0 1 1 1.

(** The change that deletes line 3 of the old file. *)
Definition delete_empty : change := mk_change None 0 1 3 2.

Definition regexp_options : options :=
  mk_options false IGNORE_NO_WHITE_SPACE true false 8 false false.

Definition blank_options : options :=
  mk_options true IGNORE_NO_WHITE_SPACE false false 8 false false.

Lemma single_change_wf c :
  0 <= line0 c -> 0 <= deleted c -> line0 c + deleted c <= 2 ^ 63 - 1 ->
  0 <= line1 c -> 0 <= inserted c -> line1 c + inserted c <= 2 ^ 63 - 1 ->
  hunk_wf 64 [c].
Proof.
  intros H0 Hd Hd' H1 Hi Hi'.
  split; [|split].
  - constructor; [|constructor]. repeat split; assumption.
  - change (deleted c + 0 <= 2 ^ 63 - 1). lia.
  - change (inserted c + 0 <= 2 ^ 63 - 1). lia.
Qed.

Lemma analyze_hunk_classifies_witness :
  hunk_wf 64 [delete_note]
  /\ hr_changes
       (analyze_hunk 64 IGNORE_TRAILING_SPACE IGNORE_SPACE_CHANGE c_mcel_scan c_isspace (literal_search "#")
          regexp_options old_file new_file delete_note [])
     = UNCHANGED
  /\ hr_changes
       (analyze_hunk 64 IGNORE_TRAILING_SPACE IGNORE_SPACE_CHANGE c_mcel_scan c_isspace (literal_search "#")
          plain_options old_file new_file delete_note [])
     = OLD.
Proof.
  assert (Hwf : hunk_wf 64 [delete_note])
    by (apply single_change_wf; simpl; lia).
  split; [exact Hwf|]. split.
  - apply (analyze_hunk_classifies 64 ltac:(lia) IGNORE_TRAILING_SPACE IGNORE_SPACE_CHANGE
             c_mcel_scan c_isspace
             (literal_search "#") regexp_options old_file new_file
             delete_note [] Hwf).
    apply (forallb_Forall_ignorable IGNORE_TRAILING_SPACE IGNORE_SPACE_CHANGE).
    reflexivity.
  - apply (analyze_hunk_classifies 64 ltac:(lia) IGNORE_TRAILING_SPACE IGNORE_SPACE_CHANGE
             c_mcel_scan c_isspace
             (literal_search "#") plain_options old_file new_file
             delete_note [] Hwf).
    + intros H.
      apply (forallb_Forall_ignorable IGNORE_TRAILING_SPACE
               IGNORE_SPACE_CHANGE) in H.
      discriminate H.
    + reflexivity.
    + reflexivity.
Defined.

Example analyze_hunk_changed :
  analyze_hunk 64 IGNORE_TRAILING_SPACE IGNORE_SPACE_CHANGE c_mcel_scan c_isspace (literal_search "#") plain_options
    old_file new_file (mk_change None 1 2 1 1) []
  = mk_hunk_result CHANGED 1 2 1 1.
Proof. reflexivity. Qed.

(** A hunk of two changes: the line of the first is ignorable, the
    line of the second is not. *)
Example analyze_hunk_two_changes :
  analyze_hunk 64 IGNORE_TRAILING_SPACE IGNORE_SPACE_CHANGE c_mcel_scan
    c_isspace (literal_search "#") regexp_options old_file new_file
    (mk_change (Some 2%positive) 0 1 1 1) [delete_empty]
  = mk_hunk_result OLD 1 3 1 1.
Proof. reflexivity. Qed.

Lemma blank_hunk_unchanged_witness :
  ignore_blank_lines blank_options = true
  /\ hunk_wf 64 [delete_empty]
  /\ Forall (blank_line IGNORE_TRAILING_SPACE c_mcel_scan c_isspace blank_options)
       (hunk_lines old_file new_file [delete_empty])
  /\ hr_changes
       (analyze_hunk 64 IGNORE_TRAILING_SPACE IGNORE_SPACE_CHANGE c_mcel_scan c_isspace (literal_search "#")
          blank_options old_file new_file delete_empty [])
     = UNCHANGED
  /\ script_verdict 64 IGNORE_TRAILING_SPACE IGNORE_SPACE_CHANGE c_mcel_scan c_isspace (literal_search "#")
       blank_options old_file new_file [(delete_empty, [])]
     = identical.
Proof.
  assert (Hwf : hunk_wf 64 [delete_empty])
    by (apply single_change_wf; simpl; lia).
  assert (Hblank : Forall (blank_line IGNORE_TRAILING_SPACE c_mcel_scan c_isspace blank_options)
                     (hunk_lines old_file new_file [delete_empty]))
    by (constructor; [reflexivity|constructor]).
  split; [reflexivity|]. split; [exact Hwf|]. split; [exact Hblank|].
  destruct (blank_hunk_unchanged 64 ltac:(lia) IGNORE_TRAILING_SPACE IGNORE_SPACE_CHANGE
              c_mcel_scan c_isspace
              (literal_search "#") blank_options old_file new_file
              delete_empty [] [] [] eq_refl Hwf Hblank) as (Hu & _ & Hv).
  split; [exact Hu|]. apply Hv; reflexivity.
Defined.

(** With ignore-blank-lines alone a line of blanks is not ignorable;
    with an option that ignores trailing space as well, it is. *)
Example blanks_need_white_space_option :
  line_not_trivial IGNORE_TRAILING_SPACE IGNORE_SPACE_CHANGE c_mcel_scan c_isspace (literal_search "#") blank_options
    (text_line "   ") = true
  /\ line_not_trivial IGNORE_TRAILING_SPACE IGNORE_SPACE_CHANGE c_mcel_scan c_isspace (literal_search "#")
       (mk_options true IGNORE_TRAILING_SPACE false false 8 false false)
       (text_line "   ") = false.
Proof. split; reflexivity. Qed.

Lemma regexp_ignorable_line_witness :
  ignore_regexp_fastmap regexp_options = true
  /\ line_not_trivial IGNORE_TRAILING_SPACE IGNORE_SPACE_CHANGE c_mcel_scan c_isspace (literal_search "#")
       regexp_options (text_line "foo # bar") = false.
Proof.
  split; [reflexivity|].
  apply (regexp_ignorable_line IGNORE_TRAILING_SPACE IGNORE_SPACE_CHANGE c_mcel_scan c_isspace (literal_search "#")
           regexp_options (text_line "foo # bar") eq_refl).
  left. vm_compute. discriminate.
Defined.

(** C3 as the specification states it does not hold.  With
    ignore-blank-lines an empty line is ignorable although the pattern
    matches nowhere in it; and a line is ignorable through a match that
    needs its leading blank, although the pattern matches nowhere in
    what is left of the line after the white space has been skipped. *)
Lemma regexp_covers_rest_counterexample :
  (line_not_trivial IGNORE_TRAILING_SPACE IGNORE_SPACE_CHANGE c_mcel_scan c_isspace (literal_search "x")
     (mk_options true IGNORE_NO_WHITE_SPACE true false 8 false false)
     (text_line "") = false
   /\ ~ regexp_covers_rest IGNORE_TRAILING_SPACE IGNORE_SPACE_CHANGE c_mcel_scan c_isspace (literal_search "x")
          (mk_options true IGNORE_NO_WHITE_SPACE true false 8 false false)
          (text_line ""))
  /\ (line_not_trivial IGNORE_TRAILING_SPACE IGNORE_SPACE_CHANGE c_mcel_scan c_isspace (literal_search " x")
        (mk_options true IGNORE_SPACE_CHANGE true false 8 false false)
        (text_line " xy") = false
      /\ ~ regexp_covers_rest IGNORE_TRAILING_SPACE IGNORE_SPACE_CHANGE c_mcel_scan c_isspace (literal_search " x")
             (mk_options true IGNORE_SPACE_CHANGE true false 8 false false)
             (text_line " xy")).
Proof.
  split; (split; [reflexivity|]);
    unfold regexp_covers_rest; vm_compute; intros H; exact (H eq_refl).
Qed.

(** ** Printing a line *)

Definition tab_options : options :=
  mk_options false IGNORE_NO_WHITE_SPACE false true 8 false false.

Example print_1_line_with_newline :
  output_bytes
    (trace (print_1_line c_mcel_scan c_isprint c_width c_gettext
              plain_options (Some (bytes "<")) (text_line "abc")
              (terminal false "")))
  = bytes "< abc" ++ [newline].
Proof. reflexivity. Qed.

Lemma no_newline_marker_rule_witness :
  last_byte (bytes "abc") <> newline
  /\ flag_null_or_nonempty (Some (bytes "<")) = true
  /\ output_bytes
       (trace (print_1_line_nl c_mcel_scan c_isprint c_width c_gettext
                 plain_options (Some (bytes "<")) (bytes "abc") false
                 (terminal false "")))
     = bytes "< abc" ++ [newline] ++ bytes "\ No newline at end of file"
       ++ [newline].
Proof.
  assert (Hlast : last_byte (bytes "abc") <> newline) by discriminate.
  split; [exact Hlast|]. split; [reflexivity|].
  refine (eq_trans
            (proj1 (no_newline_marker_rule c_mcel_scan c_isprint c_width
                      c_gettext plain_options (Some (bytes "<")) (bytes "abc")
                      false (terminal false ""))
               Hlast eq_refl _) _).
  - vm_compute. lia.
  - reflexivity.
Defined.

(** With colors on, the reset sequence comes between the text and the
    marker. *)
Example no_newline_marker_colors :
  output_bytes
    (trace (print_1_line_nl c_mcel_scan c_isprint c_width c_gettext
              plain_options (Some (bytes "<")) (bytes "abc") false
              (terminal true "")))
  = bytes "< abc" ++ ["027"%char] ++ bytes "[0m" ++ [newline]
    ++ bytes "\ No newline at end of file" ++ [newline].
Proof. reflexivity. Qed.

(** C6 as the specification states it does not hold: printed with the
    empty line flag, a line without newline gets no marker. *)
Lemma no_newline_marker_counterexample :
  last_byte (bytes "abc") <> newline
  /\ output_bytes
       (trace (print_1_line_nl c_mcel_scan c_isprint c_width c_gettext
                 plain_options (Some []) (bytes "abc") false
                 (terminal false "")))
     = bytes "abc"
  /\ ~ (exists body,
          output_bytes
            (trace (print_1_line_nl c_mcel_scan c_isprint c_width c_gettext
                      plain_options (Some []) (bytes "abc") false
                      (terminal false "")))
          = body ++ no_newline_marker c_gettext).
Proof.
  split; [discriminate|]. split; [reflexivity|].
  intros [body H]. apply (f_equal (@length ascii)) in H.
  rewrite length_app in H.
  assert (Hm : length (no_newline_marker c_gettext) = 29%nat) by reflexivity.
  rewrite Hm in H. change (3%nat = (length body + 29)%nat) in H. lia.
Qed.

(** The sizes of the writes of a trace, and 0 for each call of
    process_signals. *)
Definition trace_shape (tr : list event) : list nat :=
  map (fun e => match e with Wrote bs => length bs | Signals => 0%nat end) tr.

Example output_1_line_2500_bytes :
  trace_shape
    (trace (output_1_line c_mcel_scan c_isprint c_width plain_options
              (repeat "x"%char 2500) None None
              (mk_world [] 4096 false RESET_CONTEXT initial_color_indicator
                        [] false [])))
  = [1024; 0; 1024; 0; 452; 0]%nat.
Proof. vm_compute. reflexivity. Qed.

(** With -t the 1024th turn of the loop is the first to call
    process_signals. *)
Example output_1_line_tabs_1023_1024 :
  count_signals
    (trace (output_1_line c_mcel_scan c_isprint c_width tab_options
              (repeat "x"%char 1023) None None (terminal false "")))
  = 0%nat
  /\ count_signals
       (trace (output_1_line c_mcel_scan c_isprint c_width tab_options
                 (repeat "x"%char 1024) None None (terminal false "")))
     = 1%nat.
Proof. split; vm_compute; reflexivity. Qed.

Example output_1_line_expands_tab :
  output_bytes
    (trace (output_1_line c_mcel_scan c_isprint c_width tab_options
              (bytes "ab" ++ ["009"%char] ++ bytes "c") None None
              (terminal false "")))
  = bytes "ab      c".
Proof. reflexivity. Qed.

Lemma output_1_line_polls_witness :
  expand_tabs tab_options = true
  /\ 0 < tabsize tab_options
  /\ (forall s, (Pos.to_nat (mcel_len (c_mcel_scan s)) <= C_MCEL_LEN_MAX)%nat)
  /\ (forall ch, c_isprint ch = true -> 0 <= c_width ch)
  /\ (exists new,
        trace (output_1_line c_mcel_scan c_isprint c_width tab_options
                 (repeat "x"%char 3000) None None (terminal false ""))
        = trace (terminal false "") ++ new
        /\ (max_gap new <= MAX_CHUNK * per_turn_bound C_MCEL_LEN_MAX tab_options None)%nat)
  /\ expand_tabs plain_options = false
  /\ (exists new,
        trace (output_1_line c_mcel_scan c_isprint c_width plain_options
                 (repeat "x"%char 3000) None None (terminal false ""))
        = trace (terminal false "") ++ new
        /\ chunked new /\ (max_gap new <= MAX_CHUNK)%nat).
Proof.
  assert (Hlen : forall s,
             (Pos.to_nat (mcel_len (c_mcel_scan s)) <= C_MCEL_LEN_MAX)%nat)
    by (intros [|c s]; unfold C_MCEL_LEN_MAX; simpl; lia).
  assert (Hwidth : forall ch, c_isprint ch = true -> 0 <= c_width ch)
    by (intros ch _; unfold c_width; lia).
  assert (Hts : 0 < tabsize tab_options) by (simpl; lia).
  split; [reflexivity|]. split; [exact Hts|]. split; [exact Hlen|].
  split; [exact Hwidth|]. split; [|split; [reflexivity|]].
  - exact (proj2 (proj2 (output_1_line_polls C_MCEL_LEN_MAX c_mcel_scan c_isprint c_width
                           tab_options (repeat "x"%char 3000) None None
                           (terminal false "")) eq_refl)
             Hts Hlen Hwidth).
  - exact (proj1 (output_1_line_polls C_MCEL_LEN_MAX c_mcel_scan c_isprint c_width
                    plain_options (repeat "x"%char 3000) None None
                    (terminal false "")) eq_refl).
Defined.

(** ** The palette *)

Example get_funky_string_escape :
  get_funky_string (bytes "\e[1m:x") 0 0 false
  = mk_funky_result (["027"%char] ++ bytes "[1mm:x") 4 5 true.
Proof. vm_compute. reflexivity. Qed.

Example get_funky_string_codes :
  get_funky_string (bytes "^A\x41\101=z") 0 0 true
  = mk_funky_result (["001"%char] ++ bytes "AAx41\101=z") 3 10 true.
Proof. vm_compute. reflexivity. Qed.

Example get_funky_string_error :
  fr_ok (get_funky_string (bytes "ab\") 0 0 false) = false
  /\ fr_ok (get_funky_string (bytes "ab^") 0 0 false) = false.
Proof. split; vm_compute; reflexivity. Qed.

Lemma get_funky_string_advance_witness :
  (0 <= 0)%nat
  /\ (fr_dest (get_funky_string (bytes "\e[1m:x") 0 0 false)
      <= fr_src (get_funky_string (bytes "\e[1m:x") 0 0 false))%nat
  /\ forall i,
       (fr_src (get_funky_string (bytes "\e[1m:x") 0 0 false) <= i)%nat ->
       fr_mem (get_funky_string (bytes "\e[1m:x") 0 0 false) !! i
       = bytes "\e[1m:x" !! i.
Proof.
  split; [lia|].
  apply (get_funky_string_advance (bytes "\e[1m:x") 0 0 false). lia.
Defined.

Example parse_diff_color_sets_indicators :
  exists w',
    parse_diff_color (terminal true "ad=1;32:de=\e[7m") = Continues w'
    /\ colors_enabled w' = true
    /\ bin_str_bytes w' (indicator w' C_ADD) = bytes "1;32"
    /\ bin_str_bytes w' (indicator w' C_DELETE) = ["027"%char] ++ bytes "[7m"
    /\ stderr_log w' = [].
Proof.
  eexists. split; [vm_compute; reflexivity|].
  repeat split; vm_compute; reflexivity.
Qed.

Lemma parse_diff_color_not_fatal_witness :
  palette_fails (terminal true "ad=32:zz=1") = true
  /\ exists w',
       parse_diff_color (terminal true "ad=32:zz=1") = Continues w'
       /\ colors_enabled w' = false
       /\ last (stderr_log w')
          = Some (mk_diag 0 "unparsable value for --palette" None).
Proof.
  assert (Hfails : palette_fails (terminal true "ad=32:zz=1") = true)
    by (vm_compute; reflexivity).
  split; [exact Hfails|].
  destruct (parse_diff_color_not_fatal (terminal true "ad=32:zz=1"))
    as (w' & E & Hf & _).
  exists w'. split; [exact E|]. apply Hf, Hfails.
Defined.

(** C7 as the specification states it does not hold: a palette that
    cannot be parsed makes parse_diff_color issue two messages with
    status 0 and return with the colors turned off. *)
Lemma palette_fatal_counterexample :
  palette_fails (terminal true "ad=32:zz=1") = true
  /\ parse_diff_color (terminal true "ad=32:zz=1")
     = Continues
         (mk_world [] 4096 false ADD_CONTEXT
            (<[5%nat := mk_bin_str 2 (InPalette 0)]> initial_color_indicator)
            (bytes "32=32:zz=1") false
            [mk_diag 0 "unrecognized prefix: %s" (Some (bytes "zz"));
             mk_diag 0 "unparsable value for --palette" None])
  /\ forall status w',
       parse_diff_color (terminal true "ad=32:zz=1") <> Exits status w'.
Proof.
  assert (E : parse_diff_color (terminal true "ad=32:zz=1")
              = Continues
                  (mk_world [] 4096 false ADD_CONTEXT
                     (<[5%nat := mk_bin_str 2 (InPalette 0)]>
                        initial_color_indicator)
                     (bytes "32=32:zz=1") false
                     [mk_diag 0 "unrecognized prefix: %s" (Some (bytes "zz"));
                      mk_diag 0 "unparsable value for --palette" None]))
    by (vm_compute; reflexivity).
  split; [vm_compute; reflexivity|]. split; [exact E|].
  intros status w'. rewrite E. discriminate.
Qed.

(** ** print_script *)

(** Three changes at the addresses 1, 2 and 3, linked in this order. *)
Definition three_changes : gmap positive change :=
  <[1%positive := mk_change (Some 2%positive) 0 1 1 1]>
    (<[2%positive := mk_change (Some 3%positive) 1 0 5 4]>
       (<[3%positive := mk_change None 2 2 8 8]> ∅)).

(** A [printfun] that prints the value of [line0] of each change of the
    hunk it is given, and a newline after the hunk. *)
Fixpoint show_chain (fuel : nat) (h : gmap positive change) (p : option ptr)
    : list ascii :=
  match fuel, p with
  | S fuel', Some a =>
      match h !! a with
      | Some c => decimal (line0 c) ++ " "%char :: show_chain fuel' h (link c)
      | None => []
      end
  | _, _ => []
  end.

Definition show_hunk (this : ptr) (h : gmap positive change) (w : world)
    : gmap positive change * world :=
  (h, snd (fprintf (show_chain (size h) h (Some this) ++ [newline]) w)).

Example print_script_three_hunks :
  exists w',
    print_script find_change show_hunk 3 (Some 1%positive) three_changes
      (terminal false "")
    = Some (three_changes, w')
    /\ output_bytes (trace w')
       = bytes "1 " ++ [newline] ++ bytes "5 " ++ [newline] ++ bytes "8 "
         ++ [newline].
Proof. eexists. split; vm_compute; reflexivity. Qed.

Lemma three_changes_chain :
  chain three_changes (Some 1%positive) [1%positive; 2%positive; 3%positive].
Proof.
  econstructor; [reflexivity|]. econstructor; [reflexivity|].
  econstructor; [reflexivity|]. constructor.
Qed.

Lemma print_script_keeps_chain_witness :
  chain three_changes (Some 1%positive) [1%positive; 2%positive; 3%positive]
  /\ exists h' w',
       print_script find_change show_hunk 3 (Some 1%positive) three_changes
         (terminal false "")
       = Some (h', w')
       /\ (forall a, link <$> (h' !! a) = link <$> (three_changes !! a))
       /\ chain h' (Some 1%positive) [1%positive; 2%positive; 3%positive].
Proof.
  split; [exact three_changes_chain|].
  apply (print_script_keeps_chain find_change show_hunk (Some 1%positive)
           three_changes (terminal false "")
           [1%positive; 2%positive; 3%positive] 3 three_changes_chain).
  - intros h this l' _ Hc. exists this. split; [reflexivity|].
    inversion Hc; subst. apply list_elem_of_here.
  - intros this h w' hunk _. reflexivity.
  - simpl. lia.
Defined.

(** * More runs *)

(** ** Line numbers and hunks *)

Lemma print_number_range_single_number_witness :
  in_lin 64 (5 + prefix_lines numbered_file + 1)
  /\ in_lin 64 (4 + prefix_lines numbered_file + 1)
  /\ 4 <= 5
  /\ output_bytes
       (trace (print_number_range 64 ","%char numbered_file 5 4
                 (terminal false "")))
     = bytes "15".
Proof.
  assert (H5 : in_lin 64 (5 + prefix_lines numbered_file + 1))
    by (apply in_lin_64; simpl; lia).
  assert (H4 : in_lin 64 (4 + prefix_lines numbered_file + 1))
    by (apply in_lin_64; simpl; lia).
  split; [exact H5|]. split; [exact H4|]. split; [lia|].
  refine (eq_trans
            (print_number_range_single_number 64 ltac:(lia) ","%char
               numbered_file 5 4 (terminal false "") H5 H4 ltac:(lia)) _).
  reflexivity.
Defined.

Lemma change_wf_64 c :
  0 <= line0 c -> 0 <= deleted c -> line0 c + deleted c <= 2 ^ 63 - 1 ->
  0 <= line1 c -> 0 <= inserted c -> line1 c + inserted c <= 2 ^ 63 - 1 ->
  change_wf 64 c.
Proof. intros. repeat split; assumption. Qed.

(** The change that deletes line 1 of the old file touches the lines 1
    to 1 of the old file and no line of the new one. *)
Lemma analyze_hunk_ranges_witness :
  Forall (change_wf 64) [delete_note]
  /\ hr_first0
       (analyze_hunk 64 IGNORE_TRAILING_SPACE IGNORE_SPACE_CHANGE c_mcel_scan
          c_isspace (literal_search "#") plain_options old_file new_file
          delete_note []) = 1
  /\ hr_last0
       (analyze_hunk 64 IGNORE_TRAILING_SPACE IGNORE_SPACE_CHANGE c_mcel_scan
          c_isspace (literal_search "#") plain_options old_file new_file
          delete_note []) = 1
  /\ hr_first1
       (analyze_hunk 64 IGNORE_TRAILING_SPACE IGNORE_SPACE_CHANGE c_mcel_scan
          c_isspace (literal_search "#") plain_options old_file new_file
          delete_note []) = 1
  /\ hr_last1
       (analyze_hunk 64 IGNORE_TRAILING_SPACE IGNORE_SPACE_CHANGE c_mcel_scan
          c_isspace (literal_search "#") plain_options old_file new_file
          delete_note []) = 0.
Proof.
  assert (Hwf : Forall (change_wf 64) [delete_note])
    by (constructor; [apply change_wf_64; simpl; lia|constructor]).
  split; [exact Hwf|].
  destruct (analyze_hunk_ranges 64 ltac:(lia) IGNORE_TRAILING_SPACE
              IGNORE_SPACE_CHANGE c_mcel_scan c_isspace (literal_search "#")
              plain_options old_file new_file delete_note [] Hwf)
    as (H1 & H2 & H3 & H4 & _).
  split; [exact H1|]. split; [exact H2|]. split; [exact H3|exact H4].
Defined.

Lemma analyze_hunk_without_rule_witness :
  ignore_blank_lines plain_options = false
  /\ ignore_regexp_fastmap plain_options = false
  /\ hunk_wf 64 [delete_empty]
  /\ hr_changes
       (analyze_hunk 64 IGNORE_TRAILING_SPACE IGNORE_SPACE_CHANGE c_mcel_scan
          c_isspace (literal_search "#") plain_options old_file new_file
          delete_empty []) = OLD.
Proof.
  assert (Hwf : hunk_wf 64 [delete_empty])
    by (apply single_change_wf; simpl; lia).
  split; [reflexivity|]. split; [reflexivity|]. split; [exact Hwf|].
  exact (proj1 (analyze_hunk_without_rule 64 ltac:(lia) IGNORE_TRAILING_SPACE
                  IGNORE_SPACE_CHANGE c_mcel_scan c_isspace
                  (literal_search "#") plain_options old_file new_file
                  delete_empty [] eq_refl eq_refl Hwf)).
Defined.

(** Ignoring blank lines with -Z and with -w. *)
Definition blank_trailing_options : options :=
  mk_options true IGNORE_TRAILING_SPACE false false 8 false false.

Definition blank_all_space_options : options :=
  mk_options true IGNORE_ALL_SPACE false false 8 false false.

Lemma analyze_hunk_white_space_levels_witness :
  ignore_blank_lines blank_trailing_options
  = ignore_blank_lines blank_all_space_options
  /\ (IGNORE_TRAILING_SPACE <=? ignore_white_space blank_trailing_options)
     = (IGNORE_TRAILING_SPACE <=? ignore_white_space blank_all_space_options)
  /\ analyze_hunk 64 IGNORE_TRAILING_SPACE IGNORE_SPACE_CHANGE c_mcel_scan
       c_isspace (literal_search "#") blank_trailing_options old_file new_file
       delete_empty []
     = analyze_hunk 64 IGNORE_TRAILING_SPACE IGNORE_SPACE_CHANGE c_mcel_scan
         c_isspace (literal_search "#") blank_all_space_options old_file
         new_file delete_empty [].
Proof.
  split; [reflexivity|]. split; [reflexivity|].
  exact (analyze_hunk_white_space_levels 64 IGNORE_TRAILING_SPACE
           IGNORE_SPACE_CHANGE c_mcel_scan c_isspace (literal_search "#")
           blank_trailing_options blank_all_space_options old_file new_file
           delete_empty [] eq_refl eq_refl eq_refl).
Defined.

(** ** Colors and lines *)

Lemma set_color_context_switches_witness :
  colors_enabled (terminal true "") = true
  /\ last_context (terminal true "") <> DELETE_CONTEXT
  /\ output_bytes (trace (set_color_context DELETE_CONTEXT (terminal true "")))
     = ["027"%char] ++ bytes "[31m"
  /\ last_context (set_color_context DELETE_CONTEXT (terminal true ""))
     = DELETE_CONTEXT.
Proof.
  assert (Hne : last_context (terminal true "") <> DELETE_CONTEXT)
    by discriminate.
  split; [reflexivity|]. split; [exact Hne|].
  exact (set_color_context_switches DELETE_CONTEXT (terminal true "")
           eq_refl Hne).
Defined.

(** A stream that accepts four bytes gets the first four of six. *)
Lemma output_1_line_unexpanded_witness :
  expand_tabs plain_options = false
  /\ output_bytes
       (trace (output_1_line c_mcel_scan c_isprint c_width plain_options
                 (bytes "abcdef") None None
                 (mk_world [] 4 false RESET_CONTEXT initial_color_indicator
                    [] false [])))
     = bytes "abcd".
Proof.
  split; [reflexivity|].
  exact (proj1 (output_1_line_unexpanded c_mcel_scan c_isprint c_width
                  plain_options (bytes "abcdef") None None
                  (mk_world [] 4 false RESET_CONTEXT initial_color_indicator
                     [] false []) eq_refl)).
Defined.

Lemma ordinary_letter c :
  (32 <= Z.of_N (N_of_ascii c) < 127) ->
  ordinary c_mcel_scan c_isprint c_width c.
Proof.
  intros Hc. unfold ordinary.
  split; [intros ->; cbn in Hc; lia|].
  split; [intros ->; cbn in Hc; lia|].
  split; [intros ->; cbn in Hc; lia|].
  intros t'. unfold c_mcel_scan, c_isprint, c_width.
  cbn [mcel_len mcel_err mcel_ch].
  repeat split; lia.
Qed.

Lemma output_1_line_expands_tabs_witness :
  expand_tabs tab_options = true
  /\ 0 < tabsize tab_options
  /\ Forall (fun c => c = "009"%char
                      \/ ordinary c_mcel_scan c_isprint c_width c)
       (bytes "ab" ++ ["009"%char] ++ bytes "c")
  /\ output_bytes
       (trace (output_1_line c_mcel_scan c_isprint c_width tab_options
                 (bytes "ab" ++ ["009"%char] ++ bytes "c") None None
                 (terminal false "")))
     = bytes "ab      c".
Proof.
  assert (Hts : 0 < tabsize tab_options) by (simpl; lia).
  assert (Hall : Forall (fun c => c = "009"%char
                                  \/ ordinary c_mcel_scan c_isprint c_width c)
                   (bytes "ab" ++ ["009"%char] ++ bytes "c")).
  { repeat (apply List.Forall_cons;
            [first [left; reflexivity
                   |right; apply ordinary_letter; cbn; lia]|]).
    apply List.Forall_nil. }
  split; [reflexivity|]. split; [exact Hts|]. split; [exact Hall|].
  refine (eq_trans
            (output_1_line_expands_tabs c_mcel_scan c_isprint c_width
               tab_options (bytes "ab" ++ ["009"%char] ++ bytes "c") None None
               (terminal false "") eq_refl Hts Hall _) _).
  - vm_compute. lia.
  - reflexivity.
Defined.

(** Under suppress-blank-empty an empty context line, whose flag is a
    single blank, is written as an empty line. *)
Definition suppress_options : options :=
  mk_options false IGNORE_NO_WHITE_SPACE false false 8 false true.

Lemma print_1_line_nl_flag_witness :
  expand_tabs suppress_options = false
  /\ bytes " " <> []
  /\ last_byte [newline] = newline
  /\ output_bytes
       (trace (print_1_line_nl c_mcel_scan c_isprint c_width c_gettext
                 suppress_options (Some (bytes " ")) [newline] false
                 (terminal false "")))
     = [newline]
  /\ output_bytes
       (trace (print_1_line_nl c_mcel_scan c_isprint c_width c_gettext
                 plain_options (Some (bytes ">")) (text_line "x") false
                 (terminal false "")))
     = bytes "> x" ++ [newline].
Proof.
  assert (Hflag : bytes " " <> []) by discriminate.
  assert (Hflag' : bytes ">" <> []) by discriminate.
  split; [reflexivity|]. split; [exact Hflag|]. split; [reflexivity|]. split.
  - exact (proj2 (print_1_line_nl_flag c_mcel_scan c_isprint c_width
                    c_gettext suppress_options (bytes " ") [newline] false
                    (terminal false "") eq_refl Hflag eq_refl) eq_refl).
  - exact (proj1 (print_1_line_nl_flag c_mcel_scan c_isprint c_width
                    c_gettext plain_options (bytes ">") (text_line "x") false
                    (terminal false "") eq_refl Hflag' eq_refl) eq_refl).
Defined.

(** ** The palette *)

(** The value of an entry ends at the colon before the next entry. *)
Lemma get_funky_string_stops_at_terminator_witness :
  fr_ok (get_funky_string (bytes "1;32:de=31") 0 0 false) = true
  /\ (0 <= 0)%nat
  /\ fr_src (get_funky_string (bytes "1;32:de=31") 0 0 false) = 4%nat
  /\ funky_terminator false
       (peek (bytes "1;32:de=31")
          (fr_src (get_funky_string (bytes "1;32:de=31") 0 0 false)))
     = true.
Proof.
  assert (Hok : fr_ok (get_funky_string (bytes "1;32:de=31") 0 0 false) = true)
    by (vm_compute; reflexivity).
  split; [exact Hok|]. split; [lia|].
  split; [vm_compute; reflexivity|].
  exact (proj1 (proj2 (get_funky_string_stops_at_terminator
                         (bytes "1;32:de=31") 0 0 false Hok) (le_n 0))).
Defined.

(** A backslash at the end of the string. *)
Lemma get_funky_string_fails_at_witness :
  fr_ok (get_funky_string (bytes "ab\") 0 0 false) = false
  /\ (0 <= 0)%nat
  /\ fr_src (get_funky_string (bytes "ab\") 0 0 false) = 4%nat
  /\ (((2 <= fr_src (get_funky_string (bytes "ab\") 0 0 false))%nat
       /\ peek (bytes "ab\")
            (fr_src (get_funky_string (bytes "ab\") 0 0 false) - 2)
          = "\"%char
       /\ peek (bytes "ab\")
            (fr_src (get_funky_string (bytes "ab\") 0 0 false) - 1)
          = NUL)
      \/ ((1 <= fr_src (get_funky_string (bytes "ab\") 0 0 false))%nat
          /\ peek (bytes "ab\")
               (fr_src (get_funky_string (bytes "ab\") 0 0 false) - 1)
             = "^"%char
          /\ caret_ok
               (peek (bytes "ab\")
                  (fr_src (get_funky_string (bytes "ab\") 0 0 false)))
             = false)).
Proof.
  assert (Hok : fr_ok (get_funky_string (bytes "ab\") 0 0 false) = false)
    by (vm_compute; reflexivity).
  split; [exact Hok|]. split; [lia|].
  split; [vm_compute; reflexivity|].
  exact (get_funky_string_fails_at (bytes "ab\") 0 0 false Hok (le_n 0)).
Defined.

(** The value of the first entry of a palette, copied to its start. *)
Lemma get_funky_string_copies_plain_witness :
  (0 <= 3)%nat
  /\ take (length (bytes "1;32")) (drop 3 (bytes "ad=1;32:de=31"))
     = bytes "1;32"
  /\ forallb (funky_plain false) (bytes "1;32") = true
  /\ fr_ok (get_funky_string (bytes "ad=1;32:de=31") 0 3 false) = true
  /\ fr_src (get_funky_string (bytes "ad=1;32:de=31") 0 3 false) = 7%nat
  /\ fr_dest (get_funky_string (bytes "ad=1;32:de=31") 0 3 false) = 4%nat
  /\ take 4 (fr_mem (get_funky_string (bytes "ad=1;32:de=31") 0 3 false))
     = bytes "1;32".
Proof.
  assert (Hs : take (length (bytes "1;32")) (drop 3 (bytes "ad=1;32:de=31"))
               = bytes "1;32") by reflexivity.
  assert (Hplain : forallb (funky_plain false) (bytes "1;32") = true)
    by reflexivity.
  split; [lia|]. split; [exact Hs|]. split; [exact Hplain|].
  exact (get_funky_string_copies_plain (bytes "ad=1;32:de=31") 0 3 false
           (bytes "1;32") ltac:(lia) Hs Hplain eq_refl).
Defined.

Lemma initial_indicators_literal :
  Forall (indicator_below 0) initial_color_indicator.
Proof. repeat (apply List.Forall_cons; [exact I|]). apply List.Forall_nil. Qed.

Lemma parse_diff_color_once_witness :
  exists w',
    parse_diff_color (terminal true "ad=1;32:de=31") = Continues w'
    /\ color_palette w' = false
    /\ parse_diff_color w' = Continues w'.
Proof.
  destruct (parse_diff_color (terminal true "ad=1;32:de=31"))
    as [w'|status w'] eqn:E.
  - exists w'. split; [reflexivity|].
    split; [|exact (proj1 (parse_diff_color_once _ _ E))].
    vm_compute in E. injection E as <-. reflexivity.
  - vm_compute in E. discriminate E.
Defined.

Lemma parse_diff_color_indicators_in_palette_witness :
  Forall (indicator_below 0) (color_indicator (terminal true "ad=1;32:de=31"))
  /\ exists w',
       parse_diff_color (terminal true "ad=1;32:de=31") = Continues w'
       /\ length (color_indicator w') = 8%nat
       /\ Forall (indicator_below (length (palette_mem w')))
            (color_indicator w').
Proof.
  split; [exact initial_indicators_literal|].
  destruct (parse_diff_color (terminal true "ad=1;32:de=31"))
    as [w'|status w'] eqn:E.
  - exists w'. split; [reflexivity|].
    destruct (parse_diff_color_indicators_in_palette
                (terminal true "ad=1;32:de=31") w'
                initial_indicators_literal E) as (_ & Hlen & Hall).
    split; [exact Hlen|exact Hall].
  - vm_compute in E. discriminate E.
Defined.

Lemma parse_diff_color_plain_palette_witness :
  palette_mem (terminal true "ad=1;32:de=31")
  = palette_text [(5%nat, bytes "1;32"); (6%nat, bytes "31")]
  /\ Forall plain_entry [(5%nat, bytes "1;32"); (6%nat, bytes "31")]
  /\ exists w',
       parse_diff_color (terminal true "ad=1;32:de=31") = Continues w'
       /\ colors_enabled w' = true
       /\ stderr_log w' = []
       /\ indicator_bytes w'
          = [ ["027"; "["]%char; bytes "m"; []; bytes "0"; bytes "1";
              bytes "1;32"; bytes "31"; bytes "36" ].
Proof.
  assert (Hes : Forall plain_entry
                  [(5%nat, bytes "1;32"); (6%nat, bytes "31")]).
  { apply List.Forall_cons; [split; [simpl; lia|reflexivity]|].
    apply List.Forall_cons; [split; [simpl; lia|reflexivity]|].
    apply List.Forall_nil. }
  split; [reflexivity|]. split; [exact Hes|].
  destruct (parse_diff_color_plain_palette
              [(5%nat, bytes "1;32"); (6%nat, bytes "31")]
              (terminal true "ad=1;32:de=31") eq_refl eq_refl Hes
              initial_indicators_literal) as (w' & E & Hce & Hse & Hb).
  exists w'. split; [exact E|]. split; [exact Hce|]. split; [exact Hse|].
  exact Hb.
Defined.

(** ** print_script, once more *)

Lemma print_script_prints_hunks_witness :
  chain three_changes (Some 1%positive) [1%positive; 2%positive; 3%positive]
  /\ exists hs,
       concat hs = [1%positive; 2%positive; 3%positive]
       /\ Forall (fun hunk =>
                    exists this end_,
                      head hunk = Some this /\ last hunk = Some end_
                      /\ find_change three_changes this = Some end_) hs
       /\ print_script find_change show_hunk 3 (Some 1%positive) three_changes
            (terminal false "")
          = Some (three_changes,
                  foldl (fun w hunk => print_hunk show_hunk three_changes hunk w)
                    (terminal false "") hs).
Proof.
  split; [exact three_changes_chain|].
  apply (print_script_prints_hunks find_change show_hunk (Some 1%positive)
           three_changes (terminal false "")
           [1%positive; 2%positive; 3%positive] 3 three_changes_chain).
  - intros this l' Hc. exists this. split; [reflexivity|].
    inversion Hc; subst. apply list_elem_of_here.
  - intros this h w'. reflexivity.
  - simpl. lia.
Defined.

(** ** Messages *)

(** The status of trouble, as in GNU diff's system.h. *)
Definition C_EXIT_TROUBLE : Z := 2.

Definition two_messages : list (string * list (list ascii)) :=
  [ ("Only in %s: %s"%string, [bytes "dir"; bytes "file"]);
    ("Files %s and %s differ"%string, [bytes "a"; bytes "b"]) ].

Lemma two_messages_well_formed : Forall well_formed_call two_messages.
Proof.
  apply List.Forall_cons;
    [eexists; split; [vm_compute; reflexivity|simpl; lia]|].
  apply List.Forall_cons;
    [eexists; split; [vm_compute; reflexivity|simpl; lia]|].
  apply List.Forall_nil.
Qed.

Lemma message_queue_in_order_witness :
  Forall well_formed_call two_messages
  /\ exists st1 st2,
       messages_of c_gettext true false two_messages
         (mk_messages (Queued []) [])
       = Some st1
       /\ stdout st1 = []
       /\ print_message_queue c_gettext st1 = Some st2
       /\ stdout st2
          = [ Printf (bytes "Only in %s: %s")
                [bytes "dir"; bytes "file"; []; []];
              Printf (bytes "Files %s and %s differ")
                [bytes "a"; bytes "b"; []; []] ].
Proof.
  split; [exact two_messages_well_formed|].
  exact (message_queue_in_order c_gettext true false eq_refl two_messages
           (mk_messages (Queued []) []) eq_refl two_messages_well_formed).
Defined.

Lemma fatal_prints_queue_and_exits_witness :
  C_EXIT_TROUBLE <> 0
  /\ exists st1 st2 w',
       messages_of c_gettext true false two_messages
         (mk_messages (Queued []) [])
       = Some st1
       /\ fatal c_gettext C_EXIT_TROUBLE "write failed" st1 (terminal false "")
          = Some (st2, Exits C_EXIT_TROUBLE w')
       /\ stdout st2
          = [ Printf (bytes "Only in %s: %s")
                [bytes "dir"; bytes "file"; []; []];
              Printf (bytes "Files %s and %s differ")
                [bytes "a"; bytes "b"; []; []] ]
       /\ stderr_log w'
          = [mk_diag C_EXIT_TROUBLE "%s" (Some (bytes "write failed"))].
Proof.
  assert (Hexit : C_EXIT_TROUBLE <> 0) by discriminate.
  split; [exact Hexit|].
  destruct (fatal_prints_queue_and_exits c_gettext true false C_EXIT_TROUBLE
              eq_refl "write failed" two_messages (mk_messages (Queued []) [])
              (terminal false "") Hexit eq_refl two_messages_well_formed)
    as (st1 & st2 & w' & E1 & E2 & Hout & Herr & _).
  exists st1, st2, w'. split; [exact E1|]. split; [exact E2|].
  split; [exact Hout|exact Herr].
Defined.

(** ** Escapes *)

(** A value with an escape of every kind. *)
Definition escapes : list token :=
  [Escaped "e"; Plain "["; Octal (bytes "061"); Plain ";";
   Hex "x" (bytes "6d"); Caret "A"; Hex "X" []; Plain "m"; CaretDel;
   Plain "?"].

Lemma get_funky_string_decodes_witness :
  (0 <= 3)%nat
  /\ forallb (token_ok false) escapes = true
  /\ separated escapes = true
  /\ take (length (tokens_text escapes))
       (drop 3 (bytes "lc=\e[\061;\x6d^A\Xm^?:rc=m"))
     = tokens_text escapes
  /\ fr_ok (get_funky_string (bytes "lc=\e[\061;\x6d^A\Xm^?:rc=m") 0 3 false)
     = true
  /\ fr_src (get_funky_string (bytes "lc=\e[\061;\x6d^A\Xm^?:rc=m") 0 3 false)
     = 22%nat
  /\ fr_dest (get_funky_string (bytes "lc=\e[\061;\x6d^A\Xm^?:rc=m") 0 3 false)
     = 10%nat
  /\ take 10
       (fr_mem (get_funky_string (bytes "lc=\e[\061;\x6d^A\Xm^?:rc=m") 0 3
                  false))
     = ["027"; "["; "1"; ";"; "m"; "001"; "000"; "m"; "127"; "?"]%char.
Proof.
  assert (Hok : forallb (token_ok false) escapes = true) by reflexivity.
  assert (Hsep : separated escapes = true) by reflexivity.
  assert (Hs : take (length (tokens_text escapes))
                 (drop 3 (bytes "lc=\e[\061;\x6d^A\Xm^?:rc=m"))
               = tokens_text escapes) by reflexivity.
  split; [lia|]. split; [exact Hok|]. split; [exact Hsep|].
  split; [exact Hs|].
  exact (get_funky_string_decodes (bytes "lc=\e[\061;\x6d^A\Xm^?:rc=m") 0 3
           false escapes ltac:(lia) Hok Hsep Hs eq_refl).
Defined.

(** A value that ends in a caret and a digit. *)
Lemma get_funky_string_rejects_witness :
  (0 <= 3)%nat
  /\ forallb (token_ok false) [Plain "1"; Plain ";"] = true
  /\ separated [Plain "1"; Plain ";"] = true
  /\ take (length (tokens_text [Plain "1"; Plain ";"]))
       (drop 3 (bytes "ad=1;^1:de=31"))
     = tokens_text [Plain "1"; Plain ";"]
  /\ fr_ok (get_funky_string (bytes "ad=1;^1:de=31") 0 3 false) = false
  /\ fr_src (get_funky_string (bytes "ad=1;^1:de=31") 0 3 false) = 6%nat
  /\ fr_dest (get_funky_string (bytes "ad=1;^1:de=31") 0 3 false) = 2%nat
  /\ take 2 (fr_mem (get_funky_string (bytes "ad=1;^1:de=31") 0 3 false))
     = bytes "1;".
Proof.
  assert (Hok : forallb (token_ok false) [Plain "1"; Plain ";"] = true)
    by reflexivity.
  assert (Hsep : separated [Plain "1"; Plain ";"] = true) by reflexivity.
  assert (Hs : take (length (tokens_text [Plain "1"; Plain ";"]))
                 (drop 3 (bytes "ad=1;^1:de=31"))
               = tokens_text [Plain "1"; Plain ";"]) by reflexivity.
  split; [lia|]. split; [exact Hok|]. split; [exact Hsep|].
  split; [exact Hs|].
  exact (get_funky_string_rejects (bytes "ad=1;^1:de=31") 0 3 false
           [Plain "1"; Plain ";"] ltac:(lia) Hok Hsep Hs
           (or_intror (conj eq_refl eq_refl))).
Defined.

(** ** Palettes with escapes *)

(** The palette [lc=\e[:ad=\x33;1]. *)
Definition escaped_entries : list (nat * list token) :=
  [(0%nat, [Escaped "e"; Plain "["]);
   (5%nat, [Hex "x" (bytes "33"); Plain ";"; Plain "1"])].

Lemma escaped_entries_ok : Forall token_entry escaped_entries.
Proof.
  apply List.Forall_cons;
    [split; [simpl; lia|split; reflexivity]|].
  apply List.Forall_cons;
    [split; [simpl; lia|split; reflexivity]|].
  apply List.Forall_nil.
Qed.

Lemma parse_diff_color_decodes_palette_witness :
  palette_mem (terminal true "lc=\e[:ad=\x33;1")
  = palette_text (raw_entry <$> escaped_entries)
  /\ Forall token_entry escaped_entries
  /\ exists w',
       parse_diff_color (terminal true "lc=\e[:ad=\x33;1") = Continues w'
       /\ colors_enabled w' = true
       /\ stderr_log w' = []
       /\ indicator_bytes w'
          = [ ["027"; "["]%char; bytes "m"; []; bytes "0"; bytes "1";
              bytes "3;1"; bytes "31"; bytes "36" ].
Proof.
  split; [reflexivity|]. split; [exact escaped_entries_ok|].
  destruct (parse_diff_color_decodes_palette escaped_entries
              (terminal true "lc=\e[:ad=\x33;1") eq_refl eq_refl
              escaped_entries_ok initial_indicators_literal)
    as (w' & E & Hce & Hse & Hb).
  exists w'. split; [exact E|]. split; [exact Hce|]. split; [exact Hse|].
  exact Hb.
Defined.

(** The palette [ad=1:xx=3], with a label that is no indicator. *)
Lemma parse_diff_color_unrecognized_prefix_witness :
  palette_mem (terminal true "ad=1:xx=3")
  = entries_text (raw_entry <$> [(5%nat, [Plain "1"])])
    ++ ["x"; "x"; "="; "3"]%char
  /\ Forall token_entry [(5%nat, [Plain "1"])]
  /\ find_indicator (c_str ["x"; "x"]%char) indicator_name 0 = None
  /\ exists w',
       parse_diff_color (terminal true "ad=1:xx=3") = Continues w'
       /\ colors_enabled w' = false
       /\ stderr_log w'
          = [mk_diag 0 "unrecognized prefix: %s" (Some ["x"; "x"]%char);
             mk_diag 0 "unparsable value for --palette" None].
Proof.
  assert (Hes : Forall token_entry [(5%nat, [Plain "1"])]).
  { apply List.Forall_cons; [split; [simpl; lia|split; reflexivity]|].
    apply List.Forall_nil. }
  split; [reflexivity|]. split; [exact Hes|]. split; [reflexivity|].
  exact (parse_diff_color_unrecognized_prefix [(5%nat, [Plain "1"])]
           "x" "x" ["3"%char] (terminal true "ad=1:xx=3") eq_refl eq_refl Hes
           initial_indicators_literal ltac:(discriminate) ltac:(discriminate)
           ltac:(discriminate) ltac:(discriminate) (or_introl eq_refl)).
Defined.

(** ** Carriage returns *)

(** The flag of an inserted line, written again after the carriage
    return inside the line. *)
Lemma output_1_line_carriage_return_witness :
  expand_tabs tab_options = true
  /\ 0 < tabsize tab_options
  /\ Forall (fun c => c = "009"%char
                      \/ ordinary c_mcel_scan c_isprint c_width c)
       (bytes "ab")
  /\ Forall (fun c => c = "009"%char
                      \/ ordinary c_mcel_scan c_isprint c_width c)
       (bytes "c")
  /\ output_bytes
       (trace (output_1_line c_mcel_scan c_isprint c_width tab_options
                 (bytes "ab" ++ "013"%char :: bytes "c") (Some FMT_S_SPACE)
                 (Some (bytes "+")) (terminal false "")))
     = bytes "ab" ++ "013"%char :: bytes "+ c".
Proof.
  assert (Hts : 0 < tabsize tab_options) by (simpl; lia).
  assert (Hall1 : Forall (fun c => c = "009"%char
                                   \/ ordinary c_mcel_scan c_isprint c_width c)
                    (bytes "ab")).
  { repeat (apply List.Forall_cons;
            [right; apply ordinary_letter; cbn; lia|]).
    apply List.Forall_nil. }
  assert (Hall2 : Forall (fun c => c = "009"%char
                                   \/ ordinary c_mcel_scan c_isprint c_width c)
                    (bytes "c")).
  { repeat (apply List.Forall_cons;
            [right; apply ordinary_letter; cbn; lia|]).
    apply List.Forall_nil. }
  split; [reflexivity|]. split; [exact Hts|]. split; [exact Hall1|].
  split; [exact Hall2|].
  refine (eq_trans
            (output_1_line_carriage_return c_mcel_scan c_isprint c_width
               tab_options (bytes "ab") (bytes "c") (Some FMT_S_SPACE)
               (Some (bytes "+")) (terminal false "") eq_refl Hts Hall1
               (or_intror Hall2) _) _).
  - vm_compute. lia.
  - reflexivity.
Defined.

(** ** Backspaces *)

(** The second backspace stands in the first column and is left out;
    the one after the tab is followed by a tab of one blank. *)
Lemma output_1_line_backspaces_witness :
  expand_tabs tab_options = true
  /\ 0 < tabsize tab_options
  /\ Forall (fun c => c = "009"%char \/ c = "008"%char
                      \/ ordinary c_mcel_scan c_isprint c_width c)
       (bytes "a" ++ ["008"; "008"; "009"; "008"; "009"]%char ++ bytes "b")
  /\ output_bytes
       (trace (output_1_line c_mcel_scan c_isprint c_width tab_options
                 (bytes "a" ++ ["008"; "008"; "009"; "008"; "009"]%char
                    ++ bytes "b")
                 None None (terminal false "")))
     = bytes "a" ++ ["008"%char] ++ bytes "        " ++ ["008"%char]
       ++ bytes " b".
Proof.
  assert (Hts : 0 < tabsize tab_options) by (simpl; lia).
  assert (Hall : Forall (fun c => c = "009"%char \/ c = "008"%char
                                  \/ ordinary c_mcel_scan c_isprint c_width c)
                   (bytes "a" ++ ["008"; "008"; "009"; "008"; "009"]%char
                      ++ bytes "b")).
  { repeat (apply List.Forall_cons;
            [first [left; reflexivity
                   |right; left; reflexivity
                   |right; right; apply ordinary_letter; cbn; lia]|]).
    apply List.Forall_nil. }
  split; [reflexivity|]. split; [exact Hts|]. split; [exact Hall|].
  refine (eq_trans
            (output_1_line_backspaces c_mcel_scan c_isprint c_width
               tab_options
               (bytes "a" ++ ["008"; "008"; "009"; "008"; "009"]%char
                  ++ bytes "b")
               None None (terminal false "") eq_refl Hts Hall _) _).
  - vm_compute. lia.
  - reflexivity.
Defined.
